(** * The MBTI scoring engine of persona-nextjs

    A shallow embedding of
      - [Assessment.calculateResult] and [getAlternativeTypes]
        (src/lib/db/models/Assessment.ts),
      - the earlier variant of the same two functions with hard-coded
        denominators and closeness threshold 10,
      - the score validation of the Result model
        (src/lib/db/models/Result.ts): schema validators, the pre-save
        hook, [createNewResult] and [getActiveResult],
      - the validation hook of a question and [getQuestionCounts]
        (src/lib/db/models/Assessment.ts),
      - the unified User model (src/lib/db/models/User.ts): the pre-save
        hook and the methods,
      - the submission route (POST /api/assessment/submit),
      - the Content model (src/lib/db/models/Content.ts): the pre-save
        hook, [getNavigation] and the word count,
      - the cached connection ([connectDB], [disconnectDB]).

    Modelling conventions.
      - A JavaScript number is a [number]: a rational, +Infinity,
        -Infinity or NaN.  Sums, products and quotients are rounded to
        binary64 (53 significant bits, nearest, ties to even, overflow to
        an infinity), and a decimal literal such as 0.01 is the binary64
        value nearest to it.  The sign of zero is not modelled.
      - Tallies are natural numbers; the entries of [questionCounts] are
        integers of either sign, or missing.
      - A JavaScript string is a [string]; an array is a [list].
      - A value that may be [undefined] is an [option].
      - A function that may throw returns a [completion].

    The first part of the file is the embedding of the code.  The second
    part defines the words the properties are stated in (occurrences,
    complement of a letter, rounding half away from zero, ...), written
    from the specification and independent of the code.  The third part
    holds the proofs. *)

From Stdlib Require Import ZArith QArith Qround Qpower List String Ascii Bool.
From Stdlib Require Import Lia Lqa.
From Stdlib Require Import NArith DecimalString Permutation Sorted.
Import ListNotations.

Local Open Scope string_scope.
Local Open Scope list_scope.

(** ** JavaScript numbers *)

Inductive number : Type :=
| Num (x : Q)
| PInf
| NInf
| NaN.

Definition num_of_Z (z : Z) : number := Num (inject_Z z).
Definition num_of_nat (n : nat) : number := num_of_Z (Z.of_nat n).

(** [ToNumber] of a property that holds an integer or is missing:
    [undefined] converts to NaN. *)
Definition ToNumber (v : option Z) : number :=
  match v with
  | Some z => num_of_Z z
  | None => NaN
  end.

(** ** Binary64

    The arithmetic of ECMAScript numbers is that of IEEE 754 binary64:
    the exact result rounded to the nearest value of 53 significant bits,
    a tie going to the even significand, with gradual underflow below
    [2 ^ -1022] and an infinity beyond the largest finite value.  A
    finite result is held as a fraction in lowest terms. *)

(** [2 ^ e], for an exponent of either sign. *)
Definition pow2 (e : Z) : Q := 2 ^ e.

(** [floor (log2 x)] for a positive rational. *)
Definition ilog2 (x : Q) : Z :=
  let e := (Z.log2 (Qnum x) - Z.log2 (Zpos (Qden x)))%Z in
  if Qle_bool (pow2 e) x then e else (e - 1)%Z.

(** The integer nearest to [y], a tie going to the even one. *)
Definition round_half_even (y : Q) : Z :=
  let f := Qfloor y in
  match (y - inject_Z f ?= 1 # 2)%Q with
  | Lt => f
  | Gt => (f + 1)%Z
  | Eq => if Z.even f then f else (f + 1)%Z
  end.

(** The exponent of a positive [x], not below -1022 (the subnormal
    range). *)
Definition exponent (x : Q) : Z := Z.max (ilog2 x) (-1022).

(** The unit in the last place of a positive [x]: 53 significant bits. *)
Definition ulp (x : Q) : Q := pow2 (exponent x - 52).

(** A positive rational rounded to the nearest multiple of its unit. *)
Definition round_magnitude (x : Q) : Q :=
  inject_Z (round_half_even (x / ulp x)) * ulp x.

(** The binary64 value nearest to [x], ties to even; beyond the largest
    finite value the result is an infinity. *)
Definition binary64 (x : Q) : number :=
  match (x ?= 0)%Q with
  | Eq => Num 0
  | Gt =>
      let r := round_magnitude x in
      if Qle_bool (pow2 1024) r then PInf else Num (Qred r)
  | Lt =>
      let r := round_magnitude (- x) in
      if Qle_bool (pow2 1024) r then NInf else Num (Qred (- r))
  end.

Definition js_neg (a : number) : number :=
  match a with
  | Num x => Num (- x)
  | PInf => NInf
  | NInf => PInf
  | NaN => NaN
  end.

Definition js_add (a b : number) : number :=
  match a, b with
  | NaN, _ | _, NaN => NaN
  | Num x, Num y => binary64 (x + y)
  | PInf, NInf | NInf, PInf => NaN
  | PInf, _ | _, PInf => PInf
  | NInf, _ | _, NInf => NInf
  end.

Definition js_sub (a b : number) : number := js_add a (js_neg b).

(** The sign of an infinite product or quotient, from the sign of the
    finite operand; a zero operand gives NaN for the product. *)
Definition scale_inf (pos : bool) (x : Q) : number :=
  match (x ?= 0)%Q with
  | Eq => NaN
  | Gt => if pos then PInf else NInf
  | Lt => if pos then NInf else PInf
  end.

Definition js_mul (a b : number) : number :=
  match a, b with
  | NaN, _ | _, NaN => NaN
  | Num x, Num y => binary64 (x * y)
  | PInf, Num y => scale_inf true y
  | NInf, Num y => scale_inf false y
  | Num x, PInf => scale_inf true x
  | Num x, NInf => scale_inf false x
  | PInf, PInf | NInf, NInf => PInf
  | PInf, NInf | NInf, PInf => NInf
  end.

Definition js_div (a b : number) : number :=
  match a, b with
  | NaN, _ | _, NaN => NaN
  | Num x, Num y =>
      match (y ?= 0)%Q with
      | Eq => scale_inf true x          (* x / 0: NaN, +Infinity or -Infinity *)
      | _ => binary64 (x / y)
      end
  | Num _, PInf | Num _, NInf => Num 0
  | PInf, Num y => match (y ?= 0)%Q with Lt => NInf | _ => PInf end
  | NInf, Num y => match (y ?= 0)%Q with Lt => PInf | _ => NInf end
  | _, _ => NaN
  end.

Definition Math_abs (a : number) : number :=
  match a with
  | Num x => Num (match (x ?= 0)%Q with Lt => - x | _ => x end)
  | PInf | NInf => PInf
  | NaN => NaN
  end.

(** [Math.round]: the nearest integer, a tie going toward +Infinity. *)
Definition Math_round (a : number) : number :=
  match a with
  | Num x => num_of_Z (Qfloor (x + (1 # 2)))
  | other => other
  end.

(** The relational comparison of two numbers; [None] when one is NaN. *)
Definition js_compare (a b : number) : option comparison :=
  match a, b with
  | NaN, _ | _, NaN => None
  | Num x, Num y => Some (x ?= y)%Q
  | PInf, PInf | NInf, NInf => Some Eq
  | PInf, _ | _, NInf => Some Gt
  | NInf, _ | _, PInf => Some Lt
  end.

Definition js_lt (a b : number) : bool :=
  match js_compare a b with Some Lt => true | _ => false end.

Definition js_gt (a b : number) : bool := js_lt b a.

Definition js_ge (a b : number) : bool :=
  match js_compare a b with Some Gt | Some Eq => true | _ => false end.

Definition js_le (a b : number) : bool := js_ge b a.

Definition js_eq (a b : number) : bool :=
  match js_compare a b with Some Eq => true | _ => false end.

(** ** Completions *)

Inductive exn : Type :=
| TypeError (message : string)
| ValidationError (message : string)
| CastError (message : string)
| JsError (message : string).

Inductive completion (A : Type) : Type :=
| Normal (a : A)
| Throw (e : exn).
Arguments Normal {A} a.
Arguments Throw {A} e.

Definition bind {A B : Type} (c : completion A) (k : A -> completion B)
  : completion B :=
  match c with
  | Normal a => k a
  | Throw e => Throw e
  end.

Notation "x <- c ;; k" := (bind c (fun x => k))
  (at level 61, c at next level, right associativity).

(** Reading a property of [questionCounts]: a TypeError when the object
    itself is [undefined] or [null]. *)
Definition get_property {O A : Type} (obj : option O) (field : O -> A)
  : completion A :=
  match obj with
  | Some o => Normal (field o)
  | None => Throw (TypeError "Cannot read properties of undefined")
  end.

(** ** Data of the Assessment model *)

(** The [counts] object of [calculateResult]: the tallies of the eight
    trait letters E, I, S, N, T, F, J, P. *)
Record Counts : Type := mkCounts {
  count_E : nat; count_I : nat;
  count_S : nat; count_N : nat;
  count_T : nat; count_F : nat;
  count_J : nat; count_P : nat
}.

(** [questionCounts]: a denominator per dimension, each an integer or
    missing. *)
Record QuestionCounts : Type := mkQuestionCounts {
  EI : option Z;
  SN : option Z;
  TF : option Z;
  JP : option Z
}.

Record Scores : Type := mkScores {
  extrovert : number; introvert : number;
  sensory : number; intuitive : number;
  thinking : number; feeling : number;
  judging : number; perceiving : number
}.

Record ScoringResult : Type := mkResult {
  scores : Scores;
  personalityType : string;
  alternativeType1 : option string;
  alternativeType2 : option string
}.

(** One entry of the [dimensions] table of [getAlternativeTypes]. *)
Record Dimension : Type := mkDimension {
  pair : string * string;
  letters : list string;
  index : nat
}.

(** ** Strings and arrays *)

(** [s.split('')]: the array of the one-character strings of [s]. *)
Fixpoint split_chars (s : string) : list string :=
  match s with
  | EmptyString => []
  | String c rest => String c EmptyString :: split_chars rest
  end.

(** [arr.join('')]. *)
Definition join (arr : list string) : string := String.concat "" arr.

(** [arr[i] = v]: in range the element is replaced; out of range the
    array is extended, the holes in between joining as empty strings. *)
Fixpoint array_set (arr : list string) (i : nat) (v : string) : list string :=
  match i, arr with
  | O, [] => [v]
  | O, _ :: tl => v :: tl
  | S i', [] => "" :: array_set [] i' v
  | S i', x :: tl => x :: array_set tl i' v
  end.

(** [l !== currentLetter], where [currentLetter] may be [undefined]. *)
Definition strict_neq (l : string) (current : option string) : bool :=
  match current with
  | Some c => negb (String.eqb l c)
  | None => true
  end.

(** Truthiness of a string: every string but the empty one. *)
Definition truthy (s : string) : bool := negb (String.eqb s "").

(** [v || null] for [v] a string or [undefined]. *)
Definition or_null (v : option string) : option string :=
  match v with
  | Some s => if truthy s then Some s else None
  | None => None
  end.

(** ** calculateResult: the tallies *)

Definition initial_counts : Counts := mkCounts 0 0 0 0 0 0 0 0.

(** [value in counts] for the eight own properties.  Names inherited from
    [Object.prototype] also satisfy [in], and the increment then stores NaN
    under that name: none of the eight tallies changes, so such names are
    treated like every other unrecognized value. *)
Definition in_counts (value : string) : bool :=
  existsb (String.eqb value) ["E"; "I"; "S"; "N"; "T"; "F"; "J"; "P"].

(** [counts[value]++]. *)
Definition increment (counts : Counts) (value : string) : Counts :=
  let '(mkCounts e i s n t f j p) := counts in
  match value with
  | "E" => mkCounts (S e) i s n t f j p
  | "I" => mkCounts e (S i) s n t f j p
  | "S" => mkCounts e i (S s) n t f j p
  | "N" => mkCounts e i s (S n) t f j p
  | "T" => mkCounts e i s n (S t) f j p
  | "F" => mkCounts e i s n t (S f) j p
  | "J" => mkCounts e i s n t f (S j) p
  | "P" => mkCounts e i s n t f j (S p)
  | _ => counts
  end.

(** The body of [answers.forEach]. *)
Definition tally_step (counts : Counts) (value : string) : Counts :=
  if in_counts value then increment counts value else counts.

Definition tally (answers : list string) : Counts :=
  fold_left tally_step answers initial_counts.

(** ** getAlternativeTypes *)

Definition dimensions : list Dimension :=
  [ mkDimension ("extrovert", "introvert") ["E"; "I"] 0;
    mkDimension ("sensory", "intuitive") ["S"; "N"] 1;
    mkDimension ("thinking", "feeling") ["T"; "F"] 2;
    mkDimension ("judging", "perceiving") ["J"; "P"] 3 ].

(** [scores[trait]]; an unknown name reads [undefined], which the
    subtraction converts to NaN. *)
Definition score_of (s : Scores) (trait : string) : number :=
  match trait with
  | "extrovert" => extrovert s
  | "introvert" => introvert s
  | "sensory" => sensory s
  | "intuitive" => intuitive s
  | "thinking" => thinking s
  | "feeling" => feeling s
  | "judging" => judging s
  | "perceiving" => perceiving s
  | _ => NaN
  end.

(** The predicate of [dimensions.filter]. *)
Definition is_close (closeThreshold : Q) (s : Scores) (dim : Dimension) : bool :=
  let '(trait1, trait2) := pair dim in
  let diff := Math_abs (js_sub (score_of s trait1) (score_of s trait2)) in
  js_lt diff (Num closeThreshold).

(** The body of [closeDimensions.slice(0, 2).forEach]. *)
Definition flip_step (primaryType : string) (alternatives : list string)
  (dim : Dimension) : list string :=
  let typeArray := split_chars primaryType in
  let currentLetter := nth_error typeArray (index dim) in
  let alternateLetter :=
    find (fun l => strict_neq l currentLetter) (letters dim) in
  match alternateLetter with
  | Some l =>
      if truthy l
      then alternatives ++ [join (array_set typeArray (index dim) l)]
      else alternatives
  | None => alternatives
  end.

(** [getAlternativeTypes], with its local constant [closeThreshold] as a
    parameter: the two versions of the function differ in it only. *)
Definition getAlternativeTypes_at (closeThreshold : Q) (s : Scores)
  (primaryType : string) : list string :=
  let closeDimensions := filter (is_close closeThreshold s) dimensions in
  fold_left (flip_step primaryType) (firstn 2 closeDimensions) [].

(** ** calculateResult *)

(** [Math.round((count / denominator) * 100)]. *)
Definition percentage (count : nat) (denominator : number) : number :=
  Math_round (js_mul (js_div (num_of_nat count) denominator) (Num 100)).

(** The type code of a score record: [>=] keeps the first letter of each
    pair unless the second score is larger (or a comparison with NaN
    fails). *)
Definition type_of_scores (s : Scores) : string :=
  join [ if js_ge (extrovert s) (introvert s) then "E" else "I";
         if js_ge (sensory s) (intuitive s) then "S" else "N";
         if js_ge (thinking s) (feeling s) then "T" else "F";
         if js_ge (judging s) (perceiving s) then "J" else "P" ].

(** What follows the computation of [scores], shared by both versions. *)
Definition result_of_scores (closeThreshold : Q) (s : Scores) : ScoringResult :=
  let type := type_of_scores s in
  let alternatives := getAlternativeTypes_at closeThreshold s type in
  mkResult s type
    (or_null (nth_error alternatives 0))
    (or_null (nth_error alternatives 1)).

(** src/lib/db/models/Assessment.ts *)
Module Assessment.

Definition closeThreshold : Q := 20.

Definition getAlternativeTypes : Scores -> string -> list string :=
  getAlternativeTypes_at closeThreshold.

Definition calculateResult (answers : list string)
  (questionCounts : option QuestionCounts) : completion ScoringResult :=
  let counts := tally answers in
  ei <- get_property questionCounts EI ;;
  sn <- get_property questionCounts SN ;;
  tf <- get_property questionCounts TF ;;
  jp <- get_property questionCounts JP ;;
  let s :=
    mkScores
      (percentage (count_E counts) (ToNumber ei))
      (percentage (count_I counts) (ToNumber ei))
      (percentage (count_S counts) (ToNumber sn))
      (percentage (count_N counts) (ToNumber sn))
      (percentage (count_T counts) (ToNumber tf))
      (percentage (count_F counts) (ToNumber tf))
      (percentage (count_J counts) (ToNumber jp))
      (percentage (count_P counts) (ToNumber jp)) in
  Normal (result_of_scores closeThreshold s).

End Assessment.

(** The earlier version of the model: the denominators are the constants
    10 (E, I) and 20 (the other letters), [questionCounts] is not read,
    and [closeThreshold] is 10. *)
Module AssessmentFixed.

Definition closeThreshold : Q := 10.

Definition getAlternativeTypes : Scores -> string -> list string :=
  getAlternativeTypes_at closeThreshold.

Definition calculateResult (answers : list string)
  (questionCounts : option QuestionCounts) : completion ScoringResult :=
  let counts := tally answers in
  let s :=
    mkScores
      (percentage (count_E counts) (Num 10))
      (percentage (count_I counts) (Num 10))
      (percentage (count_S counts) (Num 20))
      (percentage (count_N counts) (Num 20))
      (percentage (count_T counts) (Num 20))
      (percentage (count_F counts) (Num 20))
      (percentage (count_J counts) (Num 20))
      (percentage (count_P counts) (Num 20)) in
  Normal (result_of_scores closeThreshold s).

End AssessmentFixed.

(** ** The Result model (src/lib/db/models/Result.ts) *)

Module Result.

(** The [resultData] argument of [createNewResult]. *)
Record ResultData : Type := mkResultData {
  data_answers : list string;
  data_scores : Scores;
  data_personalityType : string;
  data_alternativeType1 : option string;
  data_alternativeType2 : option string
}.

(** A stored document: the ids, the fields of [resultData] after the
    setters, and the [isActive] flag.  Object ids are numbered; the
    timestamps and [timeTaken] are left out. *)
Record ResultDoc : Type := mkResultDoc {
  userId : nat;
  assessmentId : nat;
  fields : ResultData;
  isActive : bool
}.

(** The literal [0.01]. *)
Definition tolerance : number := binary64 (1 # 100).

(** The [min: 0, max: 100] validators of one score. *)
Definition score_in_range (v : number) : bool :=
  js_ge v (Num 0) && js_le v (Num 100).

Definition scores_in_range (s : Scores) : bool :=
  forallb score_in_range
    [ extrovert s; introvert s; sensory s; intuitive s;
      thinking s; feeling s; judging s; perceiving s ].

Definition is_upper (c : ascii) : bool :=
  let n := nat_of_ascii c in (65 <=? n)%nat && (n <=? 90)%nat.

(** The pattern [/^[A-Z]{4}$/]. *)
Definition four_uppercase (s : string) : bool :=
  let cs := list_ascii_of_string s in
  (List.length cs =? 4)%nat && forallb is_upper cs.

(** The [uppercase: true] setter of the three type fields. *)
Definition to_upper (c : ascii) : ascii :=
  let n := nat_of_ascii c in
  if (97 <=? n)%nat && (n <=? 122)%nat then ascii_of_nat (n - 32) else c.

Definition uppercase (s : string) : string :=
  string_of_list_ascii (map to_upper (list_ascii_of_string s)).

Definition apply_setters (d : ResultData) : ResultData :=
  mkResultData (data_answers d) (data_scores d)
    (uppercase (data_personalityType d))
    (option_map uppercase (data_alternativeType1 d))
    (option_map uppercase (data_alternativeType2 d)).

(** The validators declared in the schema, in the order of the paths;
    the first failure is reported.  Mongoose runs validation before the
    pre-save hooks of the schema, and a failure rejects the save.  NaN and
    the infinities fail the range check of a score. *)
Definition validate (d : ResultData) : completion unit :=
  if negb (0 <? List.length (data_answers d))%nat
  then Throw (ValidationError "At least one answer is required")
  else if negb (scores_in_range (data_scores d))
  then Throw (ValidationError "score out of range")
  else if negb (four_uppercase (data_personalityType d))
  then Throw (ValidationError "Personality type must be 4 uppercase letters")
  else Normal tt.

(** The [pairs] array of the pre-save hook. *)
Definition pairs (s : Scores) : list (number * number) :=
  [ (extrovert s, introvert s);
    (sensory s, intuitive s);
    (thinking s, feeling s);
    (judging s, perceiving s) ].

(** The test of the loop body: [Math.abs(score1 + score2 - 100) > 0.01].
    A comparison with NaN is false. *)
Definition off_balance (p : number * number) : bool :=
  let '(score1, score2) := p in
  js_gt (Math_abs (js_sub (js_add score1 score2) (Num 100))) tolerance.

(** The [for ... of pairs] loop. *)
Fixpoint check_pairs (ps : list (number * number)) : completion unit :=
  match ps with
  | [] => Normal tt
  | p :: rest =>
      if off_balance p
      then Throw (JsError "Complementary scores must add up to 100")
      else check_pairs rest
  end.

(** [ResultSchema.pre('save')]. *)
Definition pre_save (s : Scores) : completion unit := check_pairs (pairs s).

(** Saving a document: validation, then the pre-save hook. *)
Definition save (d : ResultDoc) : completion unit :=
  _ <- validate (fields d) ;;
  pre_save (data_scores (fields d)).

(** [updateMany({ userId, isActive: true }, { $set: { isActive: false } })]. *)
Definition deactivate (uid : nat) (db : list ResultDoc) : list ResultDoc :=
  map (fun d =>
         if (userId d =? uid)%nat && isActive d
         then mkResultDoc (userId d) (assessmentId d) (fields d) false
         else d) db.

(** [this.create(doc)]: the document is stored when [save] returns. *)
Definition create (db : list ResultDoc) (d : ResultDoc)
  : list ResultDoc * completion ResultDoc :=
  match save d with
  | Normal _ => (db ++ [d], Normal d)
  | Throw e => (db, Throw e)
  end.

(** [createNewResult]: the collection after the call and its completion. *)
Definition createNewResult (db : list ResultDoc) (uid aid : nat)
  (resultData : ResultData) : list ResultDoc * completion ResultDoc :=
  let db1 := deactivate uid db in
  create db1 (mkResultDoc uid aid (apply_setters resultData) true).

(** [getActiveResult]: [findOne({ userId, isActive: true })], the first
    match in the order of the collection. *)
Definition getActiveResult (db : list ResultDoc) (uid : nat)
  : option ResultDoc :=
  find (fun d => (userId d =? uid)%nat && isActive d) db.

End Result.

(** ** Questions (src/lib/db/models/Assessment.ts) *)

(** [IOption]: one of the two options of a question. *)
Record IOption : Type := mkOption {
  option_text : string;
  value : string
}.

(** [IQuestion]. *)
Record IQuestion : Type := mkQuestion {
  question_id : string;
  group : string;
  question_text : string;
  options : list IOption
}.

(** The names every object inherits from [Object.prototype]: looked up in
    an object literal they give a function or an object, never
    [undefined]. *)
Definition object_prototype_names : list string :=
  [ "constructor"; "__proto__"; "hasOwnProperty"; "isPrototypeOf";
    "propertyIsEnumerable"; "toLocaleString"; "toString"; "valueOf";
    "__defineGetter__"; "__defineSetter__"; "__lookupGetter__";
    "__lookupSetter__" ].

Definition inherited (name : string) : bool :=
  existsb (String.eqb name) object_prototype_names.

(** [arr.sort()] on strings: ascending in the order of the code units.
    Equal strings cannot be told apart, so the result does not depend on
    the algorithm; insertion is used here. *)
Fixpoint sort_insert (x : string) (sorted : list string) : list string :=
  match sorted with
  | [] => [x]
  | y :: rest =>
      if String.leb x y then x :: y :: rest else y :: sort_insert x rest
  end.

Definition js_sort (arr : list string) : list string :=
  fold_right sort_insert [] arr.

(** [arr.join(sep)]. *)
Definition join_with (sep : string) (arr : list string) : string :=
  String.concat sep arr.

(** The double quote character. *)
Definition dquote : string := String "034"%char EmptyString.

Definition list_string_eqb (a b : list string) : bool :=
  if list_eq_dec string_dec a b then true else false.

(** [QuestionSchema.pre('validate')] and the table it reads. *)
Module QuestionSchema.

(** [groupToValues[name]]: [None] is [undefined]. *)
Definition groupToValues (name : string) : option (list string) :=
  match name with
  | "EI" => Some ["E"; "I"]
  | "SN" => Some ["S"; "N"]
  | "TF" => Some ["T"; "F"]
  | "JP" => Some ["J"; "P"]
  | _ => None
  end.

Definition mismatch (q : IQuestion) (expected actualValues : list string) : exn :=
  JsError ("Question type " ++ dquote ++ group q ++ dquote ++
           " must have option values " ++ join_with " and " expected ++
           ", got " ++ join_with " and " actualValues).

(** The hook.  The two [JSON.stringify] texts of arrays of strings differ
    exactly when the arrays differ.  For an inherited name the lookup
    gives a value without a [sort] method, and the call throws. *)
Definition pre_validate (q : IQuestion) : completion unit :=
  if inherited (group q)
  then Throw (TypeError "sort is not a function")
  else
    let expectedValues := groupToValues (group q) in
    let actualValues := js_sort (map value (options q)) in
    let expected :=
      js_sort (match expectedValues with Some v => v | None => [] end) in
    if negb (list_string_eqb actualValues expected)
    then Throw (mismatch q expected actualValues)
    else Normal tt.

End QuestionSchema.

(** The hook of the earlier version of the model: the table is read
    without the [|| []] guard.  That version calls the options of a
    question [answer]; they are the [options] here. *)
Module QuestionSchemaEarlier.

Definition pre_validate (q : IQuestion) : completion unit :=
  if inherited (group q)
  then Throw (TypeError "sort is not a function")
  else
    match QuestionSchema.groupToValues (group q) with
    | None => Throw (TypeError "Cannot read properties of undefined")
    | Some expectedValues =>
        let actualValues := js_sort (map value (options q)) in
        let expected := js_sort expectedValues in
        if negb (list_string_eqb actualValues expected)
        then Throw (JsError ("Question type " ++ dquote ++ group q ++ dquote ++
                             " must have answer values " ++
                             join_with " and " expected ++
                             ", got " ++ join_with " and " actualValues))
        else Normal tt
    end.

End QuestionSchemaEarlier.

(** [AssessmentSchema.methods.getQuestionCounts], and the same loop in the
    assessment page. *)
Module AssessmentSchema.

(** [counts[q.group]++] on the four counters.  Another name adds a
    property of its own (NaN) and leaves the four as they are. *)
Definition count_question (counts : Z * Z * Z * Z) (q : IQuestion)
  : Z * Z * Z * Z :=
  let '(ei, sn, tf, jp) := counts in
  match group q with
  | "EI" => (ei + 1, sn, tf, jp)
  | "SN" => (ei, sn + 1, tf, jp)
  | "TF" => (ei, sn, tf + 1, jp)
  | "JP" => (ei, sn, tf, jp + 1)
  | _ => counts
  end%Z.

Definition getQuestionCounts (questions : list IQuestion) : QuestionCounts :=
  let '(ei, sn, tf, jp) :=
    fold_left count_question questions (0, 0, 0, 0)%Z in
  mkQuestionCounts (Some ei) (Some sn) (Some tf) (Some jp).

End AssessmentSchema.

(** ** The User model (src/lib/db/models/User.ts, the unified model)

    A [Date] is the number of milliseconds since the epoch; points and
    seconds are JavaScript numbers.  [profilePicture] and the timestamps of the
    schema are left out.  Strings are taken to be ASCII where a setter
    changes case or trims. *)

Module User.

Inductive UserType : Type := guest | registered.

Inductive Role : Type := user | admin.

(** An entry of [pointsHistory]. *)
Record PointsEntry : Type := mkPointsEntry {
  points : number;
  reason : string;
  entry_contentId : option string;
  timestamp : N
}.

(** An entry of [contentProgress]. *)
Record Progress : Type := mkProgress {
  contentId : string;
  contentType : string;
  startedAt : N;
  completedAt : option N;
  timeSpent : number;
  pointsAwarded : bool
}.

Record UserDoc : Type := mkUser {
  _id : nat;
  userType : UserType;
  email : option string;
  password : option string;
  username : option string;
  name : string;
  personalityType : option string;
  role : Role;
  isActive : bool;
  totalPoints : number;
  pointsHistory : list PointsEntry;
  lastLoginDate : option N;
  contentProgress : list Progress;
  convertedToRegisteredAt : option N
}.

(** *** Setters of the schema *)

Definition is_space (c : ascii) : bool :=
  let n := nat_of_ascii c in
  ((9 <=? n)%nat && (n <=? 13)%nat) || (n =? 32)%nat.

Fixpoint trim_start (s : string) : string :=
  match s with
  | String c rest => if is_space c then trim_start rest else s
  | EmptyString => EmptyString
  end.

(** The string without its trailing white space. *)
Fixpoint trim_end (s : string) : string :=
  match s with
  | EmptyString => EmptyString
  | String c rest =>
      match trim_end rest with
      | EmptyString => if is_space c then EmptyString else String c EmptyString
      | kept => String c kept
      end
  end.

(** [trim: true]. *)
Definition trim (s : string) : string := trim_end (trim_start s).

Definition to_lower (c : ascii) : ascii :=
  let n := nat_of_ascii c in
  if (65 <=? n)%nat && (n <=? 90)%nat then ascii_of_nat (n + 32) else c.

(** [lowercase: true]. *)
Definition lowercase (s : string) : string :=
  string_of_list_ascii (map to_lower (list_ascii_of_string s)).

(** The setters of [email] and of [username]. *)
Definition set_lower_trimmed (s : string) : string := trim (lowercase s).

(** Truthiness of a string property that may be missing. *)
Definition present (v : option string) : bool :=
  match v with
  | Some s => truthy s
  | None => false
  end.

(** *** The pre-save hook *)

(** [UserSchema.pre('save')]. *)
Definition pre_save (this : UserDoc) : completion unit :=
  match userType this with
  | registered =>
      if negb (present (email this))
      then Throw (JsError "Registered users must have an email")
      else if negb (present (password this))
      then Throw (JsError "Registered users must have a password")
      else if negb (present (username this))
      then Throw (JsError "Registered users must have a username")
      else Normal tt
  | guest => Normal tt
  end.

(** *** Updates of a document *)

Definition with_points (this : UserDoc) (total : number)
  (history : list PointsEntry) : UserDoc :=
  mkUser (_id this) (userType this) (email this) (password this)
    (username this) (name this) (personalityType this) (role this)
    (isActive this) total history (lastLoginDate this)
    (contentProgress this) (convertedToRegisteredAt this).

Definition with_progress (this : UserDoc) (progress : list Progress)
  : UserDoc :=
  mkUser (_id this) (userType this) (email this) (password this)
    (username this) (name this) (personalityType this) (role this)
    (isActive this) (totalPoints this) (pointsHistory this)
    (lastLoginDate this) progress (convertedToRegisteredAt this).

Definition with_lastLoginDate (this : UserDoc) (date : N) : UserDoc :=
  mkUser (_id this) (userType this) (email this) (password this)
    (username this) (name this) (personalityType this) (role this)
    (isActive this) (totalPoints this) (pointsHistory this)
    (Some date) (contentProgress this) (convertedToRegisteredAt this).

Definition with_registration (this : UserDoc) (mail pass uname : string)
  (date : N) : UserDoc :=
  mkUser (_id this) registered (Some (set_lower_trimmed mail)) (Some pass)
    (Some (set_lower_trimmed uname)) (name this) (personalityType this)
    (role this) (isActive this) (totalPoints this) (pointsHistory this)
    (lastLoginDate this) (contentProgress this) (Some date).

(** [contentProgress.find(cp => cp.contentId === contentId)]. *)
Definition find_progress (this : UserDoc) (id : string) : option Progress :=
  find (fun cp => String.eqb (contentId cp) id) (contentProgress this).

(** The writes to the entry [find] returned: the first entry of the
    content, changed in place. *)
Fixpoint complete_first (progress : list Progress) (id : string)
  (date : N) (spent : number) : list Progress :=
  match progress with
  | [] => []
  | cp :: rest =>
      if String.eqb (contentId cp) id
      then mkProgress (contentId cp) (contentType cp) (startedAt cp)
             (Some date) spent true :: rest
      else cp :: complete_first rest id date spent
  end.

(** *** The methods

    [validate] stands for the validators the schema declares, as Mongoose
    runs them on [save]; the methods are defined for every such function.
    A method returns the document as it is in memory after the call,
    which keeps the writes made before an exception, and its completion.
    Each [new Date()] of a method is an argument, in the order of the
    evaluations.  [start_of_day] is [setHours(0, 0, 0, 0)] in the local
    time zone. *)

Section Methods.

Variable validate : UserDoc -> completion unit.
Variable start_of_day : N -> N.

(** [this.save()]: validation, then the pre-save hook. *)
Definition save (this : UserDoc) : completion UserDoc :=
  _ <- validate this ;;
  _ <- pre_save this ;;
  Normal this.

Definition awardPoints (this : UserDoc) (pts : number) (why : string)
  (content : option string) (now : N) : UserDoc * completion UserDoc :=
  let this1 :=
    with_points this (js_add (totalPoints this) pts)
      (pointsHistory this ++ [mkPointsEntry pts why content now]) in
  (this1, save this1).

Definition startContent (this : UserDoc) (id kind : string) (now : N)
  : UserDoc * completion Progress :=
  match find_progress this id with
  | None =>
      let entry := mkProgress id kind now None (Num 0) false in
      let this1 := with_progress this (contentProgress this ++ [entry]) in
      (this1, _ <- save this1 ;; Normal entry)
  | Some existingProgress => (this, Normal existingProgress)
  end.

Definition completeContent (this : UserDoc) (id : string)
  (spent readPoints : number) (now1 now2 : N) : UserDoc * completion UserDoc :=
  match find_progress this id with
  | None => (this, Throw (JsError "Content not started yet"))
  | Some progress =>
      if negb (pointsAwarded progress)
      then
        let this1 :=
          with_progress this
            (complete_first (contentProgress this) id now1 spent) in
        let '(this2, awarded) :=
          awardPoints this1 readPoints "read_content" (Some id) now2 in
        (this2, _ <- awarded ;; save this2)
      else (this, save this)
  end.

Definition hasReadContent (this : UserDoc) (id : string) : bool :=
  match find_progress this id with
  | Some progress => pointsAwarded progress
  | None => false
  end.

Definition convertToRegistered (this : UserDoc) (mail pass uname : string)
  (registerPoints : number) (now1 now2 : N)
  : UserDoc * completion UserDoc :=
  match userType this with
  | registered => (this, Throw (JsError "User is already registered"))
  | guest =>
      let this1 := with_registration this mail pass uname now1 in
      let '(this2, awarded) :=
        awardPoints this1 registerPoints "registration" None now2 in
      (this2, _ <- awarded ;; save this2)
  end.

Definition awardDailyLogin (this : UserDoc) (dailyLoginPoints : number)
  (now1 now2 now3 : N) : UserDoc * completion bool :=
  let today := start_of_day now1 in
  let lastLogin := option_map start_of_day (lastLoginDate this) in
  let due :=
    match lastLogin with
    | None => true
    | Some l => (l <? today)%N
    end in
  if due
  then
    let this1 := with_lastLoginDate this now2 in
    let '(this2, awarded) :=
      awardPoints this1 dailyLoginPoints "daily_login" None now3 in
    (this2, _ <- awarded ;; Normal true)
  else (this, Normal false).

(** [User.create] for a guest, as the submission route calls it: the
    defaults of the schema, the setters of [name] and [personalityType],
    then [save]; the document joins the collection when [save] returns. *)
Definition new_guest (id : nat) (guestName type : string) : UserDoc :=
  mkUser id guest None None None (trim guestName)
    (Some (Result.uppercase type)) user true (Num 0) [] None [] None.

Definition create (users : list UserDoc) (doc : UserDoc)
  : list UserDoc * completion UserDoc :=
  match save doc with
  | Normal saved => (users ++ [saved], Normal saved)
  | Throw e => (users, Throw e)
  end.

End Methods.

(** A fresh object id: one that no document of the collection has. *)
Definition new_object_id (users : list UserDoc) : nat :=
  S (fold_right Nat.max 0%nat (map _id users)).

End User.

(** ** The submission route (POST /api/assessment/submit) *)

Module SubmitRoute.

(** The [answers] property of the request body. *)
Inductive AnswersField : Type :=
| NoArray                         (* missing, falsy or not an array *)
| AnswerArray (answers : list string).

(** The [assessmentId] property of the request body, as
    [Assessment.findById] takes it: Mongoose casts the value to an
    ObjectId, and the cast throws a CastError on a value that is not
    one. *)
Inductive IdField : Type :=
| NoId                            (* missing or falsy *)
| Malformed (message : string)    (* the cast throws, with this message *)
| ObjectId (id : nat).

(** What the route reads of the parsed body.  The answers are taken to
    be strings. *)
Record Body : Type := mkBody {
  assessmentId : IdField;
  answers : AnswersField;
  questionCounts : option QuestionCounts;
  userName : option string
}.

(** The three collections. *)
Record Db : Type := mkDb {
  assessments : list nat;                (* the ids of the assessments *)
  users : list User.UserDoc;
  results : list Result.ResultDoc
}.

(** The response: its status and, on success, the user id and the type
    (the result id is left out, results carrying no id here); on status
    500 the error that was caught. *)
Inductive Response : Type :=
| Ok (userId : nat) (personalityType : string)
| BadRequest
| NotFound
| ServerError (e : exn).

(** [`Guest_${Date.now()}`]. *)
Definition guest_name (now : N) : string :=
  "Guest_" ++ DecimalString.NilEmpty.string_of_uint (N.to_uint now).

Section Route.

Variable validate_user : User.UserDoc -> completion unit.

(** The body of the [try] block after the body is parsed; an exception
    leaves with the collections as they are at that point. *)
Definition handle (db : Db) (body : Body) (now : N) : Db * Response :=
  match assessmentId body, answers body with
  | NoId, _ | _, NoArray => (db, BadRequest)
  | Malformed message, AnswerArray _ => (db, ServerError (CastError message))
  | ObjectId aid, AnswerArray ans =>
      if negb (existsb (Nat.eqb aid) (assessments db))
      then (db, NotFound)
      else
        match Assessment.calculateResult ans (questionCounts body) with
        | Throw e => (db, ServerError e)
        | Normal calculatedResult =>
            let guestName :=
              match userName body with
              | Some n => if truthy n then n else guest_name now
              | None => guest_name now
              end in
            let '(users1, created) :=
              User.create validate_user (users db)
                (User.new_guest (User.new_object_id (users db)) guestName
                   (personalityType calculatedResult)) in
            match created with
            | Throw e =>
                (mkDb (assessments db) users1 (results db), ServerError e)
            | Normal guestUser =>
                let '(results1, stored) :=
                  Result.createNewResult (results db) (User._id guestUser) aid
                    (Result.mkResultData ans (scores calculatedResult)
                       (personalityType calculatedResult)
                       (alternativeType1 calculatedResult)
                       (alternativeType2 calculatedResult)) in
                let db1 := mkDb (assessments db) users1 results1 in
                match stored with
                | Throw e => (db1, ServerError e)
                | Normal _ =>
                    (db1, Ok (User._id guestUser)
                             (personalityType calculatedResult))
                end
            end
        end
  end.


End Route.

End SubmitRoute.

(** ** The Content model (src/lib/db/models/Content.ts)

    Of a document the fields the hook, [getNavigation] and the word count
    read are kept.  The body is taken to be ASCII text, and a query to
    return documents of equal order in the order of the collection. *)

Module Content.

Inductive ContentType : Type :=
| personality_main
| personality_sub
| general.

Record ContentDoc : Type := mkContent {
  _id : nat;
  title : string;
  slug : string;
  contentType : ContentType;
  body : string;
  personalityId : option string;
  parentId : option nat;
  order : option Z;
  published : bool
}.

(** [ContentSchema.pre('save')].  An order of 0 is an order; an empty
    [personalityId] is none. *)
Definition pre_save (this : ContentDoc) : completion unit :=
  let sub_checks :=
    match contentType this with
    | personality_sub =>
        match parentId this with
        | None => Throw (JsError "Sub-articles must have a parentId")
        | Some _ =>
            match order this with
            | None => Throw (JsError "Sub-articles must have an order")
            | Some _ => Normal tt
            end
        end
    | _ => Normal tt
    end in
  _ <- sub_checks ;;
  match contentType this with
  | general => Normal tt
  | _ =>
      match personalityId this with
      | Some id =>
          if truthy id then Normal tt
          else Throw (JsError "Personality content must have personalityId")
      | None => Throw (JsError "Personality content must have personalityId")
      end
  end.

(** What [.select('_id title slug order')] keeps of a sibling. *)
Record Sibling : Type := mkSibling {
  sibling_id : nat;
  sibling_title : string;
  sibling_slug : string;
  sibling_order : option Z
}.

Definition select (d : ContentDoc) : Sibling :=
  mkSibling (_id d) (title d) (slug d) (order d).

(** The ascending order of [.sort({ order: 1 })]: a missing order comes
    before every number. *)
Definition order_le (a b : option Z) : bool :=
  match a, b with
  | None, _ => true
  | Some _, None => false
  | Some x, Some y => (x <=? y)%Z
  end.

Fixpoint insert_by_order (d : ContentDoc) (sorted : list ContentDoc)
  : list ContentDoc :=
  match sorted with
  | [] => [d]
  | e :: rest =>
      if order_le (order d) (order e) then d :: e :: rest
      else e :: insert_by_order d rest
  end.

(** The sort of the query; documents of equal order keep the order of the
    collection. *)
Definition sort_by_order (docs : list ContentDoc) : list ContentDoc :=
  fold_right insert_by_order [] docs.

(** [Content.find({ parentId, published: true }).sort({ order: 1 })]. *)
Definition find_siblings (db : list ContentDoc) (parent : nat)
  : list ContentDoc :=
  sort_by_order
    (filter (fun d =>
               match parentId d with
               | Some p => (p =? parent)%nat && published d
               | None => false
               end) db).

(** [findIndex]: the index of the first match, -1 without one. *)
Fixpoint findIndex {A : Type} (f : A -> bool) (l : list A) : Z :=
  match l with
  | [] => (-1)%Z
  | x :: rest =>
      if f x then 0%Z
      else let i := findIndex f rest in
           if (i <? 0)%Z then (-1)%Z else (i + 1)%Z
  end.

(** [arr[i]] for an integer index. *)
Definition at_index {A : Type} (l : list A) (i : Z) : option A :=
  if (i <? 0)%Z then None else nth_error l (Z.to_nat i).

Record Navigation : Type := mkNavigation {
  prev : option Sibling;
  next : option Sibling;
  allSiblings : option (list Sibling)     (* absent in the early return *)
}.

(** [getNavigation]. *)
Definition getNavigation (db : list ContentDoc) (this : ContentDoc)
  : Navigation :=
  match contentType this, parentId this with
  | personality_sub, Some parent =>
      let siblings := map select (find_siblings db parent) in
      let currentIndex :=
        findIndex (fun s => (sibling_id s =? _id this)%nat) siblings in
      mkNavigation
        (if (0 <? currentIndex)%Z then at_index siblings (currentIndex - 1)
         else None)
        (if (currentIndex <? Z.of_nat (List.length siblings) - 1)%Z
         then at_index siblings (currentIndex + 1)
         else None)
        (Some siblings)
  | _, _ => mkNavigation None None None
  end.

(** *** The word count *)

Definition is_space (c : ascii) : bool :=
  let n := nat_of_ascii c in
  ((9 <=? n)%nat && (n <=? 13)%nat) || (n =? 32)%nat.

(** Some [>] occurs in the string. *)
Fixpoint has_gt (s : string) : bool :=
  match s with
  | EmptyString => false
  | String c rest => Ascii.eqb c ">" || has_gt rest
  end.

(** [replace(/<[^>]*>/g, '')]: a [<] opens a match when a [>] follows
    somewhere, and the match runs to the first such [>]. *)
Fixpoint strip_tags_from (inside : bool) (s : string) : string :=
  match s with
  | EmptyString => EmptyString
  | String c rest =>
      if inside
      then strip_tags_from (negb (Ascii.eqb c ">")) rest
      else if Ascii.eqb c "<" && has_gt rest
           then strip_tags_from true rest
           else String c (strip_tags_from false rest)
  end.

Definition strip_tags (s : string) : string := strip_tags_from false s.

(** [split(/\s+/)]: the pieces between the runs of white space, the empty
    pieces at the two ends included.  [piece] is the current piece, its
    characters in reverse; [in_run] tells that the last character was
    white space. *)
Fixpoint split_from (piece : list ascii) (in_run : bool) (s : string)
  : list string :=
  match s with
  | EmptyString => [string_of_list_ascii (rev piece)]
  | String c rest =>
      if is_space c
      then if in_run then split_from piece true rest
           else string_of_list_ascii (rev piece) :: split_from [] true rest
      else split_from (c :: piece) false rest
  end.

Definition split_spaces (s : string) : list string := split_from [] false s.

(** The virtual [wordCount]. *)
Definition wordCount (this : ContentDoc) : nat :=
  let text := strip_tags (body this) in
  List.length
    (filter (fun word => (0 <? String.length word)%nat) (split_spaces text)).

End Content.

(** ** The cached connection (src/lib/db/mongodb.ts)

    Calls are taken one after the other: a call runs to its end before
    the next one starts.  A connection is a number; a promise is the
    completion it settles to. *)

Module Mongodb.

Record MongooseCache : Type := mkCache {
  conn : option nat;
  promise : option (completion nat)
}.

(** The outcome of a call: the cache after it, whether
    [mongoose.connect] was called, and the completion. *)
Record Outcome : Type := mkOutcome {
  cache_after : MongooseCache;
  connect_called : bool;
  completion_of : completion nat
}.

Definition uri_error : exn :=
  JsError
    "Please define the MONGODB_URI environment variable inside .env.local".

(** [connectDB].  [MONGODB_URI] is the value of the environment variable,
    [None] when it is not set; [attempt] is what [mongoose.connect]
    settles to if this call makes it. *)
Definition connectDB (MONGODB_URI : option string) (cached : MongooseCache)
  (attempt : completion nat) : Outcome :=
  if negb (match MONGODB_URI with Some u => truthy u | None => false end)
  then mkOutcome cached false (Throw uri_error)
  else
    match conn cached with
    | Some c => mkOutcome cached false (Normal c)
    | None =>
        let '(pending, called) :=
          match promise cached with
          | Some p => (p, false)
          | None => (attempt, true)
          end in
        match pending with
        | Normal c =>
            mkOutcome (mkCache (Some c) (Some pending)) called (Normal c)
        | Throw e =>
            mkOutcome (mkCache (conn cached) None) called (Throw e)
        end
    end.

(** [disconnectDB]; [disconnected] is the completion of
    [cached.conn.disconnect()]. *)
Definition disconnectDB (cached : MongooseCache)
  (disconnected : completion unit) : MongooseCache * completion unit :=
  match conn cached with
  | Some _ =>
      match disconnected with
      | Normal _ => (mkCache None None, Normal tt)
      | Throw e => (cached, Throw e)
      end
  | None => (cached, Normal tt)
  end.

(** The cache of a process that has not connected yet. *)
Definition empty_cache : MongooseCache := mkCache None None.

End Mongodb.

(** * Vocabulary of the properties

    These definitions follow the words of the specification; the
    properties compare them with the embedding above. *)

(** ** Answers and tallies *)

(** The eight trait letters. *)
Definition trait_letters : list string :=
  ["E"; "I"; "S"; "N"; "T"; "F"; "J"; "P"].

(** The number of occurrences of [letter] in [answers]. *)
Definition occurrences (letter : string) (answers : list string) : nat :=
  count_occ string_dec answers letter.

(** The answers with every element that is not a trait letter removed. *)
Definition recognized_only (answers : list string) : list string :=
  filter (fun v => if in_dec string_dec v trait_letters then true else false)
    answers.

(** What one answer [a] adds to the tally of the letter [l]. *)
Definition bump (a l : string) : nat := if string_dec a l then 1 else 0.

Definition every_answer_recognized (answers : list string) : Prop :=
  Forall (fun v => In v trait_letters) answers.

(** ** Dimensions *)

(** The four dimensions, in the order of the [dimensions] table. *)
Inductive dimension : Type := dimEI | dimSN | dimTF | dimJP.

Definition all_dimensions : list dimension := [dimEI; dimSN; dimTF; dimJP].

Definition denominator (q : QuestionCounts) (d : dimension) : option Z :=
  match d with
  | dimEI => EI q
  | dimSN => SN q
  | dimTF => TF q
  | dimJP => JP q
  end.

(** The letters of a dimension: the default one first. *)
Definition first_letter (d : dimension) : string :=
  match d with dimEI => "E" | dimSN => "S" | dimTF => "T" | dimJP => "J" end.

Definition second_letter (d : dimension) : string :=
  match d with dimEI => "I" | dimSN => "N" | dimTF => "F" | dimJP => "P" end.

(** The percentages of the two letters of a dimension. *)
Definition first_score (s : Scores) (d : dimension) : number :=
  match d with
  | dimEI => extrovert s
  | dimSN => sensory s
  | dimTF => thinking s
  | dimJP => judging s
  end.

Definition second_score (s : Scores) (d : dimension) : number :=
  match d with
  | dimEI => introvert s
  | dimSN => intuitive s
  | dimTF => feeling s
  | dimJP => perceiving s
  end.

Definition position (d : dimension) : nat :=
  match d with dimEI => 0 | dimSN => 1 | dimTF => 2 | dimJP => 3 end.

(** ** Results *)

(** The scores [calculateResult] computes, from the occurrences. *)
Definition scores_of (answers : list string) (q : QuestionCounts) : Scores :=
  mkScores
    (percentage (occurrences "E" answers) (ToNumber (EI q)))
    (percentage (occurrences "I" answers) (ToNumber (EI q)))
    (percentage (occurrences "S" answers) (ToNumber (SN q)))
    (percentage (occurrences "N" answers) (ToNumber (SN q)))
    (percentage (occurrences "T" answers) (ToNumber (TF q)))
    (percentage (occurrences "F" answers) (ToNumber (TF q)))
    (percentage (occurrences "J" answers) (ToNumber (JP q)))
    (percentage (occurrences "P" answers) (ToNumber (JP q))).

(** A completion that is a thrown error. *)
Definition fails {A : Type} (c : completion A) : Prop :=
  exists e, c = Throw e.


(** Every entry of [questionCounts] is present and positive. *)
Definition positive_counts (q : QuestionCounts) : Prop :=
  forall d, exists z, denominator q d = Some z /\ (0 < z)%Z.

Definition zero_scores : Scores :=
  mkScores (Num 0) (Num 0) (Num 0) (Num 0) (Num 0) (Num 0) (Num 0) (Num 0).

(** ** Alternative types *)

(** The other letter of the pair a letter belongs to. *)
Definition complement (c : ascii) : ascii :=
  match c with
  | "E" => "I" | "I" => "E"
  | "S" => "N" | "N" => "S"
  | "T" => "F" | "F" => "T"
  | "J" => "P" | "P" => "J"
  | other => other
  end%char.

(** [primary] with the letter at position [i] replaced by its complement. *)
Fixpoint flip_at (i : nat) (primary : string) : string :=
  match primary, i with
  | EmptyString, _ => EmptyString
  | String c rest, O => String (complement c) rest
  | String c rest, S i' => String c (flip_at i' rest)
  end.

(** A dimension is close when its two percentages differ by less than the
    threshold. *)
Definition close (threshold : Q) (s : Scores) (d : dimension) : bool :=
  js_lt (Math_abs (js_sub (first_score s d) (second_score s d)))
        (Num threshold).

(** The close dimensions, in the fixed order. *)
Definition close_dimensions (threshold : Q) (s : Scores) : list dimension :=
  filter (close threshold s) all_dimensions.

(** One alternative per close dimension, for the first two of them: the
    primary type with the letter of that dimension flipped. *)
Definition expected_alternatives (threshold : Q) (s : Scores)
  (primary : string) : list string :=
  map (fun d => flip_at (position d) primary)
      (firstn 2 (close_dimensions threshold s)).

(** The number of positions at which two strings differ (a missing
    character differs from every character). *)
Fixpoint differences (a b : string) : nat :=
  match a, b with
  | EmptyString, EmptyString => 0
  | String x a', String y b' =>
      ((if Ascii.eqb x y then 0 else 1) + differences a' b')%nat
  | String _ a', EmptyString => S (String.length a')
  | EmptyString, String _ b' => S (String.length b')
  end.

Definition trait_letter (c : ascii) : bool :=
  existsb (Ascii.eqb c) ["E"; "I"; "S"; "N"; "T"; "F"; "J"; "P"]%char.

(** A four-letter code over the trait letters one flip away from [primary]. *)
Definition one_flip_from (primary alt : string) : Prop :=
  String.length alt = 4%nat /\
  forallb trait_letter (list_ascii_of_string alt) = true /\
  differences primary alt = 1%nat.

(** Replaces the score tests of a goal by arbitrary booleans and runs
    through their values. *)
Ltac by_flags th s :=
  unfold result_of_scores, getAlternativeTypes_at, expected_alternatives,
    close_dimensions, type_of_scores, dimensions, all_dimensions;
  cbn [filter];
  change (is_close th s (mkDimension ("extrovert", "introvert") ["E"; "I"] 0))
    with (close th s dimEI);
  change (is_close th s (mkDimension ("sensory", "intuitive") ["S"; "N"] 1))
    with (close th s dimSN);
  change (is_close th s (mkDimension ("thinking", "feeling") ["T"; "F"] 2))
    with (close th s dimTF);
  change (is_close th s (mkDimension ("judging", "perceiving") ["J"; "P"] 3))
    with (close th s dimJP);
  generalize (close th s dimEI), (close th s dimSN),
    (close th s dimTF), (close th s dimJP),
    (js_ge (extrovert s) (introvert s)), (js_ge (sensory s) (intuitive s)),
    (js_ge (thinking s) (feeling s)), (js_ge (judging s) (perceiving s));
  intros [] [] [] [] [] [] [] [].

(** The letter of dimension [d] in a type code. *)
Definition letter_of (type : string) (d : dimension) : string :=
  substring (position d) 1 type.

(** ** Rounding *)

(** [z] is the integer nearest to [x], a tie going away from zero. *)
Definition half_away_from_zero (x : Q) (z : Z) : Prop :=
  if Qle_bool 0 x
  then (inject_Z z - (1 # 2) <= x /\ x < inject_Z z + (1 # 2))%Q
  else (inject_Z z - (1 # 2) < x /\ x <= inject_Z z + (1 # 2))%Q.

(** The relative rounding error of binary64, and the absolute one of its
    subnormal range. *)
Definition unit_roundoff : Q := pow2 (-53).
Definition tiny : Q := pow2 (-1075).

(** [count / n * 100], exactly. *)
Definition exact_percent (count : nat) (n : Z) : Q :=
  inject_Z (Z.of_nat count) / inject_Z n * 100.

(** [r] is an integer nearest to [v]: at a tie, either neighbour. *)
Definition nearest_integer (v : Q) (r : Z) : Prop :=
  inject_Z r - (1 # 2) <= v /\ v <= inject_Z r + (1 # 2).



(** The percentage at the ratio [(2 k + 1) / 200], where the exact value
    is [k + 1/2]. *)
Definition tie_percent (k : Z) : number :=
  Math_round (js_mul (binary64 (Qmake (2 * k + 1) 200)) (Num 100)).

(** Of two complementary ties, not both go down. *)
Definition tie_pair_ok (k : Z) : bool :=
  negb (js_eq (tie_percent k) (num_of_Z k) &&
        js_eq (tie_percent (99 - k)) (num_of_Z (99 - k))).

(** An array of JavaScript holds fewer than [2 ^ 32] elements. *)
Definition js_array {A : Type} (arr : list A) : Prop :=
  (Z.of_nat (List.length arr) < 2 ^ 32)%Z.



(** ** Complementary pairs *)

(** The denominator of each dimension is the tally of its two letters. *)
Definition tallies_match (answers : list string) (q : QuestionCounts) : Prop :=
  forall d,
    denominator q d =
      Some (Z.of_nat (occurrences (first_letter d) answers +
                      occurrences (second_letter d) answers)).

(** The question counts the model documents for [getQuestionCounts]:
    [{ EI: 20, SN: 18, TF: 16, JP: 16 }]. *)
Definition documented_counts : QuestionCounts :=
  mkQuestionCounts (Some 20%Z) (Some 18%Z) (Some 16%Z) (Some 16%Z).

(** Seventy answers, one per question of [documented_counts]: two T and
    fourteen F among the sixteen TF questions. *)
Definition lopsided_answers : list string :=
  repeat "E" 20 ++ repeat "S" 18 ++ repeat "T" 2 ++ repeat "F" 14 ++
  repeat "J" 16.

(** The sum of the two percentages of a dimension. *)
Definition pair_sum (s : Scores) (d : dimension) : number :=
  js_add (first_score s d) (second_score s d).

(** The two scores are finite and their sum is within 0.01 of 100. *)
Definition balanced (p : number * number) : Prop :=
  exists x y,
    p = (Num x, Num y) /\
    (- (1 # 100) <= x + y - 100)%Q /\ (x + y - 100 <= 1 # 100)%Q.

(** The [resultData] the submission route builds from a result. *)
Definition resultData_of (answers : list string) (r : ScoringResult)
  : Result.ResultData :=
  Result.mkResultData answers (scores r) (personalityType r)
    (alternativeType1 r) (alternativeType2 r).

Definition sum_error : exn :=
  JsError "Complementary scores must add up to 100".

(** ** Questions and submissions *)

(** The group name of a dimension. *)
Definition group_name (d : dimension) : string :=
  match d with dimEI => "EI" | dimSN => "SN" | dimTF => "TF" | dimJP => "JP" end.

(** The number of questions of a dimension. *)
Definition questions_of (d : dimension) (questions : list IQuestion) : nat :=
  count_occ string_dec (map group questions) (group_name d).

(** The group of every question is one of the four. *)
Definition known_groups (questions : list IQuestion) : Prop :=
  Forall (fun q => exists d, group q = group_name d) questions.

(** The option values of a question are the two letters of dimension [d],
    in either order. *)
Definition offers_pair (q : IQuestion) (d : dimension) : Prop :=
  map value (options q) = [first_letter d; second_letter d] \/
  map value (options q) = [second_letter d; first_letter d].

(** A question the validation hook lets through. *)
Definition accepted (q : IQuestion) : Prop :=
  QuestionSchema.pre_validate q = Normal tt.

(** One answer per question, in the order of the questions, each the value
    of one of the options of its question. *)
Definition answered_from (questions : list IQuestion) (answers : list string)
  : Prop :=
  Forall2 (fun q a => In a (map value (options q))) questions answers.

(** Every question count is present, positive and a divisor of 100. *)
Definition round_counts (q : QuestionCounts) : Prop :=
  forall d, exists n, denominator q d = Some n /\ (0 < n)%Z /\ (n | 100)%Z.

(** The tally of the pair of a dimension. *)
Definition pair_tally (d : dimension) (answers : list string) : nat :=
  (occurrences (first_letter d) answers +
   occurrences (second_letter d) answers)%nat.

(** An integer percentage, from 0 to 100. *)
Definition whole_percent (v : number) (x : Z) : Prop :=
  v = num_of_Z x /\ (0 <= x <= 100)%Z.

(** The document [createNewResult] builds for a result. *)
Definition new_document (uid aid : nat) (answers : list string)
  (r : ScoringResult) : Result.ResultDoc :=
  Result.mkResultDoc uid aid
    (Result.apply_setters (resultData_of answers r)) true.

(** Fifty E and fifty-one I, for an assessment of 101 EI questions. *)
Definition narrow_majority : list string := repeat "E" 50 ++ repeat "I" 51.

(** ** The collection of results *)

(** The active results of a user. *)
Definition active_results (uid : nat) (db : list Result.ResultDoc)
  : list Result.ResultDoc :=
  filter (fun d => (Result.userId d =? uid)%nat && Result.isActive d) db.

(** The results of a user, active or not. *)
Definition results_of (uid : nat) (db : list Result.ResultDoc)
  : list Result.ResultDoc :=
  filter (fun d => (Result.userId d =? uid)%nat) db.

(** A document without its [isActive] flag. *)
Definition content_of (d : Result.ResultDoc) : nat * nat * Result.ResultData :=
  (Result.userId d, Result.assessmentId d, Result.fields d).

(** The collections built from the empty one by calls of
    [createNewResult], failed ones included. *)
Inductive reachable : list Result.ResultDoc -> Prop :=
| reachable_empty : reachable []
| reachable_create (db : list Result.ResultDoc) (uid aid : nat)
    (data : Result.ResultData) :
    reachable db ->
    reachable (fst (Result.createNewResult db uid aid data)).

(** ** Users *)

(** An integer that a JavaScript number holds exactly, its sum with
    others included. *)
Definition safe_integer (k : Z) : Prop := (- 2 ^ 53 <= k <= 2 ^ 53)%Z.

(** The sum of a list of integers. *)
Definition sum_of (hs : list Z) : Z := fold_right Z.add 0%Z hs.

(** The total is an integer, the points of the history are integers, and
    [gap] is what the total holds beyond the sum of the history. *)
Definition ledger (this : User.UserDoc) (gap : Z) : Prop :=
  exists t hs,
    User.totalPoints this = num_of_Z t /\
    map User.points (User.pointsHistory this) = map num_of_Z hs /\
    gap = (t - sum_of hs)%Z.

(** Points that are an integer, and with the total of the document a
    safe integer. *)
Definition safe_award (this : User.UserDoc) (pts : number) : Prop :=
  exists t p,
    User.totalPoints this = num_of_Z t /\ pts = num_of_Z p /\
    safe_integer (t + p).

(** The progress entries of a content. *)
Definition entries_of (id : string) (this : User.UserDoc)
  : list User.Progress :=
  filter (fun cp => String.eqb (User.contentId cp) id)
         (User.contentProgress this).

(** The content has a progress entry. *)
Definition started (this : User.UserDoc) (id : string) : Prop :=
  User.find_progress this id <> None.

(** The local day of the last login is the day of [now], or a later
    one. *)
Definition logged_in_today (start_of_day : N -> N) (this : User.UserDoc)
  (now : N) : Prop :=
  exists last,
    User.lastLoginDate this = Some last /\
    (start_of_day now <= start_of_day last)%N.

(** ** Submissions *)

(** The name the route gives the guest. *)
Definition guest_name_of (body : SubmitRoute.Body) (now : N) : string :=
  match SubmitRoute.userName body with
  | Some n => if truthy n then n else SubmitRoute.guest_name now
  | None => SubmitRoute.guest_name now
  end.

(** The guest document the route creates for a result. *)
Definition guest_of (db : SubmitRoute.Db) (body : SubmitRoute.Body) (now : N)
  (r : ScoringResult) : User.UserDoc :=
  User.new_guest (User.new_object_id (SubmitRoute.users db))
    (guest_name_of body now) (personalityType r).

(** A request that passes the checks of the route: an assessment id of
    the collection, an array of answers, and a [questionCounts] object. *)
Definition well_formed_request (db : SubmitRoute.Db) (body : SubmitRoute.Body)
  (aid : nat) (ans : list string) (q : QuestionCounts) : Prop :=
  SubmitRoute.assessmentId body = SubmitRoute.ObjectId aid /\
  SubmitRoute.answers body = SubmitRoute.AnswerArray ans /\
  SubmitRoute.questionCounts body = Some q /\
  In aid (SubmitRoute.assessments db).

(** ** Articles *)

(** The published sub-articles of a parent, as [getNavigation] lists
    them. *)
Definition siblings_of (db : list Content.ContentDoc) (parent : nat)
  : list Content.Sibling :=
  map Content.select (Content.find_siblings db parent).

(** A published sub-article of [parent]. *)
Definition listed_under (parent : nat) (d : Content.ContentDoc) : Prop :=
  Content.contentType d = Content.personality_sub /\
  Content.parentId d = Some parent /\
  Content.published d = true.

(** No two documents of the collection share an id. *)
Definition unique_ids (db : list Content.ContentDoc) : Prop :=
  NoDup (map Content._id db).

(** The document with another body. *)
Definition with_body (this : Content.ContentDoc) (text : string)
  : Content.ContentDoc :=
  Content.mkContent (Content._id this) (Content.title this)
    (Content.slug this) (Content.contentType this) text
    (Content.personalityId this) (Content.parentId this)
    (Content.order this) (Content.published this).

(** The character does not occur in the string. *)
Fixpoint free_of (c : ascii) (s : string) : Prop :=
  match s with
  | EmptyString => True
  | String x rest => x <> c /\ free_of c rest
  end.

(** The order of a sibling list: ascending, a missing order first. *)
Definition in_order (a b : Content.ContentDoc) : Prop :=
  Content.order_le (Content.order a) (Content.order b) = true.

(** ** Connections *)

(** A cache as sequential calls leave it: empty, or holding a connection
    together with the promise that settled to it. *)
Definition settled (cached : Mongodb.MongooseCache) : Prop :=
  cached = Mongodb.empty_cache \/
  exists c, cached = Mongodb.mkCache (Some c) (Some (Normal c)).

(** The environment variable holds a non-empty value. *)
Definition uri_set (MONGODB_URI : option string) : Prop :=
  exists u, MONGODB_URI = Some u /\ u <> "".

(** ** Sample data *)

(** A question of a group with its two option values. *)
Definition sample_question (g a b : string) : IQuestion :=
  mkQuestion "q" g "text" [mkOption "first" a; mkOption "second" b].

(** One question of each group, the options of the second in reverse. *)
Definition sample_questions : list IQuestion :=
  [ sample_question "EI" "E" "I"; sample_question "SN" "N" "S";
    sample_question "TF" "T" "F"; sample_question "JP" "J" "P" ].

Definition sample_answers : list string := ["I"; "N"; "T"; "P"].

(** The question counts of [sample_questions]. *)
Definition unit_counts : QuestionCounts :=
  mkQuestionCounts (Some 1%Z) (Some 1%Z) (Some 1%Z) (Some 1%Z).

(** Question counts without the EI count. *)
Definition counts_without_EI : QuestionCounts :=
  mkQuestionCounts None (Some 1%Z) (Some 1%Z) (Some 1%Z).

(** A store with one assessment, and a submission for it. *)
Definition sample_db : SubmitRoute.Db := SubmitRoute.mkDb [7%nat] [] [].

Definition sample_body (answers : list string) : SubmitRoute.Body :=
  SubmitRoute.mkBody (SubmitRoute.ObjectId 7) (SubmitRoute.AnswerArray answers)
    (Some unit_counts) None.

(** Validators that accept every user. *)
Definition accept_all (u : User.UserDoc) : completion unit := Normal tt.

(** A main article and three sub-articles of it, the last one not
    published. *)
Definition sample_article (id : nat) (kind : Content.ContentType)
  (parent : option nat) (position : option Z) (visible : bool)
  : Content.ContentDoc :=
  Content.mkContent id "title" "slug" kind "<p>body</p>" (Some "INFJ")
    parent position visible.

Definition sample_contents : list Content.ContentDoc :=
  [ sample_article 1 Content.personality_main None None true;
    sample_article 2 Content.personality_sub (Some 1%nat) (Some 2%Z) true;
    sample_article 3 Content.personality_sub (Some 1%nat) (Some 1%Z) true;
    sample_article 4 Content.personality_sub (Some 1%nat) (Some 3%Z) false ].

(** The error of a connection that is refused. *)
Definition refused : exn := JsError "connect ECONNREFUSED".

(** ** Tactics *)

Ltac tuple_eq :=
  repeat match goal with |- (_, _) = (_, _) => f_equal end; lia.


(** * Properties *)

(** ** Binary64 rounding *)

Section Binary64Facts.

Local Open Scope Q_scope.

Lemma pow2_pos (e : Z) : 0 < pow2 e.
Proof. apply Qpower_0_lt. reflexivity. Qed.

Lemma pow2_add (a b : Z) : pow2 (a + b) == pow2 a * pow2 b.
Proof. apply Qpower_plus. discriminate. Qed.

Lemma pow2_sub (a b : Z) : pow2 (a - b) == pow2 a / pow2 b.
Proof. apply Qpower_minus. discriminate. Qed.

Lemma pow2_le (a b : Z) : (a <= b)%Z -> pow2 a <= pow2 b.
Proof. intros H. apply Qpower_le_compat_l; [exact H | discriminate]. Qed.

Lemma pow2_lt (a b : Z) : (a < b)%Z -> pow2 a < pow2 b.
Proof. intros H. apply Qpower_lt_compat_l; [exact H | reflexivity]. Qed.

Lemma pow2_lt_inv (a b : Z) : pow2 a < pow2 b -> (a < b)%Z.
Proof. intros H. apply (Qpower_lt_compat_l_inv 2); [exact H | reflexivity]. Qed.

Lemma pow2_Z (a : Z) : (0 <= a)%Z -> pow2 a == inject_Z (2 ^ a).
Proof. intros H. unfold pow2. now rewrite Zpower_Qpower. Qed.

Lemma pow2_succ (a : Z) : pow2 (a + 1) == 2 * pow2 a.
Proof. rewrite pow2_add. change (pow2 1) with 2. ring. Qed.

(** [ilog2] brackets its argument. *)
Lemma ilog2_spec (x : Q) :
  0 < x -> pow2 (ilog2 x) <= x /\ x < pow2 (ilog2 x + 1).
Proof.
  intros Hx. destruct x as [n d]. unfold ilog2. cbn [Qnum Qden].
  assert (Hn : (0 < n)%Z).
  { unfold Qlt in Hx. simpl in Hx. lia. }
  set (a := Z.log2 n). set (b := Z.log2 (Z.pos d)).
  pose proof (Z.log2_spec n Hn) as [Ha1 Ha2]. fold a in Ha1, Ha2.
  pose proof (Z.log2_spec (Z.pos d) ltac:(lia)) as [Hb1 Hb2].
  fold b in Hb1, Hb2.
  assert (Ha0 : (0 <= a)%Z) by apply Z.log2_nonneg.
  assert (Hb0 : (0 <= b)%Z) by apply Z.log2_nonneg.
  assert (Hx' : (n # d) * inject_Z (Z.pos d) == inject_Z n).
  { unfold Qeq, Qmult, inject_Z. simpl. lia. }
  assert (Hd : 0 < inject_Z (Z.pos d)) by (unfold Qlt; simpl; lia).
  (* bounds in Q *)
  assert (Qa1 : pow2 a <= inject_Z n).
  { rewrite pow2_Z by assumption. now rewrite <- Zle_Qle. }
  assert (Qa2 : inject_Z n < pow2 (a + 1)).
  { rewrite pow2_Z by lia. rewrite <- Zlt_Qlt. now rewrite <- Z.add_1_r in Ha2. }
  assert (Qb1 : pow2 b <= inject_Z (Z.pos d)).
  { rewrite pow2_Z by assumption. now rewrite <- Zle_Qle. }
  assert (Qb2 : inject_Z (Z.pos d) < pow2 (b + 1)).
  { rewrite pow2_Z by lia. rewrite <- Zlt_Qlt. now rewrite <- Z.add_1_r in Hb2. }
  pose proof (pow2_pos a) as Pa. pose proof (pow2_pos b) as Pb.
  pose proof (pow2_pos (a - b)) as Pab.
  pose proof (pow2_add (a - b) b) as E1.
  replace (a - b + b)%Z with a in E1 by lia.
  pose proof (pow2_succ a) as Sa. pose proof (pow2_succ b) as Sb.
  pose proof (pow2_succ (a - b)) as Sab.
  pose proof (pow2_succ (a - b - 1)) as Sab'.
  replace (a - b - 1 + 1)%Z with (a - b)%Z in Sab' by lia.
  pose proof (pow2_pos (a - b - 1)) as Pab'.
  set (x := n # d) in *.
  set (D := inject_Z (Z.pos d)) in *. set (N := inject_Z n) in *.
  (* upper: x < pow2 (a - b + 1) *)
  assert (Hup : x < pow2 (a - b + 1)).
  { rewrite Sab. 
    apply Qnot_le_lt. intros Hc.
    assert (2 * pow2 (a - b) * pow2 b <= x * D).
    { apply Qmult_le_compat_nonneg; (split; [| lra]); try lra. }
    lra. }
  assert (Hlo : pow2 (a - b - 1) < x).
  { apply Qnot_le_lt. intros Hc.
    assert (H1 : x * D < x * pow2 (b + 1)) by (apply Qmult_lt_l; lra).
    assert (H2 : x * pow2 (b + 1) <= pow2 (a - b - 1) * pow2 (b + 1))
      by (apply Qmult_le_compat_r; lra).
    rewrite Sb in H1, H2.
    assert (H3 : pow2 (a - b - 1) * (2 * pow2 b) == pow2 a)
      by (rewrite E1, Sab'; ring).
    lra. }
  destruct (Qle_bool (pow2 (a - b)) x) eqn:Hc.
  - apply Qle_bool_iff in Hc. split; assumption.
  - assert (Hlt : x < pow2 (a - b)).
    { apply Qnot_le_lt. intros Hle. apply Qle_bool_iff in Hle. congruence. }
    replace (a - b - 1 + 1)%Z with (a - b)%Z by lia. split; lra.
Qed.

Lemma ilog2_unique (x : Q) (e : Z) :
  0 < x -> pow2 e <= x -> x < pow2 (e + 1) -> ilog2 x = e.
Proof.
  intros Hx Hlo Hhi. destruct (ilog2_spec x Hx) as [Slo Shi].
  assert (H1 : (ilog2 x < e + 1)%Z) by (apply pow2_lt_inv; lra).
  assert (H2 : (e < ilog2 x + 1)%Z) by (apply pow2_lt_inv; lra).
  lia.
Qed.

Lemma ilog2_comp (x y : Q) : 0 < x -> x == y -> ilog2 x = ilog2 y.
Proof.
  intros Hx Heq. assert (Hy : 0 < y) by lra.
  destruct (ilog2_spec y Hy) as [Slo Shi].
  apply ilog2_unique; lra.
Qed.

Lemma ilog2_mono (x y : Q) : 0 < x -> x <= y -> (ilog2 x <= ilog2 y)%Z.
Proof.
  intros Hx Hle. assert (Hy : 0 < y) by lra.
  destruct (ilog2_spec x Hx) as [Xlo Xhi], (ilog2_spec y Hy) as [Ylo Yhi].
  assert (H : (ilog2 x < ilog2 y + 1)%Z) by (apply pow2_lt_inv; lra).
  lia.
Qed.

(** *** Rounding to the nearest integer *)

Lemma round_half_even_near (y : Q) :
  inject_Z (round_half_even y) - (1 # 2) <= y /\
  y <= inject_Z (round_half_even y) + (1 # 2).
Proof.
  unfold round_half_even.
  pose proof (Qfloor_le y) as Hlo. pose proof (Qlt_floor y) as Hhi.
  rewrite inject_Z_plus in Hhi. change (inject_Z 1) with 1 in Hhi.
  destruct (y - inject_Z (Qfloor y) ?= 1 # 2) eqn:Hc;
    [apply Qeq_alt in Hc | apply Qlt_alt in Hc | apply Qgt_alt in Hc].
  - destruct (Z.even (Qfloor y)).
    + split; lra.
    + rewrite inject_Z_plus. change (inject_Z 1) with 1. split; lra.
  - split; lra.
  - rewrite inject_Z_plus. change (inject_Z 1) with 1. split; lra.
Qed.

Lemma round_half_even_comp (x y : Q) :
  x == y -> round_half_even x = round_half_even y.
Proof.
  intros Heq. unfold round_half_even.
  rewrite (Qfloor_comp x y Heq).
  assert (Hc : (x - inject_Z (Qfloor y) ?= 1 # 2) =
               (y - inject_Z (Qfloor y) ?= 1 # 2)).
  { apply Qcompare_comp; [now rewrite Heq | reflexivity]. }
  now rewrite Hc.
Qed.

Lemma round_half_even_Z (k : Z) : round_half_even (inject_Z k) = k.
Proof.
  unfold round_half_even. rewrite Qfloor_Z.
  assert (Hc : (inject_Z k - inject_Z k ?= 1 # 2) = Lt).
  { apply (proj1 (Qlt_alt _ _)).
    assert (Hz : inject_Z k - inject_Z k == 0) by ring.
    rewrite Hz. reflexivity. }
  now rewrite Hc.
Qed.

Lemma round_half_even_mono (x y : Q) :
  x <= y -> (round_half_even x <= round_half_even y)%Z.
Proof.
  intros Hle.
  destruct (Z_le_gt_dec (round_half_even x) (round_half_even y)) as [H | H];
    [exact H | exfalso].
  pose proof (round_half_even_near x) as [X1 X2].
  pose proof (round_half_even_near y) as [Y1 Y2].
  assert (Hz : (round_half_even y + 1 <= round_half_even x)%Z) by lia.
  rewrite Zle_Qle, inject_Z_plus in Hz. change (inject_Z 1) with 1 in Hz.
  assert (Heq : x == y) by (apply Qle_antisym; lra).
  rewrite (round_half_even_comp x y Heq) in H. lia.
Qed.

(** *** Rounding a magnitude *)

Lemma ulp_pos (x : Q) : 0 < ulp x.
Proof. apply pow2_pos. Qed.

Lemma ulp_comp (x y : Q) : 0 < x -> x == y -> ulp x = ulp y.
Proof.
  intros Hx Heq. unfold ulp, exponent. now rewrite (ilog2_comp x y Hx Heq).
Qed.

Lemma round_magnitude_comp (x y : Q) :
  0 < x -> x == y -> round_magnitude x == round_magnitude y.
Proof.
  intros Hx Heq. unfold round_magnitude.
  rewrite (ulp_comp x y Hx Heq).
  rewrite (round_half_even_comp (x / ulp y) (y / ulp y)); [reflexivity |].
  now rewrite Heq.
Qed.

(** The rounded magnitude is within half a unit. *)
Lemma round_magnitude_near (x : Q) :
  round_magnitude x - ulp x * (1 # 2) <= x /\
  x <= round_magnitude x + ulp x * (1 # 2).
Proof.
  unfold round_magnitude. pose proof (ulp_pos x) as Hu.
  pose proof (round_half_even_near (x / ulp x)) as [H1 H2].
  set (m := inject_Z (round_half_even (x / ulp x))) in *.
  assert (Hx : x == x / ulp x * ulp x) by (field; lra).
  set (t := x / ulp x) in *.
  assert (G1 : (m - (1 # 2)) * ulp x <= t * ulp x)
    by (apply Qmult_le_compat_r; lra).
  assert (G2 : t * ulp x <= (m + (1 # 2)) * ulp x)
    by (apply Qmult_le_compat_r; lra).
  split; lra.
Qed.

(** A multiple of the unit is left as it is. *)
Lemma round_magnitude_exact (x : Q) (k : Z) :
  x == inject_Z k * ulp x -> round_magnitude x == x.
Proof.
  intros Hk. unfold round_magnitude. pose proof (ulp_pos x) as Hu.
  assert (Ht : x / ulp x == inject_Z k).
  { rewrite Hk at 1. field. lra. }
  rewrite (round_half_even_comp _ _ Ht), round_half_even_Z. now symmetry.
Qed.

Lemma ulp_exponent (x : Q) : ulp x = pow2 (exponent x - 52).
Proof. reflexivity. Qed.

Lemma pow2_53_ulp (x : Q) :
  inject_Z (2 ^ 53) * ulp x == pow2 (exponent x + 1).
Proof.
  rewrite ulp_exponent, <- pow2_Z by lia. rewrite <- pow2_add.
  now replace (53 + (exponent x - 52))%Z with (exponent x + 1)%Z by lia.
Qed.

Lemma pow2_52_ulp (x : Q) :
  inject_Z (2 ^ 52) * ulp x == pow2 (exponent x).
Proof.
  rewrite ulp_exponent, <- pow2_Z by lia. rewrite <- pow2_add.
  now replace (52 + (exponent x - 52))%Z with (exponent x) by lia.
Qed.

Lemma below_next_binade (x : Q) : 0 < x -> x < pow2 (exponent x + 1).
Proof.
  intros Hx. destruct (ilog2_spec x Hx) as [_ Hhi].
  assert (pow2 (ilog2 x + 1) <= pow2 (exponent x + 1))
    by (apply pow2_le; unfold exponent; lia).
  lra.
Qed.

Lemma round_magnitude_upper (x : Q) :
  0 < x -> round_magnitude x <= pow2 (exponent x + 1).
Proof.
  intros Hx. pose proof (below_next_binade x Hx) as Hb.
  pose proof (ulp_pos x) as Hu.
  rewrite <- pow2_53_ulp in Hb |- *. unfold round_magnitude.
  apply Qmult_le_compat_r; [| lra].
  rewrite <- Zle_Qle.
  rewrite <- (round_half_even_Z (2 ^ 53)).
  apply round_half_even_mono.
  apply Qle_shift_div_r; lra.
Qed.

Lemma round_magnitude_lower (x : Q) :
  0 < x -> pow2 (exponent x) <= x -> pow2 (exponent x) <= round_magnitude x.
Proof.
  intros Hx Hb. pose proof (ulp_pos x) as Hu.
  rewrite <- pow2_52_ulp in Hb |- *. unfold round_magnitude.
  apply Qmult_le_compat_r; [| lra].
  rewrite <- Zle_Qle.
  rewrite <- (round_half_even_Z (2 ^ 52)) at 1.
  apply round_half_even_mono.
  apply Qle_shift_div_l; lra.
Qed.

Lemma round_magnitude_nonneg (x : Q) : 0 < x -> 0 <= round_magnitude x.
Proof.
  intros Hx. unfold round_magnitude. pose proof (ulp_pos x) as Hu.
  apply Qmult_le_0_compat; [| lra].
  change 0 with (inject_Z 0). rewrite <- Zle_Qle.
  rewrite <- (round_half_even_Z 0) at 1. apply round_half_even_mono.
  apply Qle_shift_div_l; [lra |]. change (inject_Z 0) with 0. lra.
Qed.

Lemma round_magnitude_mono (x y : Q) :
  0 < x -> x <= y -> round_magnitude x <= round_magnitude y.
Proof.
  intros Hx Hle. assert (Hy : 0 < y) by lra.
  pose proof (ilog2_mono x y Hx Hle) as He.
  destruct (Z.eq_dec (exponent x) (exponent y)) as [Heq | Hne].
  - assert (Hu : ulp x = ulp y) by (now rewrite !ulp_exponent, Heq).
    unfold round_magnitude. rewrite Hu. pose proof (ulp_pos y) as Hp.
    apply Qmult_le_compat_r; [| lra].
    rewrite <- Zle_Qle. apply round_half_even_mono.
    apply Qmult_le_compat_r; [exact Hle |].
    apply Qinv_le_0_compat. lra.
  - assert (Hlt : (exponent x < exponent y)%Z) by (unfold exponent in *; lia).
    assert (Hey : exponent y = ilog2 y) by (unfold exponent in *; lia).
    pose proof (round_magnitude_upper x Hx) as Hup.
    assert (Hlo : pow2 (exponent y) <= round_magnitude y).
    { apply round_magnitude_lower; [exact Hy |].
      rewrite Hey. apply (ilog2_spec y Hy). }
    assert (pow2 (exponent x + 1) <= pow2 (exponent y))
      by (apply pow2_le; lia).
    lra.
Qed.

(** *** binary64 *)

Lemma Qle_bool_comp (a b c d : Q) :
  a == b -> c == d -> Qle_bool a c = Qle_bool b d.
Proof.
  intros H1 H2.
  destruct (Qle_bool a c) eqn:Ha, (Qle_bool b d) eqn:Hb; try reflexivity.
  - apply Qle_bool_iff in Ha. rewrite H1, H2 in Ha.
    apply Qle_bool_iff in Ha. congruence.
  - apply Qle_bool_iff in Hb. rewrite <- H1, <- H2 in Hb.
    apply Qle_bool_iff in Hb. congruence.
Qed.

Lemma binary64_comp (x y : Q) : x == y -> binary64 x = binary64 y.
Proof.
  intros Heq. unfold binary64.
  rewrite (Qcompare_comp x y Heq 0 0 (Qeq_refl 0)).
  destruct (y ?= 0) eqn:Hc; [reflexivity | |].
  - apply Qlt_alt in Hc.
    assert (Hr : round_magnitude (- x) == round_magnitude (- y)).
    { apply round_magnitude_comp; lra. }
    rewrite (Qle_bool_comp _ _ _ _ (Qeq_refl _) Hr).
    destruct (Qle_bool _ _); [reflexivity |].
    f_equal. apply Qred_complete. now rewrite Hr.
  - apply Qgt_alt in Hc.
    assert (Hr : round_magnitude x == round_magnitude y).
    { apply round_magnitude_comp; lra. }
    rewrite (Qle_bool_comp _ _ _ _ (Qeq_refl _) Hr).
    destruct (Qle_bool _ _); [reflexivity |].
    f_equal. now apply Qred_complete.
Qed.

(** The shape of a rounded value. *)
Lemma binary64_positive (x : Q) :
  0 < x ->
  (binary64 x = PInf /\ pow2 1024 <= round_magnitude x) \/
  (binary64 x = Num (Qred (round_magnitude x)) /\
   round_magnitude x < pow2 1024).
Proof.
  intros Hx. unfold binary64.
  rewrite (proj1 (Qgt_alt x 0) Hx).
  destruct (Qle_bool (pow2 1024) (round_magnitude x)) eqn:Ho.
  - left. split; [reflexivity | now apply Qle_bool_iff].
  - right. split; [reflexivity |].
    apply Qnot_le_lt. intros H. apply Qle_bool_iff in H. congruence.
Qed.

Lemma binary64_negative (x : Q) :
  x < 0 ->
  (binary64 x = NInf /\ pow2 1024 <= round_magnitude (- x)) \/
  (binary64 x = Num (Qred (- round_magnitude (- x))) /\
   round_magnitude (- x) < pow2 1024).
Proof.
  intros Hx. unfold binary64.
  rewrite (proj1 (Qlt_alt x 0) Hx).
  destruct (Qle_bool (pow2 1024) (round_magnitude (- x))) eqn:Ho.
  - left. split; [reflexivity | now apply Qle_bool_iff].
  - right. split; [reflexivity |].
    apply Qnot_le_lt. intros H. apply Qle_bool_iff in H. congruence.
Qed.

Lemma binary64_zero (x : Q) : x == 0 -> binary64 x = Num 0.
Proof.
  intros Hx. unfold binary64. now rewrite (proj1 (Qeq_alt x 0) Hx).
Qed.

Lemma js_le_Num (x y : Q) : js_le (Num x) (Num y) = true <-> x <= y.
Proof.
  unfold js_le, js_ge, js_compare.
  destruct (y ?= x) eqn:Hc;
    [apply Qeq_alt in Hc | apply Qlt_alt in Hc | apply Qgt_alt in Hc];
    split; intros H; try reflexivity; try discriminate; lra.
Qed.

(** Rounding keeps the order. *)
Lemma binary64_mono (x y : Q) :
  x <= y -> js_le (binary64 x) (binary64 y) = true.
Proof.
  intros Hle.
  destruct (Q_dec x 0) as [[Hx | Hx] | Hx], (Q_dec y 0) as [[Hy | Hy] | Hy];
    try (exfalso; lra).
  - (* both negative *)
    pose proof (round_magnitude_mono (- y) (- x) ltac:(lra) ltac:(lra)) as Hm.
    destruct (binary64_negative x Hx) as [[-> Ox] | [-> Fx]],
             (binary64_negative y Hy) as [[-> Oy] | [-> Fy]];
      try reflexivity; try (exfalso; lra).
    apply js_le_Num. rewrite !Qred_correct. lra.
  - (* negative, positive *)
    pose proof (round_magnitude_nonneg (- x) ltac:(lra)) as Nx.
    pose proof (round_magnitude_nonneg y Hy) as Ny.
    destruct (binary64_negative x Hx) as [[-> Ox] | [-> Fx]],
             (binary64_positive y Hy) as [[-> Oy] | [-> Fy]];
      try reflexivity.
    apply js_le_Num. rewrite !Qred_correct. lra.
  - (* negative, zero *)
    pose proof (round_magnitude_nonneg (- x) ltac:(lra)) as Nx.
    rewrite (binary64_zero y Hy).
    destruct (binary64_negative x Hx) as [[-> Ox] | [-> Fx]];
      try reflexivity.
    apply js_le_Num. rewrite !Qred_correct. lra.
  - (* both positive *)
    pose proof (round_magnitude_mono x y Hx Hle) as Hm.
    destruct (binary64_positive x Hx) as [[-> Ox] | [-> Fx]],
             (binary64_positive y Hy) as [[-> Oy] | [-> Fy]];
      try reflexivity; try (exfalso; lra).
    apply js_le_Num. rewrite !Qred_correct. lra.
  - (* zero, positive *)
    pose proof (round_magnitude_nonneg y Hy) as Ny.
    rewrite (binary64_zero x Hx).
    destruct (binary64_positive y Hy) as [[-> Oy] | [-> Fy]];
      try reflexivity.
    apply js_le_Num. rewrite !Qred_correct. lra.
  - rewrite (binary64_zero x Hx), (binary64_zero y Hy). reflexivity.
Qed.

Lemma Qopp_opp_eq (x : Q) : - - x = x.
Proof. destruct x as [n d]. unfold Qopp. simpl. now rewrite Z.opp_involutive. Qed.

(** Rounding is symmetric. *)
Lemma binary64_opp (x : Q) : binary64 (- x) = js_neg (binary64 x).
Proof.
  destruct (Q_dec x 0) as [[Hx | Hx] | Hx].
  - assert (Hn : 0 < - x) by lra.
    destruct (binary64_negative x Hx) as [[Hb Ho] | [Hb Hf]];
      destruct (binary64_positive (- x) Hn) as [[Hb' Ho'] | [Hb' Hf']];
      try (exfalso; lra); rewrite Hb, Hb'; [reflexivity |].
    cbn [js_neg]. now rewrite Qred_opp, Qopp_opp_eq.
  - assert (Hn : - x < 0) by lra.
    destruct (binary64_positive x Hx) as [[Hb Ho] | [Hb Hf]];
      destruct (binary64_negative (- x) Hn) as [[Hb' Ho'] | [Hb' Hf']];
      rewrite ?Qopp_opp_eq in *;
      try (exfalso; lra); rewrite Hb, Hb'; [reflexivity |].
    cbn [js_neg]. now rewrite Qred_opp.
  - rewrite (binary64_zero x Hx), (binary64_zero (- x)) by lra. reflexivity.
Qed.

Lemma half_ulp_bound (x : Q) :
  0 < x -> ulp x * (1 # 2) <= x * unit_roundoff + tiny.
Proof.
  intros Hx. rewrite ulp_exponent.
  assert (Hh : pow2 (exponent x - 52) * (1 # 2) == pow2 (exponent x - 53)).
  { replace (exponent x - 52)%Z with (exponent x - 53 + 1)%Z by lia.
    rewrite pow2_succ. field. }
  rewrite Hh. destruct (ilog2_spec x Hx) as [Hlo _].
  pose proof (pow2_pos (-53)) as Hu. pose proof (pow2_pos (-1075)) as Ht.
  unfold unit_roundoff, tiny.
  destruct (Z_le_gt_dec (-1022) (ilog2 x)) as [Hn | Hs].
  - assert (He : exponent x = ilog2 x) by (unfold exponent; lia).
    rewrite He.
    replace (ilog2 x - 53)%Z with (ilog2 x + -53)%Z by lia.
    rewrite pow2_add.
    assert (pow2 (ilog2 x) * pow2 (-53) <= x * pow2 (-53))
      by (apply Qmult_le_compat_r; lra).
    lra.
  - assert (He : exponent x = (-1022)%Z) by (unfold exponent; lia).
    rewrite He. change (-1022 - 53)%Z with (-1075)%Z.
    assert (0 <= x * pow2 (-53)) by (apply Qmult_le_0_compat; lra).
    lra.
Qed.

Lemma binary64_near (x : Q) :
  0 <= x -> x < pow2 1023 ->
  exists r,
    binary64 x = Num r /\ 0 <= r /\
    r - x <= x * unit_roundoff + tiny /\
    x - r <= x * unit_roundoff + tiny.
Proof.
  intros H0 Hb. pose proof (pow2_pos (-53)) as Hu.
  pose proof (pow2_pos (-1075)) as Ht.
  destruct (Qle_lt_or_eq _ _ H0) as [Hx | Hx].
  - destruct (ilog2_spec x Hx) as [Hlo _].
    assert (He : (exponent x + 1 <= 1023)%Z).
    { assert (ilog2 x < 1023)%Z by (apply pow2_lt_inv; lra).
      unfold exponent. lia. }
    pose proof (round_magnitude_upper x Hx) as Hup.
    pose proof (pow2_le _ _ He) as Hp.
    pose proof (pow2_lt 1023 1024 ltac:(lia)) as Hq.
    destruct (binary64_positive x Hx) as [[_ Ho] | [Hr _]];
      [exfalso; lra |].
    exists (Qred (round_magnitude x)). split; [exact Hr |].
    rewrite Qred_correct.
    pose proof (round_magnitude_near x) as [N1 N2].
    pose proof (half_ulp_bound x Hx) as Hh.
    pose proof (round_magnitude_nonneg x Hx) as Hn.
    repeat split; lra.
  - exists 0. rewrite (binary64_zero x) by lra.
    split; [reflexivity |].
    assert (x * unit_roundoff == 0) by (rewrite <- Hx; ring).
    unfold tiny. repeat split; lra.
Qed.

Lemma Qred_inject_Z (k : Z) : Qred (inject_Z k) = inject_Z k.
Proof.
  unfold Qred, inject_Z.
  pose proof (Z.ggcd_gcd k 1) as Hg.
  pose proof (Z.ggcd_correct_divisors k 1) as Hd.
  destruct (Z.ggcd k 1) as [g [aa bb]]. simpl in Hg, Hd.
  rewrite Z.gcd_1_r in Hg. subst g. destruct Hd as [Ha Hb].
  replace aa with k by lia. replace bb with 1%Z by lia. reflexivity.
Qed.

(** Integers up to [2 ^ 53] in magnitude are left as they are. *)
Lemma binary64_positive_Z (k : Z) :
  (0 < k <= 2 ^ 53)%Z -> binary64 (inject_Z k) = Num (inject_Z k).
Proof.
  intros [Hk Hm].
  assert (Hx : 0 < inject_Z k) by (change 0 with (inject_Z 0); now rewrite <- Zlt_Qlt).
  destruct (ilog2_spec _ Hx) as [Hlo Hhi].
  set (e := ilog2 (inject_Z k)) in *.
  assert (He0 : (0 <= e)%Z).
  { assert (0 < e + 1)%Z; [| lia]. apply pow2_lt_inv.
    change (pow2 0) with 1.
    assert (1 <= inject_Z k)
      by (change 1 with (inject_Z 1); rewrite <- Zle_Qle; lia).
    lra. }
  assert (He1 : (e <= 53)%Z).
  { assert (e < 54)%Z; [| lia]. apply pow2_lt_inv.
    assert (inject_Z k <= pow2 53).
    { rewrite pow2_Z by lia. now rewrite <- Zle_Qle. }
    assert (pow2 53 < pow2 54) by (apply pow2_lt; lia).
    lra. }
  assert (Hex : exponent (inject_Z k) = e) by (unfold exponent; fold e; lia).
  assert (Hm' :
    exists m, inject_Z k == inject_Z m * ulp (inject_Z k)).
  { rewrite ulp_exponent, Hex.
    destruct (Z.eq_dec e 53) as [-> | Hne].
    - exists (2 ^ 52)%Z.
      assert (Hk53 : k = (2 ^ 53)%Z).
      { rewrite pow2_Z in Hlo by lia. rewrite <- Zle_Qle in Hlo. lia. }
      rewrite Hk53. reflexivity.
    - exists (k * 2 ^ (52 - e))%Z.
      rewrite inject_Z_mult, <- pow2_Z by lia.
      rewrite <- Qmult_assoc, <- pow2_add.
      replace (52 - e + (e - 52))%Z with 0%Z by lia.
      change (pow2 0) with 1. ring. }
  destruct Hm' as [m Hm'].
  pose proof (round_magnitude_exact _ _ Hm') as Hr.
  destruct (binary64_positive _ Hx) as [[_ Ho] | [Hb _]].
  - exfalso. rewrite Hr in Ho.
    assert (inject_Z k <= pow2 53).
    { rewrite pow2_Z by lia. now rewrite <- Zle_Qle. }
    assert (pow2 53 < pow2 1024) by (apply pow2_lt; lia).
    lra.
  - rewrite Hb. f_equal.
    rewrite (Qred_complete _ _ Hr).
    apply Qred_inject_Z.
Qed.

Lemma binary64_Z (k : Z) :
  (- 2 ^ 53 <= k <= 2 ^ 53)%Z -> binary64 (inject_Z k) = Num (inject_Z k).
Proof.
  intros Hk. destruct (Z.compare_spec k 0) as [-> | Hn | Hp].
  - reflexivity.
  - replace k with (- - k)%Z by lia.
    rewrite (inject_Z_opp (- k)), binary64_opp.
    rewrite binary64_positive_Z by lia. cbn [js_neg].
    now rewrite <- inject_Z_opp.
  - apply binary64_positive_Z. lia.
Qed.

(** *** Percentages *)

Lemma unit_roundoff_value : unit_roundoff == 1 # 9007199254740992.
Proof. reflexivity. Qed.

Lemma tiny_small : 0 < tiny /\ tiny <= 1 # 1267650600228229401496703205376.
Proof. split; [apply pow2_pos | unfold Qle; vm_compute; discriminate]. Qed.

(** [Qfloor] of an injected value, through the order of [Z]. *)
Lemma Qfloor_bounds (y : Q) :
  inject_Z (Qfloor y) <= y /\ y < inject_Z (Qfloor y) + 1.
Proof.
  split; [apply Qfloor_le |].
  pose proof (Qlt_floor y) as H. rewrite inject_Z_plus in H. exact H.
Qed.

Lemma Qmult_le_mono_l (x a b : Q) : 0 <= x -> a <= b -> x * a <= x * b.
Proof.
  intros Hx Hab. rewrite (Qmult_comm x a), (Qmult_comm x b).
  now apply Qmult_le_compat_r.
Qed.

(** The product [(count / a) * 100] in binary64, for a positive
    denominator: its distance from the exact value, scaled by [a]. *)
Lemma scaled_ratio_near (c a : Z) :
  (0 <= c < 2 ^ 32)%Z -> (0 < a)%Z ->
  exists p,
    js_mul (js_div (num_of_Z c) (num_of_Z a)) (Num 100) = Num p /\
    0 <= p /\
    ((a <= 2 ^ 64)%Z ->
     p * inject_Z a - 100 * inject_Z c < 1 # 2 /\
     100 * inject_Z c - p * inject_Z a < 1 # 2) /\
    ((2 ^ 64 < a)%Z -> p < 1 # 2).
Proof.
  intros [Hc0 Hc1] Ha. unfold num_of_Z, js_div.
  assert (HA : 0 < inject_Z a)
    by (change 0 with (inject_Z 0); now rewrite <- Zlt_Qlt).
  assert (HC0 : 0 <= inject_Z c)
    by (change 0 with (inject_Z 0); now rewrite <- Zle_Qle).
  assert (HC1 : inject_Z c < 4294967296).
  { change 4294967296 with (inject_Z (2 ^ 32)). now rewrite <- Zlt_Qlt. }
  rewrite (proj1 (Qgt_alt (inject_Z a) 0) HA).
  set (C := inject_Z c) in *. set (A := inject_Z a) in *.
  set (x := C / A).
  assert (HxA : x * A == C) by (unfold x; field; lra).
  assert (Hx0 : 0 <= x).
  { unfold x. apply Qle_shift_div_l; lra. }
  assert (HA1 : 1 <= A).
  { unfold A. change 1 with (inject_Z 1). rewrite <- Zle_Qle. lia. }
  assert (HxC : x <= C).
  { assert (x * 1 <= x * A) by (apply Qmult_le_mono_l; lra).
    lra. }
  pose proof unit_roundoff_value as Hu. pose proof tiny_small as [Ht0 Ht1].
  assert (P1023 : 1099511627776 < pow2 1023).
  { change 1099511627776 with (pow2 40). apply pow2_lt. lia. }
  destruct (binary64_near x Hx0 ltac:(lra)) as [q [Hq [Hq0 [Hq1 Hq2]]]].
  rewrite Hq. cbn [js_mul].
  rewrite Hu in Hq1, Hq2.
  assert (Hq100 : 0 <= q * 100) by lra.
  destruct (binary64_near (q * 100) Hq100 ltac:(lra))
    as [p [Hp [Hp0 [Hp1 Hp2]]]].
  rewrite Hu in Hp1, Hp2.
  exists p. split; [exact Hp |]. split; [exact Hp0 |]. split.
  - intros Hsmall.
    assert (HA2 : A <= 18446744073709551616).
    { unfold A. change 18446744073709551616 with (inject_Z (2 ^ 64)).
      now rewrite <- Zle_Qle. }
    assert (Hd1 : (p - 100 * x) * A <=
                  (x * (201 # 9007199254740992) + 102 * tiny) * A)
      by (apply Qmult_le_compat_r; lra).
    assert (Hd2 : (100 * x - p) * A <=
                  (x * (201 # 9007199254740992) + 102 * tiny) * A)
      by (apply Qmult_le_compat_r; lra).
    assert (HtA : tiny * A <= (1 # 1267650600228229401496703205376)
                              * 18446744073709551616).
    { apply Qmult_le_compat_nonneg; split; lra. }
    split; nra.
  - intros Hbig.
    assert (HA2 : 18446744073709551616 < A).
    { unfold A. change 18446744073709551616 with (inject_Z (2 ^ 64)).
      now rewrite <- Zlt_Qlt. }
    assert (x * 18446744073709551616 <= x * A)
      by (apply Qmult_le_mono_l; lra).
    lra.
Qed.

Lemma js_mul_neg_100 (z : number) :
  js_mul (js_neg z) (Num 100) = js_neg (js_mul z (Num 100)).
Proof.
  destruct z as [q | | |]; try reflexivity.
  cbn [js_neg js_mul].
  rewrite <- binary64_opp. apply binary64_comp. ring.
Qed.

Lemma js_div_neg (C A : Q) :
  0 < A -> js_div (Num C) (Num (- A)) = js_neg (js_div (Num C) (Num A)).
Proof.
  intros HA. unfold js_div.
  rewrite (proj1 (Qgt_alt A 0) HA).
  rewrite (proj1 (Qlt_alt (- A) 0)) by lra.
  rewrite <- binary64_opp. apply binary64_comp. field. lra.
Qed.

Lemma floor_half_nearest (p : Q) (w a : Z) :
  (0 < a)%Z ->
  p * inject_Z a - inject_Z w < 1 # 2 ->
  inject_Z w - p * inject_Z a < 1 # 2 ->
  nearest_integer (inject_Z w / inject_Z a) (Qfloor (p + (1 # 2))).
Proof.
  intros Ha H1 H2.
  assert (HA : 0 < inject_Z a)
    by (change 0 with (inject_Z 0); now rewrite <- Zlt_Qlt).
  destruct (Qfloor_bounds (p + (1 # 2))) as [F1 F2].
  set (r := Qfloor (p + (1 # 2))) in *.
  set (A := inject_Z a) in *. set (W := inject_Z w) in *.
  set (R := inject_Z r) in *.
  assert (G1 : R * A <= (p + (1 # 2)) * A)
    by (apply Qmult_le_compat_r; lra).
  assert (G2 : (p + (1 # 2)) * A < (R + 1) * A)
    by (apply Qmult_lt_compat_r; lra).
  (* to integers *)
  assert (Z1 : (2 * r * a < 2 * w + 1 + a)%Z).
  { rewrite Zlt_Qlt, !inject_Z_plus, !inject_Z_mult.
    fold A W R. change (inject_Z 2) with 2. change (inject_Z 1) with 1.
    lra. }
  assert (Z2 : (2 * w - 1 - a < 2 * r * a)%Z).
  { rewrite Zlt_Qlt. unfold Z.sub.
    rewrite !inject_Z_plus, !inject_Z_opp, !inject_Z_mult.
    fold A W R. change (inject_Z 2) with 2. change (inject_Z 1) with 1.
    lra. }
  assert (Z3 : (2 * r * a - a <= 2 * w)%Z) by lia.
  assert (Z4 : (2 * w <= 2 * r * a + a)%Z) by lia.
  rewrite Zle_Qle in Z3, Z4. unfold Z.sub in Z3.
  rewrite inject_Z_plus, inject_Z_opp, !inject_Z_mult in Z3.
  rewrite inject_Z_plus, !inject_Z_mult in Z4.
  fold A W R in Z3, Z4. change (inject_Z 2) with 2 in Z3, Z4.
  unfold nearest_integer. fold R.
  split.
  - apply Qle_shift_div_l; [exact HA | lra].
  - apply Qle_shift_div_r; [exact HA | lra].
Qed.

Lemma Qfloor_unit (y : Q) : 0 <= y -> y < 1 -> Qfloor y = 0%Z.
Proof.
  intros H0 H1. destruct (Qfloor_bounds y) as [F1 F2].
  assert (Z1 : (Qfloor y < 1)%Z).
  { rewrite Zlt_Qlt. change (inject_Z 1) with 1. lra. }
  assert (Z2 : (-1 < Qfloor y)%Z).
  { rewrite Zlt_Qlt. change (inject_Z (-1)) with (-1). lra. }
  lia.
Qed.

(** A percentage is an integer nearest to the exact value. *)
Lemma percentage_nearest (count : nat) (n : Z) :
  (Z.of_nat count < 2 ^ 32)%Z -> n <> 0%Z ->
  exists r,
    percentage count (num_of_Z n) = num_of_Z r /\
    nearest_integer (exact_percent count n) r.
Proof.
  intros Hc Hn. unfold percentage, num_of_nat, exact_percent.
  set (c := Z.of_nat count) in *.
  assert (Hc0 : (0 <= c)%Z) by (unfold c; lia).
  assert (HC0 : 0 <= inject_Z c)
    by (change 0 with (inject_Z 0); now rewrite <- Zle_Qle).
  assert (HC1 : inject_Z c < 4294967296).
  { change 4294967296 with (inject_Z (2 ^ 32)). now rewrite <- Zlt_Qlt. }
  assert (Hsplit : (0 < n)%Z \/ (n < 0)%Z) by lia.
  destruct Hsplit as [Hpos | Hneg].
  - destruct (scaled_ratio_near c n (conj Hc0 Hc) Hpos)
      as [p [Hp [Hp0 [Hsmall Hbig]]]].
    rewrite Hp. cbn [Math_round].
    exists (Qfloor (p + (1 # 2))). split; [reflexivity |].
    assert (HA : 0 < inject_Z n)
      by (change 0 with (inject_Z 0); now rewrite <- Zlt_Qlt).
    destruct (Z_le_gt_dec n (2 ^ 64)) as [Hs | Hb].
    + destruct (Hsmall Hs) as [H1 H2].
      assert (Hv : inject_Z c / inject_Z n * 100 ==
                   inject_Z (100 * c) / inject_Z n).
      { rewrite inject_Z_mult. change (inject_Z 100) with 100. field. lra. }
      unfold nearest_integer. rewrite Hv.
      apply floor_half_nearest; [exact Hpos | |];
        rewrite inject_Z_mult; change (inject_Z 100) with 100; lra.
    + specialize (Hbig ltac:(lia)).
      rewrite (Qfloor_unit (p + (1 # 2))) by lra.
      assert (HA2 : 18446744073709551616 < inject_Z n).
      { change 18446744073709551616 with (inject_Z (2 ^ 64)).
        rewrite <- Zlt_Qlt. lia. }
      unfold nearest_integer. change (inject_Z 0) with 0.
      set (v := inject_Z c / inject_Z n * 100).
      assert (Hv : v * inject_Z n == 100 * inject_Z c)
        by (unfold v; field; lra).
      assert (Hv0 : 0 <= v).
      { unfold v. apply Qmult_le_0_compat; [| lra].
        apply Qle_shift_div_l; lra. }
      assert (Hv1 : v * 18446744073709551616 <= v * inject_Z n)
        by (apply Qmult_le_mono_l; lra).
      split; lra.
  - assert (Hpos : (0 < - n)%Z) by lia.
    destruct (scaled_ratio_near c (- n) (conj Hc0 Hc) Hpos)
      as [p [Hp [Hp0 [Hsmall Hbig]]]].
    assert (HA : 0 < inject_Z (- n))
      by (change 0 with (inject_Z 0); now rewrite <- Zlt_Qlt).
    unfold num_of_Z in *.
    replace (inject_Z n) with (- inject_Z (- n))
      by (rewrite inject_Z_opp; apply Qopp_opp_eq).
    rewrite js_div_neg by exact HA.
    rewrite js_mul_neg_100, Hp. cbn [js_neg Math_round].
    exists (Qfloor (- p + (1 # 2))). split; [reflexivity |].
    set (A := inject_Z (- n)) in *.
    destruct (Z_le_gt_dec (- n) (2 ^ 64)) as [Hs | Hb].
    + destruct (Hsmall Hs) as [H1 H2].
      assert (Hv : inject_Z c / - A * 100 ==
                   inject_Z (- (100 * c)) / A).
      { rewrite inject_Z_opp, inject_Z_mult.
        change (inject_Z 100) with 100. field. lra. }
      unfold nearest_integer. rewrite Hv.
      apply floor_half_nearest; [exact Hpos | |];
        fold A; rewrite inject_Z_opp, inject_Z_mult;
        change (inject_Z 100) with 100; lra.
    + specialize (Hbig ltac:(lia)).
      rewrite (Qfloor_unit (- p + (1 # 2))) by lra.
      assert (HA2 : 18446744073709551616 < A).
      { unfold A. change 18446744073709551616 with (inject_Z (2 ^ 64)).
        rewrite <- Zlt_Qlt. lia. }
      unfold nearest_integer. change (inject_Z 0) with 0.
      set (v := inject_Z c / A * 100).
      assert (Hv : v * A == 100 * inject_Z c)
        by (unfold v; field; lra).
      assert (Hv0 : 0 <= v).
      { unfold v. apply Qmult_le_0_compat; [| lra].
        apply Qle_shift_div_l; lra. }
      assert (Hv1 : v * 18446744073709551616 <= v * A)
        by (apply Qmult_le_mono_l; lra).
      assert (Hvn : inject_Z c / - A * 100 == - v)
        by (unfold v; field; lra).
      rewrite Hvn. split; lra.
Qed.

(** *** Ties *)

Lemma tie_table :
  forallb tie_pair_ok (map Z.of_nat (seq 0 100)) = true.
Proof. vm_compute. reflexivity. Qed.

Lemma tie_pair (k : Z) :
  (0 <= k <= 99)%Z ->
  tie_percent k = num_of_Z k ->
  tie_percent (99 - k) = num_of_Z (99 - k) -> False.
Proof.
  intros Hk H1 H2.
  pose proof tie_table as Ht. rewrite forallb_forall in Ht.
  assert (Hin : In k (map Z.of_nat (seq 0 100))).
  { apply in_map_iff. exists (Z.to_nat k). split; [lia |].
    apply in_seq. lia. }
  specialize (Ht k Hin). unfold tie_pair_ok in Ht.
  rewrite H1, H2 in Ht.
  unfold js_eq, num_of_Z in Ht. cbn [js_compare] in Ht.
  rewrite !(proj1 (Qeq_alt _ _)) in Ht by reflexivity.
  discriminate Ht.
Qed.

Lemma percentage_at_tie (count : nat) (n k : Z) :
  (0 < n)%Z ->
  (200 * Z.of_nat count = (2 * k + 1) * n)%Z ->
  percentage count (num_of_Z n) = tie_percent k.
Proof.
  intros Hn Heq. unfold percentage, tie_percent, num_of_nat, num_of_Z, js_div.
  assert (HA : 0 < inject_Z n)
    by (change 0 with (inject_Z 0); now rewrite <- Zlt_Qlt).
  rewrite (proj1 (Qgt_alt _ _) HA).
  f_equal. f_equal. apply binary64_comp.
  assert (E : inject_Z (Z.of_nat count) * 200 ==
              inject_Z (2 * k + 1) * inject_Z n).
  { change 200 with (inject_Z 200). rewrite <- !inject_Z_mult.
    now replace (Z.of_nat count * 200)%Z with ((2 * k + 1) * n)%Z by lia. }
  rewrite (Qmake_Qdiv (2 * k + 1) 200).
  change (inject_Z (Z.pos 200)) with 200.
  setoid_replace (inject_Z (Z.of_nat count) / inject_Z n)
    with (inject_Z (Z.of_nat count) * 200 / (inject_Z n * 200))
    by (field; lra).
  rewrite E. field. lra.
Qed.

(** With a positive denominator that is the sum of the two tallies, the
    two percentages are integers from 0 to 100 whose sum is 100 or 101. *)
Lemma matched_pair_sum (a b : nat) :
  (0 < a + b)%nat -> (Z.of_nat (a + b) < 2 ^ 32)%Z ->
  exists x y,
    percentage a (num_of_nat (a + b)) = num_of_Z x /\
    percentage b (num_of_nat (a + b)) = num_of_Z y /\
    (0 <= x <= 100)%Z /\ (0 <= y <= 100)%Z /\
    ((x + y = 100)%Z \/ (x + y = 101)%Z).
Proof.
  intros Hpos Hlim.
  set (n := Z.of_nat (a + b)) in *.
  assert (Hn : (0 < n)%Z) by (unfold n; lia).
  destruct (percentage_nearest a n ltac:(unfold n in *; lia) ltac:(lia))
    as [x [Hx [X1 X2]]].
  destruct (percentage_nearest b n ltac:(unfold n in *; lia) ltac:(lia))
    as [y [Hy [Y1 Y2]]].
  exists x, y. unfold num_of_nat. fold n.
  split; [exact Hx |]. split; [exact Hy |].
  unfold exact_percent in *.
  assert (HA : 0 < inject_Z n)
    by (change 0 with (inject_Z 0); now rewrite <- Zlt_Qlt).
  set (A := inject_Z n) in *.
  set (va := inject_Z (Z.of_nat a) / A * 100) in *.
  set (vb := inject_Z (Z.of_nat b) / A * 100) in *.
  assert (Hsum : va + vb == 100).
  { unfold va, vb.
    assert (HAab : A == inject_Z (Z.of_nat a) + inject_Z (Z.of_nat b)).
    { unfold A, n. rewrite Nat2Z.inj_add, inject_Z_plus. reflexivity. }
    rewrite HAab at 1 2. field. rewrite <- HAab. lra. }
  assert (Ha0 : 0 <= va).
  { unfold va. apply Qmult_le_0_compat; [| lra].
    apply Qle_shift_div_l; [exact HA |].
    rewrite Qmult_0_l. change 0 with (inject_Z 0). rewrite <- Zle_Qle. lia. }
  assert (Hb0 : 0 <= vb).
  { unfold vb. apply Qmult_le_0_compat; [| lra].
    apply Qle_shift_div_l; [exact HA |].
    rewrite Qmult_0_l. change 0 with (inject_Z 0). rewrite <- Zle_Qle. lia. }
  (* integer bounds *)
  assert (Zx0 : (-1 < x)%Z).
  { rewrite Zlt_Qlt. change (inject_Z (-1)) with (-1). lra. }
  assert (Zx1 : (x < 101)%Z).
  { rewrite Zlt_Qlt. change (inject_Z 101) with 101. lra. }
  assert (Zy0 : (-1 < y)%Z).
  { rewrite Zlt_Qlt. change (inject_Z (-1)) with (-1). lra. }
  assert (Zy1 : (y < 101)%Z).
  { rewrite Zlt_Qlt. change (inject_Z 101) with 101. lra. }
  assert (Zs0 : (98 < x + y)%Z).
  { rewrite Zlt_Qlt, inject_Z_plus. change (inject_Z 98) with 98. lra. }
  assert (Zs1 : (x + y < 102)%Z).
  { rewrite Zlt_Qlt, inject_Z_plus. change (inject_Z 102) with 102. lra. }
  split; [lia |]. split; [lia |].
  destruct (Z.eq_dec (x + y) 99) as [H99 | Hne]; [exfalso | lia].
  (* both at a tie, and both went down *)
  assert (Q99 : inject_Z x + inject_Z y == 99).
  { rewrite <- inject_Z_plus, H99. reflexivity. }
  assert (Ea : va == inject_Z x + (1 # 2)) by (apply Qle_antisym; lra).
  assert (Eb : vb == inject_Z y + (1 # 2)) by (apply Qle_antisym; lra).
  assert (Ta : (200 * Z.of_nat a = (2 * x + 1) * n)%Z).
  { apply inject_Z_injective.
    rewrite !inject_Z_mult, inject_Z_plus, inject_Z_mult. fold A.
    change (inject_Z 200) with 200. change (inject_Z 2) with 2.
    change (inject_Z 1) with 1.
    assert (va * A == 100 * inject_Z (Z.of_nat a))
      by (unfold va; field; lra).
    rewrite Ea in H. lra. }
  assert (Tb : (200 * Z.of_nat b = (2 * y + 1) * n)%Z).
  { apply inject_Z_injective.
    rewrite !inject_Z_mult, inject_Z_plus, inject_Z_mult. fold A.
    change (inject_Z 200) with 200. change (inject_Z 2) with 2.
    change (inject_Z 1) with 1.
    assert (vb * A == 100 * inject_Z (Z.of_nat b))
      by (unfold vb; field; lra).
    rewrite Eb in H. lra. }
  rewrite (percentage_at_tie a n x Hn Ta) in Hx.
  rewrite (percentage_at_tie b n y Hn Tb) in Hy.
  replace y with (99 - x)%Z in Hy by lia.
  exact (tie_pair x ltac:(lia) Hx Hy).
Qed.

(** *** Order *)

Lemma binary64_cases (x : Q) :
  (exists r, binary64 x = Num r) \/ binary64 x = PInf \/ binary64 x = NInf.
Proof.
  destruct (Q_dec x 0) as [[Hx | Hx] | Hx].
  - destruct (binary64_negative x Hx) as [[-> _] | [-> _]]; eauto.
  - destruct (binary64_positive x Hx) as [[-> _] | [-> _]]; eauto.
  - rewrite (binary64_zero x Hx). eauto.
Qed.

Lemma js_le_NInf (b : number) : b <> NaN -> js_le NInf b = true.
Proof. destruct b; try reflexivity. congruence. Qed.

Lemma js_le_PInf (a : number) : a <> NaN -> js_le a PInf = true.
Proof. destruct a; try reflexivity. congruence. Qed.

Lemma binary64_not_NaN (x : Q) : binary64 x <> NaN.
Proof.
  destruct (binary64_cases x) as [[r ->] | [-> | ->]]; discriminate.
Qed.

Lemma js_le_mul_100 (z z' : number) :
  js_le z z' = true ->
  js_le (js_mul z (Num 100)) (js_mul z' (Num 100)) = true.
Proof.
  destruct z as [q | | |], z' as [q' | | |]; try discriminate; intros H;
    cbn [js_mul]; try reflexivity.
  - apply binary64_mono. apply js_le_Num in H. lra.
  - apply js_le_PInf, binary64_not_NaN.
  - apply js_le_NInf, binary64_not_NaN.
Qed.

Lemma js_le_round (z z' : number) :
  js_le z z' = true -> js_le (Math_round z) (Math_round z') = true.
Proof.
  destruct z as [q | | |], z' as [q' | | |]; try discriminate; intros H;
    cbn [Math_round]; try reflexivity.
  apply js_le_Num in H. unfold num_of_Z. apply js_le_Num.
  rewrite <- Zle_Qle. apply Qfloor_resp_le. lra.
Qed.

(** More occurrences never give a lower percentage. *)
Lemma percentage_monotone (a b : nat) (n : Z) :
  (0 < n)%Z -> (a <= b)%nat ->
  js_le (percentage a (num_of_Z n)) (percentage b (num_of_Z n)) = true.
Proof.
  intros Hn Hab. unfold percentage.
  apply js_le_round, js_le_mul_100.
  unfold num_of_nat, num_of_Z, js_div.
  assert (HA : 0 < inject_Z n)
    by (change 0 with (inject_Z 0); now rewrite <- Zlt_Qlt).
  rewrite (proj1 (Qgt_alt _ _) HA).
  apply binary64_mono.
  apply Qmult_le_compat_r.
  - rewrite <- Zle_Qle. lia.
  - apply Qinv_le_0_compat. lra.
Qed.

Lemma nearest_integer_Z (k r : Z) :
  nearest_integer (inject_Z k) r -> r = k.
Proof.
  intros [H1 H2].
  assert (Z1 : (r - 1 < k)%Z).
  { rewrite Zlt_Qlt. unfold Z.sub. rewrite inject_Z_plus.
    change (inject_Z (- (1))) with (-1). lra. }
  assert (Z2 : (k < r + 1)%Z).
  { rewrite Zlt_Qlt, inject_Z_plus. change (inject_Z 1) with 1. lra. }
  lia.
Qed.

(** Where the exact value is an integer, it is the percentage. *)
Lemma percentage_exact (count : nat) (n k : Z) :
  (Z.of_nat count < 2 ^ 32)%Z -> n <> 0%Z ->
  (100 * Z.of_nat count = k * n)%Z ->
  percentage count (num_of_Z n) = num_of_Z k.
Proof.
  intros Hc Hn Hk.
  destruct (percentage_nearest count n Hc Hn) as [r [Hr Hnear]].
  rewrite Hr. f_equal. apply nearest_integer_Z.
  unfold nearest_integer in *.
  assert (Hv : exact_percent count n == inject_Z k).
  { unfold exact_percent.
    assert (HN : ~ inject_Z n == 0).
    { change 0 with (inject_Z 0). rewrite inject_Z_injective. exact Hn. }
    assert (E : 100 * inject_Z (Z.of_nat count) == inject_Z k * inject_Z n).
    { change 100 with (inject_Z 100). rewrite <- !inject_Z_mult.
      now rewrite Hk. }
    setoid_replace (inject_Z (Z.of_nat count) / inject_Z n * 100)
      with (100 * inject_Z (Z.of_nat count) / inject_Z n)
      by (field; exact HN).
    rewrite E. field. exact HN. }
  rewrite <- Hv. exact Hnear.
Qed.

Lemma percentage_of_none (z : Z) :
  z <> 0%Z -> percentage 0 (num_of_Z z) = num_of_Z 0.
Proof.
  intros Hz. apply percentage_exact; [reflexivity | exact Hz | lia].
Qed.

(** Sums of integers within the safe range are exact. *)
Lemma js_add_whole (a b : Z) :
  (- 2 ^ 53 <= a + b <= 2 ^ 53)%Z ->
  js_add (num_of_Z a) (num_of_Z b) = num_of_Z (a + b).
Proof.
  intros H. unfold num_of_Z. cbn [js_add].
  rewrite <- inject_Z_plus. now apply binary64_Z.
Qed.

End Binary64Facts.

(** ** The tallies *)

Lemma in_counts_iff (value : string) :
  in_counts value = true <-> In value trait_letters.
Proof.
  unfold in_counts, trait_letters. rewrite existsb_exists. split.
  - intros [l [Hin Heq]]. apply String.eqb_eq in Heq. now subst.
  - intros Hin. exists value. split; [assumption | apply String.eqb_refl].
Qed.

Lemma in_counts_false (value : string) :
  in_counts value = false -> ~ In value trait_letters.
Proof.
  intros Hf Hin. apply in_counts_iff in Hin. congruence.
Qed.

Lemma tally_step_counts (c : Counts) (a : string) :
  count_E (tally_step c a) = (count_E c + bump a "E")%nat /\
  count_I (tally_step c a) = (count_I c + bump a "I")%nat /\
  count_S (tally_step c a) = (count_S c + bump a "S")%nat /\
  count_N (tally_step c a) = (count_N c + bump a "N")%nat /\
  count_T (tally_step c a) = (count_T c + bump a "T")%nat /\
  count_F (tally_step c a) = (count_F c + bump a "F")%nat /\
  count_J (tally_step c a) = (count_J c + bump a "J")%nat /\
  count_P (tally_step c a) = (count_P c + bump a "P")%nat.
Proof.
  unfold tally_step. destruct (in_counts a) eqn:Hin.
  - apply in_counts_iff in Hin. destruct c. unfold trait_letters in Hin.
    simpl in Hin.
    repeat (destruct Hin as [Hin | Hin];
            [subst a; cbn; repeat split; lia | ]).
    contradiction.
  - apply in_counts_false in Hin. unfold bump.
    repeat split;
      match goal with
      | |- context [string_dec a ?l] =>
          destruct (string_dec a l) as [-> | _];
          [exfalso; apply Hin; simpl; tauto | lia]
      end.
Qed.

Lemma fold_tally_counts (answers : list string) (c : Counts) :
  let c' := fold_left tally_step answers c in
  count_E c' = (count_E c + occurrences "E" answers)%nat /\
  count_I c' = (count_I c + occurrences "I" answers)%nat /\
  count_S c' = (count_S c + occurrences "S" answers)%nat /\
  count_N c' = (count_N c + occurrences "N" answers)%nat /\
  count_T c' = (count_T c + occurrences "T" answers)%nat /\
  count_F c' = (count_F c + occurrences "F" answers)%nat /\
  count_J c' = (count_J c + occurrences "J" answers)%nat /\
  count_P c' = (count_P c + occurrences "P" answers)%nat.
Proof.
  revert c. induction answers as [| a rest IH]; intros c; cbn zeta.
  - unfold occurrences. simpl. repeat split; lia.
  - simpl fold_left.
    specialize (IH (tally_step c a)). cbn zeta in IH.
    pose proof (tally_step_counts c a) as Hs.
    unfold occurrences in *. unfold bump in Hs. simpl count_occ.
    repeat match goal with
           | |- context [string_dec a ?l] => destruct (string_dec a l)
           end;
      repeat match goal with
             | H : _ /\ _ |- _ => destruct H
             end;
      repeat split; lia.
Qed.

(** The loop of [calculateResult] counts each trait letter. *)
Lemma tally_occurrences (answers : list string) :
  tally answers =
    mkCounts (occurrences "E" answers) (occurrences "I" answers)
             (occurrences "S" answers) (occurrences "N" answers)
             (occurrences "T" answers) (occurrences "F" answers)
             (occurrences "J" answers) (occurrences "P" answers).
Proof.
  unfold tally.
  pose proof (fold_tally_counts answers initial_counts) as H. cbn zeta in H.
  destruct (fold_left tally_step answers initial_counts).
  simpl in H.
  repeat match goal with
         | H : _ /\ _ |- _ => destruct H
         end.
  f_equal; assumption.
Qed.

Lemma occurrences_recognized (l : string) (answers : list string) :
  In l trait_letters ->
  occurrences l (recognized_only answers) = occurrences l answers.
Proof.
  intros Hl. unfold occurrences, recognized_only.
  induction answers as [| a rest IH]; [reflexivity |].
  cbn [filter]. destruct (in_dec string_dec a trait_letters) as [Hin | Hout].
  - cbn [count_occ]. destruct (string_dec a l); congruence.
  - cbn [count_occ].
    destruct (string_dec a l) as [-> | _]; [contradiction | exact IH].
Qed.

Lemma tally_recognized (answers : list string) :
  tally (recognized_only answers) = tally answers.
Proof.
  rewrite !tally_occurrences.
  rewrite !occurrences_recognized by (simpl; tauto).
  reflexivity.
Qed.

(** ** Percentages *)

Lemma Qcompare_inject_Z (a b : Z) :
  (inject_Z a ?= inject_Z b)%Q = (a ?= b)%Z.
Proof.
  unfold Qcompare. simpl. now rewrite !Z.mul_1_r.
Qed.

Lemma Qcompare_inject_Z_0 (a : Z) : (inject_Z a ?= 0)%Q = (a ?= 0)%Z.
Proof. exact (Qcompare_inject_Z a 0). Qed.


Lemma js_div_by_zero (count : nat) :
  js_div (num_of_nat count) (num_of_Z 0) =
    match count with O => NaN | S _ => PInf end.
Proof.
  unfold num_of_nat, num_of_Z, js_div.
  rewrite Qcompare_inject_Z_0. cbn [Z.compare].
  unfold scale_inf. rewrite Qcompare_inject_Z_0.
  destruct count; reflexivity.
Qed.

Lemma percentage_zero_denominator (count : nat) :
  percentage count (num_of_Z 0) =
    match count with O => NaN | S _ => PInf end.
Proof.
  unfold percentage. rewrite js_div_by_zero. destruct count; reflexivity.
Qed.

(** ** The result of calculateResult *)

Lemma calculateResult_returns (answers : list string) (q : QuestionCounts) :
  Assessment.calculateResult answers (Some q) =
    Normal (result_of_scores Assessment.closeThreshold (scores_of answers q)).
Proof.
  unfold Assessment.calculateResult. rewrite tally_occurrences. reflexivity.
Qed.

Lemma scores_of_first (answers : list string) (q : QuestionCounts) (d : dimension) :
  first_score (scores_of answers q) d =
    percentage (occurrences (first_letter d) answers) (ToNumber (denominator q d)).
Proof. destruct d; reflexivity. Qed.

Lemma scores_of_second (answers : list string) (q : QuestionCounts) (d : dimension) :
  second_score (scores_of answers q) d =
    percentage (occurrences (second_letter d) answers) (ToNumber (denominator q d)).
Proof. destruct d; reflexivity. Qed.

(** ** Alternative types *)

(** [getAlternativeTypes] on the type code of the scores computes the
    expected alternatives. *)
Lemma getAlternativeTypes_expected (th : Q) (s : Scores) :
  getAlternativeTypes_at th s (type_of_scores s) =
    expected_alternatives th s (type_of_scores s).
Proof.
  by_flags th s; reflexivity.
Qed.

Lemma or_null_expected (th : Q) (s : Scores) (n : nat) :
  or_null (nth_error (expected_alternatives th s (type_of_scores s)) n) =
    nth_error (expected_alternatives th s (type_of_scores s)) n.
Proof.
  assert (H : forall alt,
             In alt (expected_alternatives th s (type_of_scores s)) ->
             truthy alt = true).
  { by_flags th s; intros alt Hin; simpl in Hin;
      repeat (destruct Hin as [<- | Hin]; [reflexivity |]);
      contradiction. }
  destruct (nth_error _ n) as [alt |] eqn:Hn; [| reflexivity].
  simpl. rewrite (H alt); [reflexivity |].
  eapply nth_error_In; eassumption.
Qed.

Lemma result_of_scores_alternatives (th : Q) (s : Scores) :
  let r := result_of_scores th s in
  let alts := expected_alternatives th s (personalityType r) in
  alternativeType1 r = nth_error alts 0 /\
  alternativeType2 r = nth_error alts 1.
Proof.
  cbn zeta. unfold result_of_scores at 1 3. cbn [alternativeType1 alternativeType2].
  unfold result_of_scores. cbn [personalityType].
  rewrite getAlternativeTypes_expected, !or_null_expected. split; reflexivity.
Qed.

(** ** Comparisons and the type code *)





Lemma letter_of_type (s : Scores) (d : dimension) :
  letter_of (type_of_scores s) d =
    if js_ge (first_score s d) (second_score s d)
    then first_letter d else second_letter d.
Proof.
  unfold type_of_scores.
  destruct d; cbn [first_score second_score first_letter second_letter];
    destruct (js_ge (extrovert s) (introvert s)),
             (js_ge (sensory s) (intuitive s)),
             (js_ge (thinking s) (feeling s)),
             (js_ge (judging s) (perceiving s)); reflexivity.
Qed.



(** ** Input errors, totality, unrecognized answers *)


(** The one error of [calculateResult]: the TypeError of reading a
    property when [questionCounts] itself is [undefined] or [null]; the
    earlier version does not read it. *)
Lemma calculateResult_without_counts (answers : list string) :
  fails (Assessment.calculateResult answers None) /\
  ~ fails (AssessmentFixed.calculateResult answers None).
Proof.
  split.
  - eexists. reflexivity.
  - intros [e He]. discriminate He.
Qed.




(** C6.  Elements that are not trait letters enter no tally:
    [calculateResult] returns, and returns the same result as on the
    answers without them. *)
Theorem C6_unrecognized_answers_are_ignored :
  forall (answers : list string) (q : QuestionCounts),
    tally answers = tally (recognized_only answers) /\
    (forall value, ~ In value trait_letters ->
       forall c, tally_step c value = c) /\
    exists r,
      Assessment.calculateResult answers (Some q) = Normal r /\
      Assessment.calculateResult (recognized_only answers) (Some q) = Normal r.
Proof.
  intros answers q. split; [symmetry; apply tally_recognized |]. split.
  - intros value Hout c. unfold tally_step.
    destruct (in_counts value) eqn:Hin; [| reflexivity].
    apply in_counts_iff in Hin. contradiction.
  - eexists. split; [apply calculateResult_returns |].
    unfold Assessment.calculateResult.
    rewrite tally_recognized, tally_occurrences. reflexivity.
Qed.

(** C7.  The two versions of the scoring disagree.  On a single answer E
    with twenty questions per dimension the scores differ (10 against 5);
    and with the question counts equal to the hard-coded denominators the
    scores agree while the alternatives differ, a gap of 10 being close
    for threshold 20 and not for threshold 10. *)
Theorem C7_scoring_versions_diverge :
  (exists answers q,
     AssessmentFixed.calculateResult answers (Some q) <>
     Assessment.calculateResult answers (Some q)) /\
  (exists answers r r',
     AssessmentFixed.calculateResult answers
       (Some (mkQuestionCounts (Some 10%Z) (Some 20%Z) (Some 20%Z) (Some 20%Z)))
       = Normal r /\
     Assessment.calculateResult answers
       (Some (mkQuestionCounts (Some 10%Z) (Some 20%Z) (Some 20%Z) (Some 20%Z)))
       = Normal r' /\
     scores r = scores r' /\
     alternativeType1 r <> alternativeType1 r').
Proof.
  split.
  - exists ["E"],
      (mkQuestionCounts (Some 20%Z) (Some 20%Z) (Some 20%Z) (Some 20%Z)).
    intros H. vm_compute in H. discriminate H.
  - exists ["E"; "E"; "E"; "E"; "E"; "I"; "I"; "I"; "I"].
    eexists. eexists.
    split; [vm_compute; reflexivity |].
    split; [vm_compute; reflexivity |].
    split; [reflexivity | discriminate].
Qed.

Lemma scores_of_no_answers (q : QuestionCounts) :
  positive_counts q -> scores_of [] q = zero_scores.
Proof.
  intros Hq. unfold scores_of, zero_scores.
  destruct (Hq dimEI) as [ei [Hei Pei]], (Hq dimSN) as [sn [Hsn Psn]],
           (Hq dimTF) as [tf [Htf Ptf]], (Hq dimJP) as [jp [Hjp Pjp]].
  cbn [denominator] in Hei, Hsn, Htf, Hjp.
  rewrite Hei, Hsn, Htf, Hjp. cbn [ToNumber].
  change (occurrences _ []) with 0%nat.
  rewrite !percentage_of_none by lia. reflexivity.
Qed.

(** C8.  With positive question counts [calculateResult] throws nothing
    and returns a result, whatever the answers; on no answers the eight
    scores are 0 and the type is ESTJ (all four dimensions are then tied,
    so the first two are offered flipped). *)
Theorem C8_calculateResult_is_total :
  forall (answers : list string) (q : QuestionCounts),
    positive_counts q ->
    ~ fails (Assessment.calculateResult answers (Some q)) /\
    (exists r, Assessment.calculateResult answers (Some q) = Normal r) /\
    Assessment.calculateResult [] (Some q) =
      Normal (mkResult zero_scores "ESTJ" (Some "ISTJ") (Some "ENTJ")).
Proof.
  intros answers q Hq. rewrite !calculateResult_returns.
  split; [intros [e He]; discriminate He |].
  split; [eexists; reflexivity |].
  rewrite (scores_of_no_answers q Hq). reflexivity.
Qed.

(** C8, at the question counts 10, 20, 20, 20. *)
Lemma C8_calculateResult_is_total_witness :
  positive_counts
    (mkQuestionCounts (Some 10%Z) (Some 20%Z) (Some 20%Z) (Some 20%Z)) /\
  Assessment.calculateResult []
    (Some (mkQuestionCounts (Some 10%Z) (Some 20%Z) (Some 20%Z) (Some 20%Z))) =
    Normal (mkResult zero_scores "ESTJ" (Some "ISTJ") (Some "ENTJ")).
Proof.
  assert (Hq : positive_counts
    (mkQuestionCounts (Some 10%Z) (Some 20%Z) (Some 20%Z) (Some 20%Z))).
  { intros d. destruct d; eexists; (split; [reflexivity | reflexivity]). }
  split; [exact Hq |].
  exact (proj2 (proj2 (C8_calculateResult_is_total ["E"; "N"] _ Hq))).
Defined.

(** C9.  The alternative slots fill in order, and each alternative is a
    four-letter code over the trait letters that differs from the primary
    type at exactly one position. *)
Theorem C9_alternatives_are_single_flips :
  forall (answers : list string) (q : QuestionCounts),
  exists r,
    Assessment.calculateResult answers (Some q) = Normal r /\
    (alternativeType2 r <> None -> alternativeType1 r <> None) /\
    forall alt,
      alternativeType1 r = Some alt \/ alternativeType2 r = Some alt ->
      one_flip_from (personalityType r) alt.
Proof.
  intros answers q. eexists. split; [apply calculateResult_returns |].
  generalize (scores_of answers q). intros s.
  by_flags Assessment.closeThreshold s;
    cbn;
    (split;
     [ congruence
     | intros alt [H | H]; try discriminate H;
       injection H as <-; repeat split ]).
Qed.

(** ** Rounding *)

Lemma half_away_from_zero_unique (x : Q) (z z' : Z) :
  half_away_from_zero x z -> half_away_from_zero x z' -> z = z'.
Proof.
  unfold half_away_from_zero.
  destruct (Qle_bool 0 x); intros [H1 H2] [H3 H4];
    assert (Hlt : (inject_Z z < inject_Z (z' + 1))%Q)
      by (rewrite inject_Z_plus; change (inject_Z 1) with 1%Q; lra);
    assert (Hgt : (inject_Z z' < inject_Z (z + 1))%Q)
      by (rewrite inject_Z_plus; change (inject_Z 1) with 1%Q; lra);
    rewrite <- Zlt_Qlt in Hlt, Hgt; lia.
Qed.

Lemma Math_round_half_away (x : Q) :
  (0 <= x)%Q -> half_away_from_zero x (Qfloor (x + (1 # 2))).
Proof.
  intros Hx. unfold half_away_from_zero.
  rewrite (proj2 (Qle_bool_iff 0 x) Hx).
  pose proof (Qfloor_le (x + (1 # 2))) as Hlo.
  pose proof (Qlt_floor (x + (1 # 2))) as Hhi.
  rewrite inject_Z_plus in Hhi. change (inject_Z 1) with 1%Q in Hhi.
  split; lra.
Qed.

(** On a negative value the two roundings part at a tie. *)
Lemma Math_round_negative_tie :
  Math_round (Num (- (25 # 2))) = num_of_Z (-12) /\
  half_away_from_zero (- (25 # 2)) (-13).
Proof.
  split; [reflexivity | cbv; intuition discriminate].
Qed.



Lemma occurrences_length (letter : string) (answers : list string) :
  (occurrences letter answers <= List.length answers)%nat.
Proof. apply count_occ_bound. Qed.




(** ** Complementary pairs *)

(** C2, on the failing input.  With the documented question counts and
    seventy recognized answers, two T and fourteen F over the sixteen TF
    questions (every tally equal to its denominator): 12.5 and 87.5 both
    round up, to 13 and 88, and the pair sums to 101. *)
Theorem C2_rounded_pair_sums_to_101 :
  every_answer_recognized lopsided_answers /\
  tallies_match lopsided_answers documented_counts /\
  exists r,
    Assessment.calculateResult lopsided_answers (Some documented_counts)
      = Normal r /\
    thinking (scores r) = Num 13 /\
    feeling (scores r) = Num 88 /\
    pair_sum (scores r) dimTF = Num 101 /\
    js_eq (pair_sum (scores r) dimTF) (Num 100) = false.
Proof.
  split; [| split].
  - unfold every_answer_recognized, lopsided_answers, trait_letters.
    cbn [repeat app].
    repeat (constructor; [simpl; tauto |]). constructor.
  - intros d. destruct d; reflexivity.
  - eexists. split; [vm_compute; reflexivity |].
    repeat split.
Qed.

(** ** Saving a result *)

Lemma score_in_range_finite (v : number) :
  Result.score_in_range v = true -> exists x, v = Num x.
Proof.
  destruct v; try discriminate. intros _. now eexists.
Qed.

Lemma scores_in_range_finite (s : Scores) :
  Result.scores_in_range s = true ->
  forall p, In p (Result.pairs s) -> exists x y, p = (Num x, Num y).
Proof.
  unfold Result.scores_in_range. rewrite forallb_forall. intros H p Hp.
  unfold Result.pairs in Hp. simpl in Hp.
  repeat (destruct Hp as [<- | Hp];
          [match goal with
           | |- exists x y, (?a, ?b) = _ =>
               destruct (score_in_range_finite a (H a ltac:(simpl; tauto)))
                 as [x ->];
               destruct (score_in_range_finite b (H b ltac:(simpl; tauto)))
                 as [y ->];
               now exists x, y
           end |]).
  contradiction.
Qed.

Lemma js_le_from_Num (g : Q) (a : number) :
  js_le (Num g) a = true -> a = PInf \/ exists t, a = Num t /\ (g <= t)%Q.
Proof.
  destruct a as [t | | |]; try discriminate; intros H; [right | now left].
  exists t. split; [reflexivity | now apply js_le_Num].
Qed.

Lemma js_le_to_Num (g : Q) (a : number) :
  js_le a (Num g) = true -> a = NInf \/ exists t, a = Num t /\ (t <= g)%Q.
Proof.
  destruct a as [t | | |]; try discriminate; intros H; [right | now left].
  exists t. split; [reflexivity | now apply js_le_Num].
Qed.

Lemma tolerance_value :
  Result.tolerance = Num (5764607523034235 # 576460752303423488).
Proof. vm_compute. reflexivity. Qed.

(** A sum above 100.01 is off balance: the sum rounds to 100.01 in
    binary64 or above, and what is left after taking 100 away is above
    the literal 0.01. *)
Lemma off_balance_above (x y : Q) :
  (1 # 100 < x + y - 100)%Q -> Result.off_balance (Num x, Num y) = true.
Proof.
  intros Hs. unfold Result.off_balance, js_sub. cbn [js_add js_neg].
  rewrite tolerance_value.
  assert (Hg : binary64 (10001 # 100) =
               Num (7037578105208177 # 70368744177664))
    by (vm_compute; reflexivity).
  pose proof (binary64_mono (10001 # 100) (x + y) ltac:(lra)) as Hm.
  rewrite Hg in Hm.
  destruct (js_le_from_Num _ _ Hm) as [-> | [t [-> Ht]]]; [reflexivity |].
  cbn [js_add].
  assert (Hd : binary64 ((7037578105208177 # 70368744177664) + - (100)) =
               Num (703687441777 # 70368744177664))
    by (vm_compute; reflexivity).
  pose proof (binary64_mono ((7037578105208177 # 70368744177664) + - (100))
                (t + - (100)) ltac:(lra)) as Hm'.
  rewrite Hd in Hm'.
  destruct (js_le_from_Num _ _ Hm') as [-> | [d [-> Hdd]]]; [reflexivity |].
  cbn [Math_abs].
  assert (Hpos : (0 < d)%Q) by lra.
  rewrite (proj1 (Qgt_alt d 0) Hpos).
  unfold js_gt, js_lt. cbn [js_compare].
  assert (Hlt : (5764607523034235 # 576460752303423488 < d)%Q) by lra.
  now rewrite (proj1 (Qlt_alt _ _) Hlt).
Qed.

(** A sum below 99.99 is off balance. *)
Lemma off_balance_below (x y : Q) :
  (x + y - 100 < - (1 # 100))%Q -> Result.off_balance (Num x, Num y) = true.
Proof.
  intros Hs. unfold Result.off_balance, js_sub. cbn [js_add js_neg].
  rewrite tolerance_value.
  assert (Hg : binary64 (9999 # 100) =
               Num (7036170730324623 # 70368744177664))
    by (vm_compute; reflexivity).
  pose proof (binary64_mono (x + y) (9999 # 100) ltac:(lra)) as Hm.
  rewrite Hg in Hm.
  destruct (js_le_to_Num _ _ Hm) as [-> | [t [-> Ht]]]; [reflexivity |].
  cbn [js_add].
  assert (Hd : binary64 ((7036170730324623 # 70368744177664) + - (100)) =
               Num (- 703687441777 # 70368744177664))
    by (vm_compute; reflexivity).
  pose proof (binary64_mono (t + - (100))
                ((7036170730324623 # 70368744177664) + - (100))
                ltac:(lra)) as Hm'.
  rewrite Hd in Hm'.
  destruct (js_le_to_Num _ _ Hm') as [-> | [d [-> Hdd]]]; [reflexivity |].
  cbn [Math_abs].
  assert (Hneg : (d < 0)%Q) by lra.
  rewrite (proj1 (Qlt_alt d 0) Hneg).
  unfold js_gt, js_lt. cbn [js_compare].
  assert (Hlt : (5764607523034235 # 576460752303423488 < - d)%Q) by lra.
  now rewrite (proj1 (Qlt_alt _ _) Hlt).
Qed.

(** A finite pair whose exact sum is not within 0.01 of 100 is off
    balance. *)
Lemma unbalanced_off_balance (x y : Q) :
  ~ balanced (Num x, Num y) -> Result.off_balance (Num x, Num y) = true.
Proof.
  intros Hn.
  destruct (Qlt_le_dec (1 # 100) (x + y - 100)) as [Hhi | Hhi];
    [now apply off_balance_above |].
  destruct (Qlt_le_dec (x + y - 100) (- (1 # 100))) as [Hlo | Hlo];
    [now apply off_balance_below |].
  exfalso. apply Hn. exists x, y. split; [reflexivity | split; lra].
Qed.

Lemma in_balance_balanced (x y : Q) :
  Result.off_balance (Num x, Num y) = false -> balanced (Num x, Num y).
Proof.
  intros Ho.
  destruct (Qlt_le_dec (1 # 100) (x + y - 100)) as [Hhi | Hhi];
    [rewrite off_balance_above in Ho by exact Hhi; discriminate |].
  destruct (Qlt_le_dec (x + y - 100) (- (1 # 100))) as [Hlo | Hlo];
    [rewrite off_balance_below in Ho by exact Hlo; discriminate |].
  exists x, y. split; [reflexivity | split; lra].
Qed.

(** The converse fails: 100 and the binary64 value 0.009999999999999995
    are within 0.01 of 100, and the hook, whose sum rounds up to
    100.01000000000000512, rejects them. *)
Lemma in_tolerance_off_balance :
  balanced (Num 100, Num (720575940379279 # 72057594037927936)) /\
  binary64 (9999999999999995 # 1000000000000000000) =
    Num (720575940379279 # 72057594037927936) /\
  Result.off_balance (Num 100, Num (720575940379279 # 72057594037927936))
    = true.
Proof.
  split; [| split; vm_compute; reflexivity].
  do 2 eexists. split; [reflexivity |].
  split; unfold Qle; vm_compute; discriminate.
Qed.

(** Two integers that add up to 100 are in balance. *)
Lemma whole_pair_in_balance (x y : Z) :
  (x + y = 100)%Z -> Result.off_balance (num_of_Z x, num_of_Z y) = false.
Proof.
  intros Hs. unfold Result.off_balance.
  rewrite js_add_whole by (rewrite Hs; lia). rewrite Hs.
  vm_compute. reflexivity.
Qed.

Lemma check_pairs_throws (ps : list (number * number)) :
  existsb Result.off_balance ps = true ->
  Result.check_pairs ps = Throw sum_error.
Proof.
  induction ps as [| p rest IH]; simpl; [discriminate |].
  destruct (Result.off_balance p); [reflexivity | exact IH].
Qed.

Lemma check_pairs_returns (ps : list (number * number)) (u : unit) :
  Result.check_pairs ps = Normal u ->
  forall p, In p ps -> Result.off_balance p = false.
Proof.
  induction ps as [| p rest IH]; simpl; [contradiction |].
  destruct (Result.off_balance p) eqn:Hp; [discriminate |].
  intros H p' [<- | Hin]; [exact Hp | now apply IH].
Qed.

Lemma percentage_integral (count : nat) (denom : number) (x : Q) :
  percentage count denom = Num x -> exists z, x = inject_Z z.
Proof.
  unfold percentage, Math_round.
  destruct (js_mul _ _) as [y | | |]; try discriminate.
  unfold num_of_Z. intros H. injection H as <-. now eexists.
Qed.

Lemma balanced_integers (a b : Z) :
  balanced (num_of_Z a, num_of_Z b) -> (a + b = 100)%Z.
Proof.
  intros [x [y [Heq [Hlo Hhi]]]]. unfold num_of_Z in Heq.
  injection Heq as <- <-.
  unfold Qle, Qminus, Qplus, Qopp, inject_Z in Hlo, Hhi. simpl in Hlo, Hhi.
  lia.
Qed.

Lemma pair_in_pairs (s : Scores) (d : dimension) :
  In (first_score s d, second_score s d) (Result.pairs s).
Proof. destruct d; simpl; tauto. Qed.

Lemma validate_scores (data : Result.ResultData) (u : unit) :
  Result.validate data = Normal u ->
  Result.scores_in_range (Result.data_scores data) = true.
Proof.
  unfold Result.validate.
  destruct (negb (0 <? _)%nat); [discriminate |].
  destruct (Result.scores_in_range _); [reflexivity | discriminate].
Qed.

(** What [createNewResult] stores passed the validators and the hook. *)
Lemma persisted_balanced (db : list Result.ResultDoc) (uid aid : nat)
  (data : Result.ResultData) (db' : list Result.ResultDoc)
  (doc : Result.ResultDoc) :
  Result.createNewResult db uid aid data = (db', Normal doc) ->
  Result.scores_in_range (Result.data_scores data) = true /\
  (forall p, In p (Result.pairs (Result.data_scores data)) -> balanced p) /\
  In doc db'.
Proof.
  unfold Result.createNewResult, Result.create, Result.save.
  cbn [Result.fields].
  destruct (Result.validate _) as [u |] eqn:Hv; cbn [bind]; [| discriminate].
  destruct (Result.pre_save _) as [u' |] eqn:Hp; [| discriminate].
  intros H. injection H as <- <-.
  apply validate_scores in Hv. cbn [Result.apply_setters Result.data_scores] in *.
  split; [exact Hv | split].
  - intros p Hin.
    destruct (scores_in_range_finite _ Hv p Hin) as [x [y ->]].
    apply in_balance_balanced.
    exact (check_pairs_returns _ _ Hp _ Hin).
  - apply in_or_app. right. now left.
Qed.

(** C10.  For scores that pass the schema validators, the pre-save hook
    throws whenever some complementary pair is not within 0.01 of 100;
    [createNewResult] stores a document only when every pair is; for the
    integer scores of [calculateResult] a stored result has every pair
    equal to 100; and [calculateResult] does return pairs that are not:
    the save then throws, the earlier results of the user already marked
    inactive. *)
Theorem C10_unbalanced_scores_are_not_persisted :
  (forall s,
     Result.scores_in_range s = true ->
     Exists (fun p => ~ balanced p) (Result.pairs s) ->
     Result.pre_save s = Throw sum_error) /\
  (forall db uid aid data db' doc,
     Result.createNewResult db uid aid data = (db', Normal doc) ->
     Forall balanced (Result.pairs (Result.data_scores data)) /\ In doc db') /\
  (forall answers q r db uid aid db' doc,
     Assessment.calculateResult answers q = Normal r ->
     Result.createNewResult db uid aid (resultData_of answers r) =
       (db', Normal doc) ->
     forall d, js_eq (pair_sum (scores r) d) (Num 100) = true) /\
  (exists answers q r,
     Assessment.calculateResult answers (Some q) = Normal r /\
     js_eq (pair_sum (scores r) dimTF) (Num 100) = false /\
     forall db uid aid,
       Result.createNewResult db uid aid (resultData_of answers r) =
         (Result.deactivate uid db, Throw sum_error)).
Proof.
  split; [| split; [| split]].
  - intros s Hs Hex. apply check_pairs_throws.
    apply Exists_exists in Hex. destruct Hex as [p [Hin Hp]].
    apply existsb_exists. exists p. split; [exact Hin |].
    destruct (scores_in_range_finite s Hs p Hin) as [x [y ->]].
    now apply unbalanced_off_balance.
  - intros db uid aid data db' doc H.
    apply persisted_balanced in H. destruct H as [_ [Hb Hin]].
    split; [now apply Forall_forall | exact Hin].
  - intros answers [q |] r db uid aid db' doc Hr Hc d; [| discriminate Hr].
    rewrite calculateResult_returns in Hr. injection Hr as <-.
    apply persisted_balanced in Hc. destruct Hc as [Hrange [Hb _]].
    cbn [resultData_of Result.data_scores scores result_of_scores] in *.
    specialize (Hb _ (pair_in_pairs _ d)).
    unfold pair_sum.
    pose proof Hb as [x [y [Heq _]]]. injection Heq as Hx Hy.
    pose proof Hx as Hx'. pose proof Hy as Hy'.
    rewrite scores_of_first in Hx'. rewrite scores_of_second in Hy'.
    apply percentage_integral in Hx', Hy'.
    destruct Hx' as [a ->], Hy' as [b ->].
    rewrite Hx, Hy in Hb |- *.
    apply balanced_integers in Hb.
    change (Num (inject_Z a)) with (num_of_Z a).
    change (Num (inject_Z b)) with (num_of_Z b).
    rewrite js_add_whole by (rewrite Hb; lia). rewrite Hb. reflexivity.
  - exists lopsided_answers, documented_counts.
    eexists. split; [vm_compute; reflexivity |].
    split; [vm_compute; reflexivity |].
    intros db uid aid. unfold Result.createNewResult, Result.create.
    match goal with
    | |- context [Result.save ?d] =>
        assert (Hsave : Result.save d = Throw sum_error)
          by (vm_compute; reflexivity)
    end.
    rewrite Hsave. reflexivity.
Qed.

(** C10, at the scores of the lopsided answers: they pass the validators
    and the hook throws. *)
Lemma C10_unbalanced_scores_are_not_persisted_witness :
  Result.scores_in_range
    (mkScores (Num 100) (Num 0) (Num 100) (Num 0)
              (Num 13) (Num 88) (Num 100) (Num 0)) = true /\
  Result.pre_save
    (mkScores (Num 100) (Num 0) (Num 100) (Num 0)
              (Num 13) (Num 88) (Num 100) (Num 0)) = Throw sum_error.
Proof.
  split; [reflexivity |].
  refine (proj1 C10_unbalanced_scores_are_not_persisted _ _ _);
    [reflexivity |].
  apply Exists_cons_tl, Exists_cons_tl, Exists_cons_hd.
  intros [x [y [Heq [Hlo Hhi]]]]. injection Heq as <- <-.
  vm_compute in Hhi. apply Hhi. reflexivity.
Defined.

(** ** Questions and question counts *)

Lemma group_name_lookup (d : dimension) :
  QuestionSchema.groupToValues (group_name d) =
    Some [first_letter d; second_letter d] /\
  inherited (group_name d) = false.
Proof. destruct d; split; reflexivity. Qed.

Lemma groupToValues_known (name : string) (v : list string) :
  QuestionSchema.groupToValues name = Some v ->
  exists d, name = group_name d.
Proof.
  intros H.
  destruct (string_dec name "EI") as [-> | H1]; [now exists dimEI |].
  destruct (string_dec name "SN") as [-> | H2]; [now exists dimSN |].
  destruct (string_dec name "TF") as [-> | H3]; [now exists dimTF |].
  destruct (string_dec name "JP") as [-> | H4]; [now exists dimJP |].
  exfalso. revert H. unfold QuestionSchema.groupToValues.
  repeat match goal with
         | |- context [match ?x with _ => _ end] => destruct x; try discriminate
         end; congruence.
Qed.

Lemma count_question_bumps (counts : Z * Z * Z * Z) (q : IQuestion) :
  AssessmentSchema.count_question counts q =
    let '(ei, sn, tf, jp) := counts in
    (ei + Z.of_nat (bump (group q) "EI"), sn + Z.of_nat (bump (group q) "SN"),
     tf + Z.of_nat (bump (group q) "TF"), jp + Z.of_nat (bump (group q) "JP"))%Z.
Proof.
  destruct counts as [[[ei sn] tf] jp].
  unfold AssessmentSchema.count_question, bump.
  destruct (string_dec (group q) "EI") as [-> | H1];
    [cbn; tuple_eq |].
  destruct (string_dec (group q) "SN") as [-> | H2];
    [cbn; tuple_eq |].
  destruct (string_dec (group q) "TF") as [-> | H3];
    [cbn; tuple_eq |].
  destruct (string_dec (group q) "JP") as [-> | H4];
    [cbn; tuple_eq |].
  cbn [Z.of_nat]. rewrite !Z.add_0_r.
  destruct (group q) as [| c rest]; [reflexivity |].
  repeat match goal with
         | |- context [match ?x with _ => _ end] =>
             destruct x; try reflexivity
         end; congruence.
Qed.

Lemma fold_count_question (questions : list IQuestion) (ei sn tf jp : Z) :
  fold_left AssessmentSchema.count_question questions (ei, sn, tf, jp) =
    (ei + Z.of_nat (count_occ string_dec (map group questions) "EI"),
     sn + Z.of_nat (count_occ string_dec (map group questions) "SN"),
     tf + Z.of_nat (count_occ string_dec (map group questions) "TF"),
     jp + Z.of_nat (count_occ string_dec (map group questions) "JP"))%Z.
Proof.
  revert ei sn tf jp.
  induction questions as [| q rest IH]; intros ei sn tf jp.
  - cbn. tuple_eq.
  - cbn [fold_left]. rewrite count_question_bumps. rewrite IH.
    cbn [map count_occ]. unfold bump.
    destruct (string_dec (group q) "EI"), (string_dec (group q) "SN"),
             (string_dec (group q) "TF"), (string_dec (group q) "JP");
      try congruence; tuple_eq.
Qed.

Lemma getQuestionCounts_denominator (questions : list IQuestion) (d : dimension) :
  denominator (AssessmentSchema.getQuestionCounts questions) d =
    Some (Z.of_nat (questions_of d questions)).
Proof.
  unfold AssessmentSchema.getQuestionCounts, questions_of.
  rewrite fold_count_question. destruct d; reflexivity.
Qed.

Lemma known_groups_total (questions : list IQuestion) :
  known_groups questions ->
  (questions_of dimEI questions + questions_of dimSN questions +
   questions_of dimTF questions + questions_of dimJP questions)%nat
  = List.length questions.
Proof.
  unfold known_groups, questions_of.
  induction 1 as [| q rest [d Hd] _ IH]; [reflexivity |].
  cbn [map count_occ List.length]. rewrite Hd.
  destruct d; cbn [group_name] in *;
    repeat match goal with
           | |- context [string_dec ?a ?b] =>
               destruct (string_dec a b); try congruence
           end; lia.
Qed.

(** X1.  [getQuestionCounts] returns, for each dimension, the number of
    questions of its group; when every group is one of the four, the
    four counts add up to the number of questions. *)
Theorem getQuestionCounts_counts_each_group :
  forall questions : list IQuestion,
    (forall d,
       denominator (AssessmentSchema.getQuestionCounts questions) d =
         Some (Z.of_nat (questions_of d questions))) /\
    (known_groups questions ->
     exists ei sn tf jp,
       AssessmentSchema.getQuestionCounts questions =
         mkQuestionCounts (Some ei) (Some sn) (Some tf) (Some jp) /\
       (ei + sn + tf + jp)%Z = Z.of_nat (List.length questions)).
Proof.
  intros questions. split; [apply getQuestionCounts_denominator |].
  intros Hk.
  pose proof (getQuestionCounts_denominator questions) as Hd.
  pose proof (Hd dimEI) as H1. pose proof (Hd dimSN) as H2.
  pose proof (Hd dimTF) as H3. pose proof (Hd dimJP) as H4.
  destruct (AssessmentSchema.getQuestionCounts questions) as [ei sn tf jp].
  cbn [denominator EI SN TF JP] in H1, H2, H3, H4. subst.
  do 4 eexists. split; [reflexivity |].
  rewrite <- (known_groups_total questions Hk). lia.
Qed.

(** ** The validation hook of a question *)

Lemma list_string_eqb_eq (a b : list string) :
  list_string_eqb a b = true <-> a = b.
Proof.
  unfold list_string_eqb. destruct (list_eq_dec string_dec a b); split;
    congruence.
Qed.

Lemma sort_insert_length (x : string) (l : list string) :
  List.length (sort_insert x l) = S (List.length l).
Proof.
  induction l as [| y rest IH]; [reflexivity |].
  simpl. destruct (String.leb x y); simpl; congruence.
Qed.

Lemma js_sort_length (l : list string) :
  List.length (js_sort l) = List.length l.
Proof.
  induction l as [| x rest IH]; [reflexivity |].
  simpl. rewrite sort_insert_length. congruence.
Qed.

(** Sorting gives the sorted pair [x; y] exactly on the two orders of
    the pair. *)
Lemma js_sort_pair (x y : string) (l : list string) :
  String.ltb x y = true ->
  (js_sort l = [x; y] <-> l = [x; y] \/ l = [y; x]).
Proof.
  intros Hlt.
  assert (Hxy : String.leb x y = true).
  { unfold String.ltb in Hlt. unfold String.leb.
    destruct (String.compare x y); congruence. }
  assert (Hyx : String.leb y x = false).
  { unfold String.ltb in Hlt. unfold String.leb.
    rewrite String.compare_antisym.
    destruct (String.compare x y); try discriminate. reflexivity. }
  split.
  - intros Hs.
    assert (Hlen : List.length l = 2%nat)
      by (rewrite <- js_sort_length, Hs; reflexivity).
    destruct l as [| a [| b [| c rest]]]; try discriminate Hlen.
    cbn in Hs. destruct (String.leb a b); injection Hs as -> ->; auto.
  - intros [-> | ->]; cbn; [rewrite Hxy | rewrite Hyx]; reflexivity.
Qed.

Lemma js_sort_empty (l : list string) : js_sort l = [] <-> l = [].
Proof.
  split; [| intros ->; reflexivity].
  intros Hs. apply length_zero_iff_nil.
  rewrite <- js_sort_length, Hs. reflexivity.
Qed.

(** The sorted letters of a dimension, as the hook computes them. *)
Lemma sorted_letters (d : dimension) :
  exists x y,
    js_sort [first_letter d; second_letter d] = [x; y] /\
    String.ltb x y = true /\
    ((x = first_letter d /\ y = second_letter d) \/
     (x = second_letter d /\ y = first_letter d)).
Proof.
  destruct d; do 2 eexists; (split; [reflexivity |]);
    (split; [reflexivity |]); auto.
Qed.

Lemma pre_validate_known (q : IQuestion) (d : dimension) :
  group q = group_name d ->
  (accepted q <-> offers_pair q d).
Proof.
  intros Hg. unfold accepted, QuestionSchema.pre_validate, offers_pair.
  rewrite Hg. destruct (group_name_lookup d) as [-> ->].
  destruct (sorted_letters d) as [x [y [-> [Hlt Hxy]]]].
  destruct (list_string_eqb _ _) eqn:He; cbn [negb].
  - apply list_string_eqb_eq in He.
    apply (js_sort_pair x y _ Hlt) in He.
    split; [intros _ | reflexivity].
    destruct Hxy as [[-> ->] | [-> ->]]; tauto.
  - split; [discriminate |]. intros Hp. exfalso.
    assert (Hs : js_sort (map value (options q)) = [x; y]).
    { apply (js_sort_pair x y _ Hlt).
      destruct Hxy as [[-> ->] | [-> ->]]; tauto. }
    apply list_string_eqb_eq in Hs. congruence.
Qed.

Lemma accepted_unknown_group (q : IQuestion) :
  accepted q -> QuestionSchema.groupToValues (group q) = None ->
  inherited (group q) = false /\ options q = [].
Proof.
  intros Ha Hv. unfold accepted, QuestionSchema.pre_validate in Ha.
  rewrite Hv in Ha.
  destruct (inherited (group q)); [discriminate |].
  split; [reflexivity |].
  destruct (list_string_eqb _ _) eqn:He; [| discriminate].
  apply list_string_eqb_eq in He. cbn in He.
  apply (proj1 (js_sort_empty _)) in He. now apply map_eq_nil in He.
Qed.

(** X2.  The hook accepts exactly the questions of a known group whose two
    option values are the letters of the group, in either order, and,
    through the guard for an unknown group, a question of a group outside
    the table that has no options. *)
Theorem pre_validate_accepts_the_pair_of_the_group :
  forall q : IQuestion,
    accepted q <->
    (exists d, group q = group_name d /\ offers_pair q d) \/
    (QuestionSchema.groupToValues (group q) = None /\
     inherited (group q) = false /\ options q = []).
Proof.
  intros q. split.
  - intros Ha.
    destruct (QuestionSchema.groupToValues (group q)) as [v |] eqn:Hv.
    + destruct (groupToValues_known _ _ Hv) as [d Hd].
      left. exists d. split; [exact Hd |]. now apply pre_validate_known.
    + right. destruct (accepted_unknown_group q Ha Hv) as [Hi Ho].
      split; [reflexivity | split; assumption].
  - intros [[d [Hd Hp]] | [Hv [Hi Ho]]].
    + now apply (pre_validate_known q d Hd).
    + unfold accepted, QuestionSchema.pre_validate.
      rewrite Hv, Hi, Ho. reflexivity.
Qed.

(** X3.  The earlier hook accepts exactly the questions of a known group that
    offer its pair; on a group outside the table it throws a TypeError,
    whatever the options, where the current hook accepts a question
    without options and otherwise reports the mismatch. *)
Theorem earlier_hook_throws_on_unknown_group :
  forall q : IQuestion,
    (QuestionSchemaEarlier.pre_validate q = Normal tt <->
     exists d, group q = group_name d /\ offers_pair q d) /\
    (QuestionSchema.groupToValues (group q) = None ->
     (exists msg, QuestionSchemaEarlier.pre_validate q = Throw (TypeError msg)) /\
     (inherited (group q) = false -> options q <> [] ->
      exists msg, QuestionSchema.pre_validate q = Throw (JsError msg))).
Proof.
  intros q. split.
  - split.
    + intros Ha. unfold QuestionSchemaEarlier.pre_validate in Ha.
      destruct (inherited (group q)) eqn:Hi; [discriminate |].
      destruct (QuestionSchema.groupToValues (group q)) as [v |] eqn:Hv;
        [| discriminate].
      destruct (groupToValues_known _ _ Hv) as [d Hd].
      exists d. split; [exact Hd |].
      apply (pre_validate_known q d Hd).
      unfold accepted, QuestionSchema.pre_validate. rewrite Hi, Hv.
      destruct (negb _); [discriminate | reflexivity].
    + intros [d [Hd Hp]].
      apply (pre_validate_known q d Hd) in Hp.
      unfold accepted, QuestionSchema.pre_validate in Hp.
      unfold QuestionSchemaEarlier.pre_validate.
      rewrite Hd in *. destruct (group_name_lookup d) as [Hv Hi].
      rewrite Hv, Hi in *.
      destruct (negb _); [discriminate | reflexivity].
  - intros Hv. split.
    + unfold QuestionSchemaEarlier.pre_validate. rewrite Hv.
      destruct (inherited (group q)); eexists; reflexivity.
    + intros Hi Ho. unfold QuestionSchema.pre_validate. rewrite Hi, Hv.
      destruct (list_string_eqb _ _) eqn:He; cbn [negb].
      * apply list_string_eqb_eq in He. cbn in He.
        apply (proj1 (js_sort_empty _)) in He. apply map_eq_nil in He. contradiction.
      * eexists. reflexivity.
Qed.

(** ** Complete submissions *)

Lemma accepted_answer (q : IQuestion) (a : string) :
  accepted q -> In a (map value (options q)) ->
  exists d, group q = group_name d /\
            (a = first_letter d \/ a = second_letter d).
Proof.
  intros Ha Hin.
  destruct (QuestionSchema.groupToValues (group q)) as [v |] eqn:Hv.
  - destruct (groupToValues_known _ _ Hv) as [d Hd].
    exists d. split; [exact Hd |].
    apply (pre_validate_known q d Hd) in Ha.
    destruct Ha as [Hp | Hp]; rewrite Hp in Hin; simpl in Hin;
      intuition congruence.
  - destruct (accepted_unknown_group q Ha Hv) as [_ Ho].
    rewrite Ho in Hin. contradiction.
Qed.

Lemma occurrences_cons (l a : string) (rest : list string) :
  occurrences l (a :: rest) = (bump a l + occurrences l rest)%nat.
Proof.
  unfold occurrences, bump. cbn [count_occ].
  destruct (string_dec a l); reflexivity.
Qed.

Lemma questions_of_cons (d : dimension) (q : IQuestion) (rest : list IQuestion) :
  questions_of d (q :: rest) =
    (bump (group q) (group_name d) + questions_of d rest)%nat.
Proof.
  unfold questions_of, bump. cbn [map count_occ].
  destruct (string_dec (group q) (group_name d)); reflexivity.
Qed.

(** An answer to a question of dimension [d'] counts once for the pair
    of [d] when [d] is [d'], and not at all otherwise. *)
Lemma answer_bumps_its_pair (d d' : dimension) (a : string) :
  a = first_letter d' \/ a = second_letter d' ->
  (bump a (first_letter d) + bump a (second_letter d))%nat =
    bump (group_name d') (group_name d).
Proof.
  unfold bump.
  intros [-> | ->]; destruct d, d'; cbn [first_letter second_letter group_name];
    repeat match goal with
           | |- context [string_dec ?x ?y] =>
               destruct (string_dec x y); try congruence
           end; reflexivity.
Qed.

Lemma complete_submission_tallies (questions : list IQuestion)
  (answers : list string) :
  Forall accepted questions ->
  answered_from questions answers ->
  every_answer_recognized answers /\
  forall d,
    questions_of d questions =
      (occurrences (first_letter d) answers +
       occurrences (second_letter d) answers)%nat.
Proof.
  intros Hacc Hans. unfold answered_from in Hans.
  induction Hans as [| q a questions' answers' Hin _ IH].
  - split; [constructor | intros d; reflexivity].
  - inversion Hacc as [| ? ? Hq Hrest]; subst.
    destruct (IH Hrest) as [Hrec Htal].
    destruct (accepted_answer q a Hq Hin) as [d' [Hd' Ha]].
    split.
    + constructor; [| exact Hrec].
      destruct Ha as [-> | ->]; destruct d'; simpl; tauto.
    + intros d. rewrite questions_of_cons, !occurrences_cons, Htal, Hd'.
      rewrite <- (answer_bumps_its_pair d d' a Ha). lia.
Qed.

(** X4.  In a complete submission to an assessment of accepted questions, one
    answer per question taken from its options, every answer is a trait
    letter and the question counts of [getQuestionCounts] are the tallies
    of the pairs: the denominators match. *)
Theorem complete_submission_matches_question_counts :
  forall (questions : list IQuestion) (answers : list string),
    Forall accepted questions ->
    answered_from questions answers ->
    every_answer_recognized answers /\
    tallies_match answers (AssessmentSchema.getQuestionCounts questions) /\
    List.length answers = List.length questions.
Proof.
  intros questions answers Hacc Hans.
  destruct (complete_submission_tallies questions answers Hacc Hans)
    as [Hrec Htal].
  split; [exact Hrec | split].
  - intros d. rewrite getQuestionCounts_denominator, Htal. reflexivity.
  - symmetry. exact (Forall2_length Hans).
Qed.

(** ** Scores of matching tallies *)

Lemma tallies_match_scores (answers : list string) (q : QuestionCounts)
  (d : dimension) :
  tallies_match answers q ->
  first_score (scores_of answers q) d =
    percentage (occurrences (first_letter d) answers)
               (num_of_nat (pair_tally d answers)) /\
  second_score (scores_of answers q) d =
    percentage (occurrences (second_letter d) answers)
               (num_of_nat (pair_tally d answers)).
Proof.
  intros Hm. rewrite scores_of_first, scores_of_second, (Hm d).
  split; reflexivity.
Qed.

Lemma pair_tally_length (d : dimension) (answers : list string) :
  (pair_tally d answers <= List.length answers)%nat.
Proof.
  unfold pair_tally, occurrences.
  assert (Hne : first_letter d <> second_letter d)
    by (destruct d; discriminate).
  induction answers as [| a rest IH]; [simpl; lia |].
  cbn [count_occ List.length].
  destruct (string_dec a (first_letter d)) as [E1 | N1],
           (string_dec a (second_letter d)) as [E2 | N2];
    try lia; congruence.
Qed.

(** X5.  With matching tallies, for an answers array of JavaScript, the two
    scores of a dimension without answers are NaN, and the scores of
    every other dimension are integers from 0 to 100 whose sum is 100 or
    101: no pair of binary64 ties goes down together. *)
Theorem matching_tallies_give_whole_percentages :
  forall (answers : list string) (q : QuestionCounts),
    js_array answers ->
    tallies_match answers q ->
    exists r,
      Assessment.calculateResult answers (Some q) = Normal r /\
      forall d,
        (pair_tally d answers = 0%nat ->
         first_score (scores r) d = NaN /\ second_score (scores r) d = NaN) /\
        ((0 < pair_tally d answers)%nat ->
         exists x y,
           whole_percent (first_score (scores r) d) x /\
           whole_percent (second_score (scores r) d) y /\
           (x + y = 100 \/ x + y = 101)%Z).
Proof.
  intros answers q Hlen Hm. eexists.
  split; [apply calculateResult_returns |].
  intros d. cbn [scores result_of_scores].
  destruct (tallies_match_scores answers q d Hm) as [-> ->].
  pose proof (pair_tally_length d answers) as Hp.
  unfold js_array in Hlen. unfold pair_tally in *.
  set (a := occurrences (first_letter d) answers) in *.
  set (b := occurrences (second_letter d) answers) in *.
  split.
  - intros H0. assert (a = 0%nat /\ b = 0%nat) as [-> ->] by lia.
    split; reflexivity.
  - intros Hpos.
    destruct (matched_pair_sum a b Hpos ltac:(lia))
      as [x [y [Hx [Hy [Bx [By Hs]]]]]].
    exists x, y. unfold whole_percent. rewrite Hx, Hy. auto.
Qed.

(** ** Results that are stored *)

Lemma type_of_scores_uppercase (s : Scores) :
  Result.four_uppercase (Result.uppercase (type_of_scores s)) = true.
Proof.
  unfold type_of_scores.
  destruct (js_ge (extrovert s) (introvert s)),
           (js_ge (sensory s) (intuitive s)),
           (js_ge (thinking s) (feeling s)),
           (js_ge (judging s) (perceiving s)); reflexivity.
Qed.

Lemma score_in_range_whole (v : number) (x : Z) :
  whole_percent v x -> Result.score_in_range v = true.
Proof.
  intros [-> [Hlo Hhi]].
  unfold Result.score_in_range, js_le, js_ge, num_of_Z. cbn [js_compare].
  rewrite Qcompare_inject_Z_0.
  change 100%Q with (inject_Z 100). rewrite Qcompare_inject_Z.
  destruct (Z.compare_spec x 0), (Z.compare_spec 100 x);
    try reflexivity; lia.
Qed.

(** What the validators and the hook ask of a document. *)
Lemma save_accepts (d : Result.ResultDoc) :
  Result.data_answers (Result.fields d) <> [] ->
  Result.scores_in_range (Result.data_scores (Result.fields d)) = true ->
  Result.four_uppercase (Result.data_personalityType (Result.fields d)) = true ->
  Forall (fun p => Result.off_balance p = false)
    (Result.pairs (Result.data_scores (Result.fields d))) ->
  Result.save d = Normal tt.
Proof.
  intros Ha Hr Ht Hb. unfold Result.save, Result.validate.
  destruct (Result.data_answers (Result.fields d)) as [| a rest];
    [contradiction |].
  cbn [List.length Nat.ltb Nat.leb negb]. rewrite Hr, Ht. cbn [negb bind].
  unfold Result.pre_save.
  induction Hb as [| p ps Hp _ IH]; [reflexivity |].
  cbn [Result.check_pairs]. now rewrite Hp.
Qed.

Lemma round_count_scores (answers : list string) (q : QuestionCounts)
  (d : dimension) :
  tallies_match answers q -> round_counts q ->
  exists x y,
    whole_percent (first_score (scores_of answers q) d) x /\
    whole_percent (second_score (scores_of answers q) d) y /\
    (x + y = 100)%Z /\ (0 < pair_tally d answers)%nat.
Proof.
  intros Hm Hr.
  destruct (Hr d) as [n [Hn [Hpos Hdiv]]].
  rewrite scores_of_first, scores_of_second, Hn. cbn [ToNumber].
  assert (Hnt : n = Z.of_nat (pair_tally d answers)).
  { rewrite (Hm d) in Hn. injection Hn as <-. reflexivity. }
  unfold pair_tally in *.
  set (a := occurrences (first_letter d) answers) in *.
  set (b := occurrences (second_letter d) answers) in *.
  assert (Hle : (n <= 100)%Z) by (apply Z.divide_pos_le; [lia | exact Hdiv]).
  destruct Hdiv as [k Hk].
  assert (Hk0 : (0 < k)%Z) by nia.
  rewrite (percentage_exact a n (Z.of_nat a * k)) by (try nia; lia).
  rewrite (percentage_exact b n (Z.of_nat b * k)) by (try nia; lia).
  do 2 eexists. unfold whole_percent.
  split; [split; [reflexivity | nia] |].
  split; [split; [reflexivity | nia] |].
  split; [nia | lia].
Qed.

(** X6.  With matching tallies and question counts that divide 100 (the 10 and
    20 of the earlier version, for instance) every pair sums to exactly
    100 and [createNewResult] stores the result as the active one. *)
Theorem round_question_counts_store_the_result :
  forall (answers : list string) (q : QuestionCounts),
    tallies_match answers q ->
    round_counts q ->
    exists r,
      Assessment.calculateResult answers (Some q) = Normal r /\
      (forall d, js_eq (pair_sum (scores r) d) (Num 100) = true) /\
      forall db uid aid,
        Result.createNewResult db uid aid (resultData_of answers r) =
          (Result.deactivate uid db ++ [new_document uid aid answers r],
           Normal (new_document uid aid answers r)).
Proof.
  intros answers q Hm Hr. eexists. split; [apply calculateResult_returns |].
  set (s := scores_of answers q).
  assert (Hd : forall d, exists x y,
             first_score s d = num_of_Z x /\ second_score s d = num_of_Z y /\
             (0 <= x <= 100)%Z /\ (0 <= y <= 100)%Z /\ (x + y = 100)%Z).
  { intros d.
    destruct (round_count_scores answers q d Hm Hr)
      as [x [y [[Hx Bx] [[Hy By] [Hs _]]]]].
    exists x, y. auto. }
  split.
  - intros d. cbn [scores result_of_scores]. fold s.
    destruct (Hd d) as [x [y [Hx [Hy [_ [_ Hs]]]]]].
    unfold pair_sum. rewrite Hx, Hy.
    rewrite js_add_whole by (rewrite Hs; lia). rewrite Hs. reflexivity.
  - intros db uid aid.
    unfold Result.createNewResult, Result.create. fold (new_document uid aid answers
      (result_of_scores Assessment.closeThreshold s)).
    rewrite save_accepts; [reflexivity | | | |];
      unfold new_document;
      cbn [Result.fields Result.apply_setters Result.data_answers
           Result.data_scores Result.data_personalityType resultData_of
           scores personalityType result_of_scores].
    + destruct (round_count_scores answers q dimEI Hm Hr)
        as [_ [_ [_ [_ [_ Hpos]]]]].
      intros ->. unfold pair_tally in Hpos. cbn in Hpos. lia.
    + unfold Result.scores_in_range. cbn [forallb].
      destruct (Hd dimEI) as [x1 [y1 [Hx1 [Hy1 [Bx1 [By1 _]]]]]].
      destruct (Hd dimSN) as [x2 [y2 [Hx2 [Hy2 [Bx2 [By2 _]]]]]].
      destruct (Hd dimTF) as [x3 [y3 [Hx3 [Hy3 [Bx3 [By3 _]]]]]].
      destruct (Hd dimJP) as [x4 [y4 [Hx4 [Hy4 [Bx4 [By4 _]]]]]].
      cbn [first_score second_score] in *.
      rewrite (score_in_range_whole _ x1), (score_in_range_whole _ y1),
        (score_in_range_whole _ x2), (score_in_range_whole _ y2),
        (score_in_range_whole _ x3), (score_in_range_whole _ y3),
        (score_in_range_whole _ x4), (score_in_range_whole _ y4);
        try reflexivity; split; assumption.
    + apply type_of_scores_uppercase.
    + unfold Result.pairs.
      repeat constructor;
        [destruct (Hd dimEI) as [x [y [Hx [Hy [_ [_ Hs]]]]]]
        |destruct (Hd dimSN) as [x [y [Hx [Hy [_ [_ Hs]]]]]]
        |destruct (Hd dimTF) as [x [y [Hx [Hy [_ [_ Hs]]]]]]
        |destruct (Hd dimJP) as [x [y [Hx [Hy [_ [_ Hs]]]]]]];
        cbn [first_score second_score] in Hx, Hy; rewrite Hx, Hy;
        now apply whole_pair_in_balance.
Qed.

(** ** Scores and letters in terms of the tallies *)

Lemma js_ge_whole_false (x y : Z) :
  js_ge (num_of_Z x) (num_of_Z y) = false <-> (x < y)%Z.
Proof.
  unfold js_ge, num_of_Z. cbn [js_compare]. rewrite Qcompare_inject_Z.
  destruct (Z.compare_spec x y); split; intros; try reflexivity;
    try discriminate; lia.
Qed.

(** A nearest integer of an exact percentage, in integers. *)
Lemma nearest_percent_Z (count : nat) (n r : Z) :
  (0 < n)%Z ->
  nearest_integer (exact_percent count n) r ->
  (2 * (r * n) - n <= 200 * Z.of_nat count <= 2 * (r * n) + n)%Z.
Proof.
  intros Hn [H1 H2]. unfold exact_percent in *.
  assert (HA : (0 < inject_Z n)%Q)
    by (change 0%Q with (inject_Z 0); now rewrite <- Zlt_Qlt).
  set (v := (inject_Z (Z.of_nat count) / inject_Z n * 100)%Q) in *.
  assert (Hv : (v * inject_Z n == 100 * inject_Z (Z.of_nat count))%Q)
    by (unfold v; field; lra).
  assert (G1 : ((inject_Z r - (1 # 2)) * inject_Z n <= v * inject_Z n)%Q)
    by (apply Qmult_le_compat_r; lra).
  assert (G2 : (v * inject_Z n <= (inject_Z r + (1 # 2)) * inject_Z n)%Q)
    by (apply Qmult_le_compat_r; lra).
  split; rewrite Zle_Qle; unfold Z.sub;
    rewrite ?inject_Z_plus, ?inject_Z_opp, !inject_Z_mult;
    change (inject_Z 2) with 2%Q; change (inject_Z 200) with 200%Q; lra.
Qed.

(** X7.  With a positive question count, answers that hold a letter at least
    as often give it at least as high a percentage. *)
Theorem more_answers_never_lower_a_percentage :
  forall (answers answers' : list string) (q : QuestionCounts)
         (d : dimension) (n : Z),
    denominator q d = Some n -> (0 < n)%Z ->
    exists r r',
      Assessment.calculateResult answers (Some q) = Normal r /\
      Assessment.calculateResult answers' (Some q) = Normal r' /\
      ((occurrences (first_letter d) answers <=
        occurrences (first_letter d) answers')%nat ->
       js_le (first_score (scores r) d) (first_score (scores r') d) = true) /\
      ((occurrences (second_letter d) answers <=
        occurrences (second_letter d) answers')%nat ->
       js_le (second_score (scores r) d) (second_score (scores r') d) = true).
Proof.
  intros answers answers' q d n Hd Hn. do 2 eexists.
  split; [apply calculateResult_returns |].
  split; [apply calculateResult_returns |].
  cbn [scores result_of_scores].
  rewrite !scores_of_first, !scores_of_second, Hd. cbn [ToNumber].
  split; intros H; now apply percentage_monotone.
Qed.

(** X8.  With a positive question count the letter of a dimension is the first
    one whenever it was answered at least as often as the second; up to
    100 questions, and for an answers array of JavaScript, the second
    letter wins whenever it was answered more often.  Beyond 100 a narrow
    majority can round away: 50 E against 51 I over 101 questions give 50
    and 50, and the letter E. *)
Theorem the_majority_letter_is_selected :
  (forall (answers : list string) (q : QuestionCounts) (d : dimension) (n : Z),
     denominator q d = Some n -> (0 < n)%Z ->
     exists r,
       Assessment.calculateResult answers (Some q) = Normal r /\
       ((occurrences (second_letter d) answers <=
         occurrences (first_letter d) answers)%nat ->
        letter_of (personalityType r) d = first_letter d) /\
       ((n <= 100)%Z -> js_array answers ->
        (occurrences (first_letter d) answers <
         occurrences (second_letter d) answers)%nat ->
        letter_of (personalityType r) d = second_letter d)) /\
  (exists r,
     Assessment.calculateResult narrow_majority
       (Some (mkQuestionCounts (Some 101%Z) (Some 1%Z) (Some 1%Z) (Some 1%Z)))
       = Normal r /\
     extrovert (scores r) = Num 50 /\ introvert (scores r) = Num 50 /\
     letter_of (personalityType r) dimEI = "E").
Proof.
  split.
  - intros answers q d n Hd Hn. eexists.
    split; [apply calculateResult_returns |].
    cbn [personalityType result_of_scores]. rewrite letter_of_type.
    rewrite scores_of_first, scores_of_second, Hd. cbn [ToNumber].
    split.
    + intros Hab.
      pose proof (percentage_monotone _ _ n Hn Hab) as Hle.
      unfold js_le in Hle. now rewrite Hle.
    + intros Hsmall Hlen Hab. unfold js_array in Hlen.
      pose proof (occurrences_length (first_letter d) answers) as L1.
      pose proof (occurrences_length (second_letter d) answers) as L2.
      set (c1 := occurrences (first_letter d) answers) in *.
      set (c2 := occurrences (second_letter d) answers) in *.
      destruct (percentage_nearest c1 n ltac:(lia) ltac:(lia))
        as [r1 [-> N1]].
      destruct (percentage_nearest c2 n ltac:(lia) ltac:(lia))
        as [r2 [-> N2]].
      apply (nearest_percent_Z c1 n r1 Hn) in N1.
      apply (nearest_percent_Z c2 n r2 Hn) in N2.
      rewrite (proj2 (js_ge_whole_false r1 r2)); [reflexivity |].
      destruct (Z_lt_ge_dec r1 r2) as [Hlt | Hge]; [exact Hlt | exfalso].
      assert (Hp : (r2 * n <= r1 * n)%Z)
        by (apply Z.mul_le_mono_nonneg_r; lia).
      assert (Hn100 : n = 100%Z) by lia.
      subst n. lia.
  - eexists. split; [vm_compute; reflexivity |].
    split; [reflexivity |]. split; [reflexivity |]. reflexivity.
Qed.

(** ** Dimensions without a usable question count *)

Lemma In_firstn {A : Type} (n : nat) (l : list A) (x : A) :
  In x (firstn n l) -> In x l.
Proof.
  revert l. induction n as [| n IH]; intros [| y rest]; simpl; try tauto.
  intros [-> | Hin]; [now left | right; now apply IH].
Qed.

(** The flips of a type code at two dimensions differ. *)
Lemma flip_at_injective (s : Scores) (d d' : dimension) :
  flip_at (position d) (type_of_scores s) =
    flip_at (position d') (type_of_scores s) -> d = d'.
Proof.
  unfold type_of_scores.
  destruct (js_ge (extrovert s) (introvert s)),
           (js_ge (sensory s) (intuitive s)),
           (js_ge (thinking s) (feeling s)),
           (js_ge (judging s) (perceiving s));
    destruct d, d'; cbn; intros H; try reflexivity; discriminate H.
Qed.

(** An alternative that flips [d] comes from a close dimension [d]. *)
Lemma alternative_flips_close (th : Q) (s : Scores) (d : dimension) :
  let r := result_of_scores th s in
  alternativeType1 r = Some (flip_at (position d) (personalityType r)) \/
  alternativeType2 r = Some (flip_at (position d) (personalityType r)) ->
  close th s d = true.
Proof.
  cbn zeta. intros H.
  destruct (result_of_scores_alternatives th s) as [H1 H2]. cbn zeta in H1, H2.
  assert (Hin : In (flip_at (position d) (type_of_scores s))
                   (expected_alternatives th s (type_of_scores s))).
  { cbn [personalityType result_of_scores] in *.
    destruct H as [H | H]; [rewrite H1 in H | rewrite H2 in H];
      eapply nth_error_In; exact H. }
  unfold expected_alternatives in Hin. apply in_map_iff in Hin.
  destruct Hin as [d' [Hflip Hd']].
  apply flip_at_injective in Hflip. subst d'.
  apply In_firstn in Hd'. unfold close_dimensions in Hd'.
  apply filter_In in Hd'. tauto.
Qed.

Lemma close_needs_numbers (th : Q) (s : Scores) (d : dimension) :
  close th s d = true ->
  exists x y, first_score s d = Num x /\ second_score s d = Num y.
Proof.
  unfold close.
  destruct (first_score s d), (second_score s d); cbn; try discriminate.
  intros _. now do 2 eexists.
Qed.

(** X9.  A dimension whose question count is missing takes the second letter;
    one whose question count is zero takes the first letter only when
    both letters were answered (Infinity against Infinity), the second
    otherwise, even if only the first letter was answered.  In both cases
    the dimension is not close and no alternative flips it. *)
Theorem degenerate_dimension_falls_to_the_second_letter :
  forall (answers : list string) (q : QuestionCounts) (d : dimension),
    denominator q d = None \/ denominator q d = Some 0%Z ->
    exists r,
      Assessment.calculateResult answers (Some q) = Normal r /\
      (denominator q d = None ->
       letter_of (personalityType r) d = second_letter d) /\
      (denominator q d = Some 0%Z ->
       (letter_of (personalityType r) d = first_letter d <->
        (0 < occurrences (first_letter d) answers)%nat /\
        (0 < occurrences (second_letter d) answers)%nat) /\
       (letter_of (personalityType r) d = first_letter d \/
        letter_of (personalityType r) d = second_letter d)) /\
      alternativeType1 r <> Some (flip_at (position d) (personalityType r)) /\
      alternativeType2 r <> Some (flip_at (position d) (personalityType r)).
Proof.
  intros answers q d Hdeg. eexists.
  split; [apply calculateResult_returns |].
  set (s := scores_of answers q).
  assert (Hnum : ~ exists x y, first_score s d = Num x /\ second_score s d = Num y).
  { intros [x [y [Hx Hy]]]. unfold s in Hx, Hy.
    rewrite scores_of_first in Hx. rewrite scores_of_second in Hy.
    destruct Hdeg as [Hd | Hd]; rewrite Hd in Hx, Hy; cbn [ToNumber] in Hx, Hy.
    - discriminate Hx.
    - rewrite percentage_zero_denominator in Hx.
      destruct (occurrences (first_letter d) answers); discriminate Hx. }
  cbn [personalityType result_of_scores]. fold s.
  rewrite letter_of_type.
  split; [| split; [| split]].
  - intros Hd. unfold s. rewrite scores_of_first, scores_of_second, Hd.
    reflexivity.
  - intros Hd. unfold s. rewrite scores_of_first, scores_of_second, Hd.
    cbn [ToNumber]. rewrite !percentage_zero_denominator.
    assert (Hne : first_letter d <> second_letter d)
      by (destruct d; discriminate).
    destruct (occurrences (first_letter d) answers),
             (occurrences (second_letter d) answers); cbn;
      (split; [split; [intros H; try (split; lia); congruence
                      | intros [? ?]; try reflexivity; lia]
              | auto]).
  - intros H. apply Hnum.
    apply (close_needs_numbers Assessment.closeThreshold).
    apply alternative_flips_close. left. exact H.
  - intros H. apply Hnum.
    apply (close_needs_numbers Assessment.closeThreshold).
    apply alternative_flips_close. right. exact H.
Qed.

(** ** The active result of a user *)

Lemma active_deactivate_same (uid : nat) (db : list Result.ResultDoc) :
  active_results uid (Result.deactivate uid db) = [].
Proof.
  unfold active_results, Result.deactivate.
  induction db as [| d rest IH]; [reflexivity |].
  cbn [map filter].
  destruct ((Result.userId d =? uid)%nat && Result.isActive d) eqn:Hd.
  - cbn [Result.userId Result.isActive]. rewrite andb_false_r. exact IH.
  - rewrite Hd. exact IH.
Qed.

Lemma active_deactivate_other (uid uid' : nat) (db : list Result.ResultDoc) :
  uid' <> uid ->
  active_results uid' (Result.deactivate uid db) = active_results uid' db.
Proof.
  intros Hne. unfold active_results, Result.deactivate.
  induction db as [| d rest IH]; [reflexivity |].
  cbn [map filter].
  destruct ((Result.userId d =? uid)%nat && Result.isActive d) eqn:Hd.
  - apply andb_prop in Hd. destruct Hd as [Hu Ha].
    apply Nat.eqb_eq in Hu. cbn [Result.userId Result.isActive].
    rewrite Hu. rewrite (proj2 (Nat.eqb_neq uid uid')) by congruence.
    cbn [andb]. exact IH.
  - rewrite IH. reflexivity.
Qed.

Lemma content_deactivate (uid : nat) (db : list Result.ResultDoc) :
  map content_of (Result.deactivate uid db) = map content_of db.
Proof.
  unfold Result.deactivate. rewrite map_map. apply map_ext.
  intros d. destruct (_ && _); reflexivity.
Qed.

Lemma active_results_app (uid : nat) (a b : list Result.ResultDoc) :
  active_results uid (a ++ b) = active_results uid a ++ active_results uid b.
Proof. apply filter_app. Qed.

Lemma find_single {A : Type} (f : A -> bool) (l : list A) (x : A) :
  filter f l = [x] -> find f l = Some x.
Proof.
  induction l as [| y rest IH]; [discriminate |].
  cbn. destruct (f y); [congruence | exact IH].
Qed.

Lemma find_none_filter {A : Type} (f : A -> bool) (l : list A) :
  filter f l = [] -> find f l = None.
Proof.
  induction l as [| y rest IH]; [reflexivity |].
  cbn. destruct (f y); [discriminate | exact IH].
Qed.

(** The two outcomes of [createNewResult]. *)
Lemma createNewResult_cases (db : list Result.ResultDoc) (uid aid : nat)
  (data : Result.ResultData) :
  let doc := Result.mkResultDoc uid aid (Result.apply_setters data) true in
  Result.createNewResult db uid aid data =
    (Result.deactivate uid db ++ [doc], Normal doc) \/
  exists e,
    Result.createNewResult db uid aid data =
      (Result.deactivate uid db, Throw e).
Proof.
  cbn zeta. unfold Result.createNewResult, Result.create.
  destruct (Result.save _) as [u | e]; [left | right; exists e]; reflexivity.
Qed.

(** X10.  After [createNewResult] the active results of the user are the stored
    document alone, and none when the save threw: whatever was active
    before is inactive either way.  [getActiveResult] answers
    accordingly. *)
Theorem createNewResult_leaves_one_active_result_or_none :
  forall (db : list Result.ResultDoc) (uid aid : nat)
         (data : Result.ResultData),
    let out := Result.createNewResult db uid aid data in
    match snd out with
    | Normal doc =>
        Result.userId doc = uid /\ Result.isActive doc = true /\
        Result.fields doc = Result.apply_setters data /\
        active_results uid (fst out) = [doc] /\
        Result.getActiveResult (fst out) uid = Some doc /\
        List.length (fst out) = S (List.length db)
    | Throw _ =>
        active_results uid (fst out) = [] /\
        Result.getActiveResult (fst out) uid = None /\
        List.length (fst out) = List.length db
    end.
Proof.
  intros db uid aid data. cbn zeta.
  destruct (createNewResult_cases db uid aid data) as [H | [e H]];
    cbn zeta in H; rewrite H; cbn [fst snd].
  - assert (Ha : active_results uid
                   (Result.deactivate uid db ++
                    [Result.mkResultDoc uid aid (Result.apply_setters data) true])
                 = [Result.mkResultDoc uid aid (Result.apply_setters data) true]).
    { rewrite active_results_app, active_deactivate_same.
      unfold active_results. cbn. now rewrite Nat.eqb_refl. }
    repeat split; try reflexivity.
    + exact Ha.
    + apply find_single. exact Ha.
    + rewrite length_app. unfold Result.deactivate. rewrite length_map.
      cbn. lia.
  - repeat split.
    + apply active_deactivate_same.
    + apply find_none_filter. apply active_deactivate_same.
    + unfold Result.deactivate. apply length_map.
Qed.

Lemma getActiveResult_deactivate_other (uid uid' : nat)
  (db : list Result.ResultDoc) :
  uid' <> uid ->
  Result.getActiveResult (Result.deactivate uid db) uid' =
    Result.getActiveResult db uid'.
Proof.
  intros Hne. unfold Result.getActiveResult, Result.deactivate.
  induction db as [| d rest IH]; [reflexivity |].
  cbn [map find].
  destruct ((Result.userId d =? uid)%nat && Result.isActive d) eqn:Hd.
  - apply andb_prop in Hd. destruct Hd as [Hu Hact].
    apply Nat.eqb_eq in Hu. cbn [Result.userId Result.isActive].
    rewrite Hu, (proj2 (Nat.eqb_neq uid uid')) by congruence.
    cbn [andb]. exact IH.
  - now rewrite IH.
Qed.

Lemma find_app_last {A : Type} (f : A -> bool) (l : list A) (x : A) :
  f x = false -> find f (l ++ [x]) = find f l.
Proof.
  intros Hx. induction l as [| y rest IH]; cbn.
  - now rewrite Hx.
  - destruct (f y); [reflexivity | exact IH].
Qed.

(** X11.  [createNewResult] for one user leaves the active results of every
    other user as they were, and it never removes a document or changes
    the ids and fields of one: the earlier documents, flags aside, are a
    prefix of the collection. *)
Theorem createNewResult_keeps_the_other_documents :
  forall (db : list Result.ResultDoc) (uid aid : nat)
         (data : Result.ResultData),
    let db' := fst (Result.createNewResult db uid aid data) in
    (forall uid', uid' <> uid ->
       active_results uid' db' = active_results uid' db /\
       Result.getActiveResult db' uid' = Result.getActiveResult db uid') /\
    firstn (List.length db) (map content_of db') = map content_of db.
Proof.
  intros db uid aid data. cbn zeta.
  destruct (createNewResult_cases db uid aid data) as [H | [e H]];
    cbn zeta in H; rewrite H; cbn [fst]; split.
  - intros uid' Hne.
    assert (Hnew : (fun d => (Result.userId d =? uid')%nat && Result.isActive d)
                     (Result.mkResultDoc uid aid
                        (Result.apply_setters data) true) = false).
    { cbn. now rewrite (proj2 (Nat.eqb_neq uid uid')) by congruence. }
    split.
    + rewrite active_results_app. unfold active_results at 2.
      cbn [filter]. rewrite Hnew, app_nil_r.
      now apply active_deactivate_other.
    + unfold Result.getActiveResult. rewrite find_app_last by exact Hnew.
      now apply getActiveResult_deactivate_other.
  - rewrite map_app, content_deactivate.
    rewrite <- (length_map content_of db), firstn_app, Nat.sub_diag.
    cbn [firstn]. rewrite firstn_all. apply app_nil_r.
  - intros uid' Hne.
    split; [now apply active_deactivate_other
           | now apply getActiveResult_deactivate_other].
  - rewrite content_deactivate, <- (length_map content_of db).
    apply firstn_all.
Qed.

(** X12.  In a collection that [createNewResult] built, no user has two active
    results. *)
Theorem reachable_collections_have_one_active_result :
  forall db : list Result.ResultDoc,
    reachable db ->
    forall uid, (List.length (active_results uid db) <= 1)%nat.
Proof.
  induction 1 as [| db uid aid data Hreach IH]; intros uid'.
  - cbn. lia.
  - destruct (Nat.eq_dec uid' uid) as [-> | Hne].
    + pose proof (createNewResult_cases db uid aid data) as Hc.
      cbn zeta in Hc. destruct Hc as [H | [e H]]; rewrite H; cbn [fst].
      * rewrite active_results_app, active_deactivate_same.
        unfold active_results. cbn. rewrite Nat.eqb_refl. cbn. lia.
      * rewrite active_deactivate_same. cbn. lia.
    + pose proof (createNewResult_cases db uid aid data) as Hc.
      cbn zeta in Hc. destruct Hc as [H | [e H]]; rewrite H; cbn [fst].
      * rewrite active_results_app, active_deactivate_other by exact Hne.
        unfold active_results at 2. cbn.
        rewrite (proj2 (Nat.eqb_neq uid uid')) by congruence.
        cbn. rewrite app_nil_r. apply IH.
      * rewrite active_deactivate_other by exact Hne. apply IH.
Qed.

(** ** Points of a user *)

Lemma sum_of_app (a b : list Z) : sum_of (a ++ b) = (sum_of a + sum_of b)%Z.
Proof.
  unfold sum_of. induction a as [| x rest IH]; cbn; lia.
Qed.

Lemma num_of_Z_injective (a b : Z) : num_of_Z a = num_of_Z b -> a = b.
Proof. unfold num_of_Z, inject_Z. intros H. now injection H. Qed.

Lemma awardPoints_document (validate : User.UserDoc -> completion unit)
  (this : User.UserDoc) (pts : number) (why : string)
  (content : option string) (now : N) :
  fst (User.awardPoints validate this pts why content now) =
    User.with_points this (js_add (User.totalPoints this) pts)
      (User.pointsHistory this ++ [User.mkPointsEntry pts why content now]).
Proof. reflexivity. Qed.

(** An award of safe points keeps the ledger. *)
Lemma ledger_award (this base : User.UserDoc) (gap : Z) (pts : number)
  (why : string) (content : option string) (now : N) :
  User.totalPoints base = User.totalPoints this ->
  User.pointsHistory base = User.pointsHistory this ->
  ledger this gap -> safe_award this pts ->
  ledger
    (User.with_points base (js_add (User.totalPoints base) pts)
       (User.pointsHistory base ++ [User.mkPointsEntry pts why content now]))
    gap.
Proof.
  intros Ht Hh [t [hs [Htot [Hhist ->]]]] [t' [p [Htot' [-> Hsafe]]]].
  rewrite Htot in Htot'. apply num_of_Z_injective in Htot'. subst t'.
  exists (t + p)%Z, (hs ++ [p]).
  cbn [User.with_points User.totalPoints User.pointsHistory].
  rewrite Ht, Hh, Htot. split; [| split].
  - now apply js_add_whole.
  - rewrite !map_app, Hhist. reflexivity.
  - rewrite sum_of_app. cbn. lia.
Qed.

(** Beyond the safe integers an award is lost: at [2 ^ 53] one more
    point leaves the total where it is, and joins the history. *)
Lemma unsafe_award_loses_points
  (validate : User.UserDoc -> completion unit) (this : User.UserDoc)
  (why : string) (content : option string) (now : N) :
  User.totalPoints this = num_of_Z (2 ^ 53) ->
  let out := fst (User.awardPoints validate this (Num 1) why content now) in
  User.totalPoints out = num_of_Z (2 ^ 53) /\
  User.pointsHistory out =
    User.pointsHistory this ++ [User.mkPointsEntry (Num 1) why content now].
Proof.
  intros Ht. cbn zeta. rewrite awardPoints_document.
  cbn [User.with_points User.totalPoints User.pointsHistory].
  rewrite Ht. split; [vm_compute |]; reflexivity.
Qed.

(** X13.  Within the safe integers every method keeps [totalPoints] in step
    with [pointsHistory]: when the total and the points of the history are
    integers, and the points awarded are an integer that the total can
    take exactly, the difference between the total and the sum of the
    history is the same after the call as before, whether [save] accepted
    the document or threw. *)
Theorem methods_keep_points_and_history_in_step :
  forall (validate : User.UserDoc -> completion unit)
         (start_of_day : N -> N) (this : User.UserDoc) (gap : Z),
    ledger this gap ->
    (forall pts why content now,
       safe_award this pts ->
       ledger (fst (User.awardPoints validate this pts why content now)) gap) /\
    (forall id kind now,
       ledger (fst (User.startContent validate this id kind now)) gap) /\
    (forall id spent pts now1 now2,
       safe_award this pts ->
       ledger (fst (User.completeContent validate this id spent pts
                      now1 now2)) gap) /\
    (forall mail pass uname pts now1 now2,
       safe_award this pts ->
       ledger (fst (User.convertToRegistered validate this mail pass
                      uname pts now1 now2)) gap) /\
    (forall pts now1 now2 now3,
       safe_award this pts ->
       ledger (fst (User.awardDailyLogin validate start_of_day this pts
                      now1 now2 now3)) gap).
Proof.
  intros validate start_of_day this gap Hl. repeat split.
  - intros pts why content now Hs. rewrite awardPoints_document.
    now apply (ledger_award this this).
  - intros id kind now. unfold User.startContent.
    destruct (User.find_progress this id); exact Hl.
  - intros id spent pts now1 now2 Hs. unfold User.completeContent.
    destruct (User.find_progress this id) as [progress |]; [| exact Hl].
    destruct (negb (User.pointsAwarded progress)); [| exact Hl].
    unfold User.awardPoints. cbn [fst].
    now apply (ledger_award this).
  - intros mail pass uname pts now1 now2 Hs. unfold User.convertToRegistered.
    destruct (User.userType this); [| exact Hl].
    unfold User.awardPoints. cbn [fst].
    now apply (ledger_award this).
  - intros pts now1 now2 now3 Hs. unfold User.awardDailyLogin.
    destruct (match option_map start_of_day (User.lastLoginDate this) with
              | Some l => (l <? start_of_day now1)%N
              | None => true
              end); [| exact Hl].
    unfold User.awardPoints. cbn [fst].
    now apply (ledger_award this).
Qed.

(** ** Reading progress *)

Lemma find_complete_first (progress : list User.Progress) (id : string)
  (date : N) (spent : number) (cp : User.Progress) :
  find (fun p => String.eqb (User.contentId p) id) progress = Some cp ->
  find (fun p => String.eqb (User.contentId p) id)
       (User.complete_first progress id date spent) =
    Some (User.mkProgress (User.contentId cp) (User.contentType cp)
            (User.startedAt cp) (Some date) spent true).
Proof.
  induction progress as [| p rest IH]; [discriminate |].
  cbn [find User.complete_first].
  destruct (String.eqb (User.contentId p) id) eqn:Hp.
  - intros H. injection H as <-. cbn [find User.contentId]. now rewrite Hp.
  - intros H. cbn [find]. rewrite Hp. now apply IH.
Qed.

Lemma filter_complete_first_other (progress : list User.Progress)
  (id id' : string) (date : N) (spent : number) :
  id' <> id ->
  filter (fun p => String.eqb (User.contentId p) id')
         (User.complete_first progress id date spent) =
  filter (fun p => String.eqb (User.contentId p) id') progress.
Proof.
  intros Hne. induction progress as [| p rest IH]; [reflexivity |].
  cbn [User.complete_first].
  destruct (String.eqb (User.contentId p) id) eqn:Hp.
  - apply String.eqb_eq in Hp. cbn [filter User.contentId].
    rewrite Hp, (proj2 (String.eqb_neq id id')) by congruence. reflexivity.
  - cbn [filter]. now rewrite IH.
Qed.

Section Reading.

Variable validate : User.UserDoc -> completion unit.

Lemma completeContent_read (this : User.UserDoc) (id : string)
  (spent pts : number) (now1 now2 : N) :
  User.hasReadContent this id = true ->
  fst (User.completeContent validate this id spent pts now1 now2) = this.
Proof.
  unfold User.hasReadContent, User.completeContent.
  destruct (User.find_progress this id) as [p |]; [| discriminate].
  intros ->. reflexivity.
Qed.

Lemma completeContent_unread (this : User.UserDoc) (id : string)
  (spent pts : number) (now1 now2 : N) (p : User.Progress) :
  User.find_progress this id = Some p ->
  User.pointsAwarded p = false ->
  fst (User.completeContent validate this id spent pts now1 now2) =
    User.with_points
      (User.with_progress this
         (User.complete_first (User.contentProgress this) id now1 spent))
      (js_add (User.totalPoints this) pts)
      (User.pointsHistory this ++
       [User.mkPointsEntry pts "read_content" (Some id) now2]).
Proof.
  intros Hf Ha. unfold User.completeContent. rewrite Hf, Ha. reflexivity.
Qed.

Lemma hasReadContent_after_complete (this : User.UserDoc) (id : string)
  (spent pts : number) (now1 now2 : N) :
  User.find_progress this id <> None ->
  User.hasReadContent
    (fst (User.completeContent validate this id spent pts now1 now2)) id
  = true.
Proof.
  intros Hs.
  destruct (User.find_progress this id) as [p |] eqn:Hf; [| contradiction].
  destruct (User.pointsAwarded p) eqn:Ha.
  - rewrite completeContent_read;
      unfold User.hasReadContent; now rewrite Hf.
  - rewrite (completeContent_unread this id spent pts now1 now2 p Hf Ha).
    unfold User.hasReadContent, User.find_progress in *.
    cbn [User.with_points User.with_progress User.contentProgress].
    now rewrite (find_complete_first _ id now1 spent p Hf).
Qed.

End Reading.

(** X14.  [completeContent] throws on a content that was not started and
    leaves the document alone; on a started one it marks the content
    read and, only if it was not read yet, adds the reading points, once:
    a call on a content already read changes nothing. *)
Theorem reading_points_are_awarded_once :
  forall (validate : User.UserDoc -> completion unit) (this : User.UserDoc)
         (id : string) (spent pts : number) (now1 now2 : N),
    let out := User.completeContent validate this id spent pts now1 now2 in
    (~ started this id ->
     out = (this, Throw (JsError "Content not started yet"))) /\
    (started this id -> User.hasReadContent (fst out) id = true) /\
    (User.hasReadContent this id = true -> fst out = this) /\
    (started this id -> User.hasReadContent this id = false ->
     User.totalPoints (fst out) = js_add (User.totalPoints this) pts /\
     User.pointsHistory (fst out) =
       User.pointsHistory this ++
       [User.mkPointsEntry pts "read_content" (Some id) now2]) /\
    (forall spent' pts' now1' now2',
       started this id ->
       fst (User.completeContent validate (fst out) id spent' pts' now1' now2')
       = fst out).
Proof.
  intros validate this id spent pts now1 now2. cbn zeta. unfold started.
  split; [| split; [| split; [| split]]].
  - intros Hn. unfold User.completeContent.
    destruct (User.find_progress this id); [exfalso; apply Hn; discriminate |].
    reflexivity.
  - apply hasReadContent_after_complete.
  - apply completeContent_read.
  - intros Hs Hr.
    destruct (User.find_progress this id) as [p |] eqn:Hf; [| contradiction].
    assert (Ha : User.pointsAwarded p = false).
    { unfold User.hasReadContent in Hr. now rewrite Hf in Hr. }
    rewrite (completeContent_unread validate this id spent pts now1 now2 p Hf Ha).
    split; reflexivity.
  - intros spent' pts' now1' now2' Hs.
    apply completeContent_read. now apply hasReadContent_after_complete.
Qed.

Lemma find_some_filter {A : Type} (f : A -> bool) (l : list A) (x : A) :
  find f l = Some x -> filter f l <> [].
Proof.
  induction l as [| y rest IH]; [discriminate |].
  cbn. destruct (f y); [discriminate | exact IH].
Qed.

(** X15.  [startContent] adds one progress entry for a content that has none
    and nothing for a content that has one: the number of entries of the
    content never grows beyond one, the entries of other contents stay,
    and a second call returns the entry of the first without a write. *)
Theorem a_content_is_started_once :
  forall (validate : User.UserDoc -> completion unit) (this : User.UserDoc)
         (id kind : string) (now : N),
    let out := User.startContent validate this id kind now in
    started (fst out) id /\
    (~ started this id ->
     User.contentProgress (fst out) =
       User.contentProgress this ++
       [User.mkProgress id kind now None (Num 0) false] /\
     entries_of id (fst out) = [User.mkProgress id kind now None (Num 0) false]) /\
    (forall entry,
       User.find_progress this id = Some entry ->
       out = (this, Normal entry)) /\
    (forall id', id' <> id -> entries_of id' (fst out) = entries_of id' this) /\
    (forall kind' now', exists entry,
       User.find_progress (fst out) id = Some entry /\
       User.startContent validate (fst out) id kind' now' =
         (fst out, Normal entry)).
Proof.
  intros validate this id kind now. cbn zeta.
  unfold started, User.startContent.
  destruct (User.find_progress this id) as [entry |] eqn:Hf; cbn [fst].
  - split; [congruence |].
    split; [intros H; exfalso; apply H; discriminate |].
    split; [intros entry' He; now injection He as <- |].
    split; [reflexivity |].
    intros kind' now'. exists entry. split; [exact Hf |].
    unfold User.startContent. now rewrite Hf.
  - assert (Hnone : entries_of id this = []).
    { unfold entries_of, User.find_progress in *.
      induction (User.contentProgress this) as [| p rest IH];
        [reflexivity |].
      cbn in *. destruct (String.eqb (User.contentId p) id);
        [discriminate | now apply IH]. }
    assert (Hnew :
      User.find_progress
        (User.with_progress this
           (User.contentProgress this ++
            [User.mkProgress id kind now None (Num 0) false])) id =
      Some (User.mkProgress id kind now None (Num 0) false)).
    { unfold User.find_progress in *.
      cbn [User.with_progress User.contentProgress].
      induction (User.contentProgress this) as [| p rest IH].
      - cbn. now rewrite String.eqb_refl.
      - cbn in *. destruct (String.eqb (User.contentId p) id);
          [discriminate | now apply IH]. }
    split; [congruence |].
    split.
    + intros _. split; [reflexivity |].
      unfold entries_of in *.
      cbn [User.with_progress User.contentProgress].
      rewrite filter_app, Hnone. cbn. now rewrite String.eqb_refl.
    + split; [discriminate |].
      split.
      * intros id' Hne. unfold entries_of.
        cbn [User.with_progress User.contentProgress].
        rewrite filter_app. cbn.
        rewrite (proj2 (String.eqb_neq id id')) by congruence.
        apply app_nil_r.
      * intros kind' now'. eexists. split; [exact Hnew |].
        unfold User.startContent. now rewrite Hnew.
Qed.

(** ** Registration *)

(** X16.  [convertToRegistered] refuses a registered user and leaves it alone.
    A guest becomes registered in memory whatever [save] does, with the
    e-mail and user name lower-cased and trimmed and one registration
    entry in the history, so that a second call on the document is
    refused even after a failed save.  With an e-mail, password or user
    name that is empty once the setters ran, the call always throws. *)
Theorem a_guest_is_converted_once :
  forall (validate : User.UserDoc -> completion unit) (this : User.UserDoc)
         (mail pass uname : string) (pts : number) (now1 now2 : N),
    let out :=
      User.convertToRegistered validate this mail pass uname pts now1 now2 in
    (User.userType this = User.registered ->
     out = (this, Throw (JsError "User is already registered"))) /\
    (User.userType this = User.guest ->
     User.userType (fst out) = User.registered /\
     User.email (fst out) = Some (User.trim (User.lowercase mail)) /\
     User.password (fst out) = Some pass /\
     User.username (fst out) = Some (User.trim (User.lowercase uname)) /\
     User.convertedToRegisteredAt (fst out) = Some now1 /\
     User.totalPoints (fst out) = js_add (User.totalPoints this) pts /\
     User.pointsHistory (fst out) =
       User.pointsHistory this ++
       [User.mkPointsEntry pts "registration" None now2]) /\
    (forall mail' pass' uname' pts' now1' now2',
       User.convertToRegistered validate (fst out) mail' pass' uname' pts'
         now1' now2' =
       (fst out, Throw (JsError "User is already registered"))) /\
    (User.userType this = User.guest ->
     User.trim (User.lowercase mail) = "" \/ pass = "" \/
     User.trim (User.lowercase uname) = "" ->
     fails (snd out)).
Proof.
  intros validate this mail pass uname pts now1 now2. cbn zeta.
  unfold User.convertToRegistered.
  destruct (User.userType this) eqn:Ht.
  - unfold User.awardPoints. cbn [fst snd].
    split; [discriminate |].
    split; [intros _; repeat split |].
    split; [intros; reflexivity |].
    intros _ Hempty.
    unfold User.save, User.set_lower_trimmed.
    destruct (validate _) as [u |]; cbn [bind]; [| eexists; reflexivity].
    unfold User.pre_save.
    cbn [User.with_points User.with_registration User.userType User.email
         User.password User.username User.present].
    unfold User.set_lower_trimmed.
    destruct Hempty as [-> | [-> | ->]]; cbn [truthy String.eqb negb].
    + eexists. reflexivity.
    + destruct (truthy (User.trim (User.lowercase mail))); cbn [negb bind];
        eexists; reflexivity.
    + destruct (truthy (User.trim (User.lowercase mail))); cbn [negb bind];
        [| eexists; reflexivity].
      destruct (truthy pass); cbn [negb bind]; eexists; reflexivity.
  - cbn [fst snd].
    split; [reflexivity |].
    split; [discriminate |].
    split; [| discriminate].
    intros. unfold User.convertToRegistered. now rewrite Ht.
Qed.

(** ** Daily login *)

(** X17.  [awardDailyLogin] awards when there is no last login or its local day
    is before the day of [now1]: the login date becomes [now2] and one
    daily entry joins the history.  Otherwise it returns [false] and
    changes nothing.  After an award, a call on the same local day as the
    recorded login awards nothing more. *)
Theorem daily_login_points_are_awarded_once_a_day :
  forall (validate : User.UserDoc -> completion unit)
         (start_of_day : N -> N) (this : User.UserDoc) (pts : number)
         (now1 now2 now3 : N),
    let out :=
      User.awardDailyLogin validate start_of_day this pts now1 now2 now3 in
    (logged_in_today start_of_day this now1 -> out = (this, Normal false)) /\
    (~ logged_in_today start_of_day this now1 ->
     User.lastLoginDate (fst out) = Some now2 /\
     User.totalPoints (fst out) = js_add (User.totalPoints this) pts /\
     User.pointsHistory (fst out) =
       User.pointsHistory this ++
       [User.mkPointsEntry pts "daily_login" None now3] /\
     (snd out = Normal true \/ fails (snd out)) /\
     forall pts' now1' now2' now3',
       (start_of_day now1' <= start_of_day now2)%N ->
       User.awardDailyLogin validate start_of_day (fst out) pts'
         now1' now2' now3' = (fst out, Normal false)).
Proof.
  intros validate start_of_day this pts now1 now2 now3. cbn zeta.
  assert (Hlater :
    forall d last now,
      User.lastLoginDate d = Some last ->
      (start_of_day now <= start_of_day last)%N ->
      forall p n2 n3,
        User.awardDailyLogin validate start_of_day d p now n2 n3 =
          (d, Normal false)).
  { intros d last now Hl Hle p n2 n3. unfold User.awardDailyLogin.
    rewrite Hl. cbn [option_map].
    rewrite (proj2 (N.ltb_ge _ _)) by exact Hle. reflexivity. }
  split.
  - intros [last [Hl Hle]]. now apply (Hlater this last now1).
  - intros Hnot. unfold User.awardDailyLogin.
    assert (Hdue :
      match option_map start_of_day (User.lastLoginDate this) with
      | Some l => (l <? start_of_day now1)%N
      | None => true
      end = true).
    { destruct (User.lastLoginDate this) as [last |] eqn:Hl; [| reflexivity].
      cbn [option_map]. apply N.ltb_lt.
      destruct (N.lt_ge_cases (start_of_day last) (start_of_day now1))
        as [Hlt | Hge]; [exact Hlt |].
      exfalso. apply Hnot. exists last. split; [exact Hl | exact Hge]. }
    rewrite Hdue. unfold User.awardPoints. cbn [fst snd].
    repeat split.
    + destruct (User.save validate _); cbn [bind];
        [now left | right; eexists; reflexivity].
    + intros pts' now1' now2' now3' Hle.
      apply (Hlater _ now2 now1'); [reflexivity | exact Hle].
Qed.

(** ** The submission route *)

Lemma existsb_eqb_In (x : nat) (l : list nat) :
  existsb (Nat.eqb x) l = true <-> In x l.
Proof.
  rewrite existsb_exists. split.
  - intros [y [Hin Heq]]. apply Nat.eqb_eq in Heq. now subst.
  - intros Hin. exists x. split; [exact Hin | apply Nat.eqb_refl].
Qed.

Section RouteFacts.

Variable validate_user : User.UserDoc -> completion unit.

(** The route on a well-formed request whose guest the User validators
    accept. *)
Lemma handle_well_formed (db : SubmitRoute.Db) (body : SubmitRoute.Body)
  (now : N) (aid : nat) (ans : list string) (q : QuestionCounts) :
  well_formed_request db body aid ans q ->
  let r := result_of_scores Assessment.closeThreshold (scores_of ans q) in
  let g := guest_of db body now r in
  validate_user g = Normal tt ->
  SubmitRoute.handle validate_user db body now =
    let '(results1, stored) :=
      Result.createNewResult (SubmitRoute.results db) (User._id g) aid
        (resultData_of ans r) in
    (SubmitRoute.mkDb (SubmitRoute.assessments db)
       (SubmitRoute.users db ++ [g]) results1,
     match stored with
     | Normal _ => SubmitRoute.Ok (User._id g) (personalityType r)
     | Throw e => SubmitRoute.ServerError e
     end).
Proof.
  intros [Haid [Hans [Hq Hin]]]. cbn zeta. intros Hv.
  unfold SubmitRoute.handle. rewrite Haid, Hans, Hq.
  rewrite (proj2 (existsb_eqb_In aid _) Hin). cbn [negb].
  rewrite calculateResult_returns.
  fold (guest_name_of body now).
  fold (guest_of db body now
          (result_of_scores Assessment.closeThreshold (scores_of ans q))).
  unfold User.create, User.save. rewrite Hv. cbn [bind].
  assert (Hhook : User.pre_save
            (guest_of db body now
               (result_of_scores Assessment.closeThreshold (scores_of ans q)))
          = Normal tt) by reflexivity.
  rewrite Hhook. cbn [bind].
  destruct (Result.createNewResult _ _ _ _) as [results1 [stored | e]];
    reflexivity.
Qed.

End RouteFacts.


Lemma new_object_id_fresh (users : list User.UserDoc) :
  ~ In (User.new_object_id users) (map User._id users).
Proof.
  assert (H : forall x, In x (map User._id users) ->
                        (x < User.new_object_id users)%nat).
  { unfold User.new_object_id.
    induction users as [| u rest IH]; [contradiction |].
    cbn [map fold_right]. intros x [<- | Hin]; [lia |].
    specialize (IH x Hin). lia. }
  intros Hin. specialize (H _ Hin). lia.
Qed.

Lemma save_cases (d : Result.ResultDoc) :
  Result.save d = Normal tt \/ exists e, Result.save d = Throw e.
Proof.
  destruct (Result.save d) as [[] | e]; [now left | right; now exists e].
Qed.

(** X19.  On a well-formed request whose guest passes the User validators, the
    route first adds the guest user, with the type of the result, under
    an id no user has.  If the result is then saved, the response is 200
    with that user id and type, and the result is the one active result
    of the guest. *)
Theorem a_stored_submission_belongs_to_a_new_guest :
  forall (validate_user : User.UserDoc -> completion unit)
         (db : SubmitRoute.Db) (body : SubmitRoute.Body) (now : N)
         (aid : nat) (ans : list string) (q : QuestionCounts),
    well_formed_request db body aid ans q ->
    let r := result_of_scores Assessment.closeThreshold (scores_of ans q) in
    let g := guest_of db body now r in
    let doc := new_document (User._id g) aid ans r in
    validate_user g = Normal tt ->
    Result.save doc = Normal tt ->
    let out := SubmitRoute.handle validate_user db body now in
    Assessment.calculateResult ans (Some q) = Normal r /\
    snd out = SubmitRoute.Ok (User._id g) (personalityType r) /\
    SubmitRoute.users (fst out) = SubmitRoute.users db ++ [g] /\
    ~ In (User._id g) (map User._id (SubmitRoute.users db)) /\
    User.userType g = User.guest /\
    User.personalityType g =
      Some (Result.data_personalityType (Result.fields doc)) /\
    SubmitRoute.results (fst out) =
      Result.deactivate (User._id g) (SubmitRoute.results db) ++ [doc] /\
    Result.getActiveResult (SubmitRoute.results (fst out)) (User._id g) =
      Some doc.
Proof.
  intros validate_user db body now aid ans q Hwf. cbn zeta. intros Hv Hs.
  rewrite (handle_well_formed validate_user db body now aid ans q Hwf Hv).
  split; [apply calculateResult_returns |].
  unfold Result.createNewResult, Result.create.
  fold (new_document (User._id (guest_of db body now
          (result_of_scores Assessment.closeThreshold (scores_of ans q))))
          aid ans
          (result_of_scores Assessment.closeThreshold (scores_of ans q))).
  rewrite Hs. cbn [fst snd SubmitRoute.users SubmitRoute.results].
  repeat split.
  - apply new_object_id_fresh.
  - apply find_single.
    change (active_results
              (User._id (guest_of db body now
                 (result_of_scores Assessment.closeThreshold (scores_of ans q))))
              (Result.deactivate
                 (User._id (guest_of db body now
                    (result_of_scores Assessment.closeThreshold
                       (scores_of ans q))))
                 (SubmitRoute.results db) ++
               [new_document
                  (User._id (guest_of db body now
                     (result_of_scores Assessment.closeThreshold
                        (scores_of ans q))))
                  aid ans
                  (result_of_scores Assessment.closeThreshold
                     (scores_of ans q))]) =
            [new_document
               (User._id (guest_of db body now
                  (result_of_scores Assessment.closeThreshold
                     (scores_of ans q))))
               aid ans
               (result_of_scores Assessment.closeThreshold (scores_of ans q))]).
    rewrite active_results_app, active_deactivate_same.
    unfold active_results, new_document. cbn. now rewrite Nat.eqb_refl.
Qed.

(** X20.  When the save of the result throws, on an empty array of answers for
    one, the response is 500 and no result is stored, but the guest user
    created for the submission stays in the collection. *)
Theorem a_failed_save_leaves_the_guest_behind :
  forall (validate_user : User.UserDoc -> completion unit)
         (db : SubmitRoute.Db) (body : SubmitRoute.Body) (now : N)
         (aid : nat) (ans : list string) (q : QuestionCounts),
    well_formed_request db body aid ans q ->
    let r := result_of_scores Assessment.closeThreshold (scores_of ans q) in
    let g := guest_of db body now r in
    let doc := new_document (User._id g) aid ans r in
    validate_user g = Normal tt ->
    let out := SubmitRoute.handle validate_user db body now in
    (forall e,
       Result.save doc = Throw e ->
       snd out = SubmitRoute.ServerError e /\
       SubmitRoute.users (fst out) = SubmitRoute.users db ++ [g] /\
       SubmitRoute.results (fst out) =
         Result.deactivate (User._id g) (SubmitRoute.results db) /\
       List.length (SubmitRoute.results (fst out)) =
         List.length (SubmitRoute.results db)) /\
    (ans = [] ->
     Result.save doc =
       Throw (ValidationError "At least one answer is required")).
Proof.
  intros validate_user db body now aid ans q Hwf. cbn zeta. intros Hv.
  rewrite (handle_well_formed validate_user db body now aid ans q Hwf Hv).
  split.
  - intros e He. unfold Result.createNewResult, Result.create.
    fold (new_document (User._id (guest_of db body now
            (result_of_scores Assessment.closeThreshold (scores_of ans q))))
            aid ans
            (result_of_scores Assessment.closeThreshold (scores_of ans q))).
    rewrite He. cbn [fst snd SubmitRoute.users SubmitRoute.results].
    repeat split. unfold Result.deactivate. apply length_map.
  - intros ->. reflexivity.
Qed.

(** ** Navigation between articles *)

Lemma insert_by_order_perm (d : Content.ContentDoc)
  (l : list Content.ContentDoc) :
  Permutation (Content.insert_by_order d l) (d :: l).
Proof.
  induction l as [| e rest IH]; [apply Permutation_refl |].
  cbn. destruct (Content.order_le _ _); [apply Permutation_refl |].
  eapply Permutation_trans; [apply perm_skip, IH | apply perm_swap].
Qed.

Lemma sort_by_order_perm (l : list Content.ContentDoc) :
  Permutation (Content.sort_by_order l) l.
Proof.
  induction l as [| d rest IH]; [apply Permutation_refl |].
  cbn. eapply Permutation_trans; [apply insert_by_order_perm |].
  now apply perm_skip.
Qed.

Lemma find_siblings_In (db : list Content.ContentDoc) (parent : nat)
  (d : Content.ContentDoc) :
  In d (Content.find_siblings db parent) <->
  In d db /\ Content.parentId d = Some parent /\ Content.published d = true.
Proof.
  unfold Content.find_siblings. split.
  - intros Hin.
    apply (Permutation_in _ (sort_by_order_perm _)) in Hin.
    apply filter_In in Hin. destruct Hin as [Hdb Hf].
    split; [exact Hdb |].
    destruct (Content.parentId d) as [p |]; [| discriminate].
    apply andb_prop in Hf. destruct Hf as [Hp Hpub].
    apply Nat.eqb_eq in Hp. now subst.
  - intros [Hdb [Hp Hpub]].
    apply (Permutation_in _ (Permutation_sym (sort_by_order_perm _))).
    apply filter_In. split; [exact Hdb |].
    rewrite Hp, Hpub, Nat.eqb_refl. reflexivity.
Qed.

Lemma siblings_unique (db : list Content.ContentDoc) (parent : nat) :
  unique_ids db ->
  NoDup (map Content.sibling_id (siblings_of db parent)).
Proof.
  unfold unique_ids, siblings_of, Content.find_siblings. intros Hu.
  rewrite map_map. cbn [Content.select Content.sibling_id].
  change (fun x => Content._id x) with Content._id.
  eapply Permutation_NoDup.
  - apply Permutation_sym, Permutation_map, sort_by_order_perm.
  - induction db as [| d rest IH]; [constructor |].
    cbn [map] in Hu. inversion Hu as [| ? ? Hnot Hrest]; subst.
    cbn [filter].
    destruct (match Content.parentId d with
              | Some p => (p =? parent)%nat && Content.published d
              | None => false
              end); [| now apply IH].
    cbn [map]. constructor; [| now apply IH].
    intros Hin. apply Hnot. apply in_map_iff in Hin.
    destruct Hin as [x [Hx Hin]]. apply filter_In in Hin.
    apply in_map_iff. exists x. tauto.
Qed.

Lemma NoDup_map_injective {A B : Type} (f : A -> B) (l : list A) (a b : A) :
  NoDup (map f l) -> In a l -> In b l -> f a = f b -> a = b.
Proof.
  induction l as [| x rest IH]; [contradiction |].
  cbn [map]. intros Hnd Ha Hb Hf.
  inversion Hnd as [| ? ? Hnot Hrest]; subst.
  destruct Ha as [-> | Ha], Hb as [-> | Hb]; try reflexivity.
  - exfalso. apply Hnot. rewrite Hf. now apply in_map.
  - exfalso. apply Hnot. rewrite <- Hf. now apply in_map.
  - now apply IH.
Qed.

Lemma findIndex_bounds {A : Type} (f : A -> bool) (l : list A) :
  (-1 <= Content.findIndex f l < Z.of_nat (List.length l))%Z.
Proof.
  induction l as [| x rest IH]; [cbn; lia |].
  cbn [Content.findIndex List.length]. destruct (f x); [lia |].
  destruct (Z.ltb_spec (Content.findIndex f rest) 0); lia.
Qed.

Lemma findIndex_missing {A : Type} (f : A -> bool) (l : list A) :
  (forall x, In x l -> f x = false) -> Content.findIndex f l = (-1)%Z.
Proof.
  induction l as [| x rest IH]; [reflexivity |].
  intros H. cbn [Content.findIndex]. rewrite (H x) by now left.
  rewrite IH by (intros y Hy; apply H; now right). reflexivity.
Qed.

(** In a list without repeated ids the index of an element is found from
    its id. *)
Lemma findIndex_nth (l : list Content.Sibling) (i : nat) (s : Content.Sibling) :
  NoDup (map Content.sibling_id l) ->
  nth_error l i = Some s ->
  Content.findIndex
    (fun x => (Content.sibling_id x =? Content.sibling_id s)%nat) l
  = Z.of_nat i.
Proof.
  revert i. induction l as [| x rest IH]; intros i Hnd Hn.
  - destruct i; discriminate.
  - cbn [map] in Hnd. inversion Hnd as [| ? ? Hnot Hrest]; subst.
    cbn [Content.findIndex]. destruct i as [| i].
    + cbn in Hn. injection Hn as ->. now rewrite Nat.eqb_refl.
    + cbn [nth_error] in Hn.
      destruct (Nat.eqb_spec (Content.sibling_id x) (Content.sibling_id s))
        as [Heq | Hne].
      * exfalso. apply Hnot. rewrite Heq. apply in_map.
        eapply nth_error_In. exact Hn.
      * rewrite (IH i Hrest Hn).
        destruct (Z.ltb_spec (Z.of_nat i) 0); lia.
Qed.

Lemma at_index_nat {A : Type} (l : list A) (i : nat) :
  Content.at_index l (Z.of_nat i) = nth_error l i.
Proof.
  unfold Content.at_index.
  destruct (Z.ltb_spec (Z.of_nat i) 0); [lia |].
  now rewrite Nat2Z.id.
Qed.

(** The navigation of an article that is in the list of its siblings, at
    index [i]. *)
Lemma navigation_at (db : list Content.ContentDoc) (parent : nat)
  (this : Content.ContentDoc) :
  unique_ids db -> In this db -> listed_under parent this ->
  exists i,
    nth_error (siblings_of db parent) i = Some (Content.select this) /\
    Content.getNavigation db this =
      Content.mkNavigation
        (match i with
         | O => None
         | S j => nth_error (siblings_of db parent) j
         end)
        (nth_error (siblings_of db parent) (S i))
        (Some (siblings_of db parent)).
Proof.
  intros Hu Hin [Ht [Hp Hpub]].
  assert (Hs : In (Content.select this) (siblings_of db parent)).
  { unfold siblings_of. apply in_map. apply find_siblings_In. tauto. }
  apply In_nth_error in Hs. destruct Hs as [i Hi]. exists i.
  split; [exact Hi |].
  unfold Content.getNavigation. rewrite Ht, Hp.
  fold (siblings_of db parent).
  change (Content._id this) with (Content.sibling_id (Content.select this)).
  rewrite (findIndex_nth _ i _ (siblings_unique db parent Hu) Hi).
  f_equal.
  - destruct i as [| j]; [reflexivity |].
    destruct (Z.ltb_spec 0 (Z.of_nat (S j))); [| lia].
    replace (Z.of_nat (S j) - 1)%Z with (Z.of_nat j) by lia.
    apply at_index_nat.
  - destruct (Z.ltb_spec (Z.of_nat i)
                (Z.of_nat (List.length (siblings_of db parent)) - 1)).
    + replace (Z.of_nat i + 1)%Z with (Z.of_nat (S i)) by lia.
      apply at_index_nat.
    + symmetry. apply nth_error_None. lia.
Qed.

Lemma nth_error_unique (l : list Content.Sibling) (i j : nat)
  (s : Content.Sibling) :
  NoDup (map Content.sibling_id l) ->
  nth_error l i = Some s -> nth_error l j = Some s -> i = j.
Proof.
  intros Hnd Hi Hj.
  pose proof (findIndex_nth l i s Hnd Hi) as H1.
  pose proof (findIndex_nth l j s Hnd Hj) as H2.
  lia.
Qed.

(** X21.  Going to the next article and back: among the published sub-articles
    of one parent, in a collection without repeated ids, [B] is the next
    article of [A] exactly when [A] is the previous article of [B]. *)
Theorem next_and_previous_are_inverse :
  forall (db : list Content.ContentDoc) (parent : nat)
         (A B : Content.ContentDoc),
    unique_ids db -> In A db -> In B db ->
    listed_under parent A -> listed_under parent B ->
    (Content.next (Content.getNavigation db A) = Some (Content.select B) <->
     Content.prev (Content.getNavigation db B) = Some (Content.select A)).
Proof.
  intros db parent A B Hu HA HB LA LB.
  destruct (navigation_at db parent A Hu HA LA) as [i [Hi ->]].
  destruct (navigation_at db parent B Hu HB LB) as [j [Hj ->]].
  cbn [Content.next Content.prev].
  pose proof (siblings_unique db parent Hu) as Hnd.
  split.
  - intros Hn.
    assert (j = S i) by (eapply nth_error_unique; eassumption).
    subst j. exact Hi.
  - destruct j as [| j]; [discriminate |].
    intros Hp.
    assert (j = i) by (eapply nth_error_unique; eassumption).
    subst j. exact Hj.
Qed.

(** X22.  An article that is not in the list of its siblings (it is not
    published) has no previous article, and its next article is the
    first of the list. *)
Theorem an_unpublished_article_points_to_the_first_sibling :
  forall (db : list Content.ContentDoc) (parent : nat)
         (this : Content.ContentDoc),
    unique_ids db -> In this db ->
    Content.contentType this = Content.personality_sub ->
    Content.parentId this = Some parent ->
    Content.published this = false ->
    Content.getNavigation db this =
      Content.mkNavigation None (hd_error (siblings_of db parent))
        (Some (siblings_of db parent)).
Proof.
  intros db parent this Hu Hin Ht Hp Hpub.
  unfold Content.getNavigation. rewrite Ht, Hp.
  fold (siblings_of db parent).
  rewrite findIndex_missing.
  - cbn [Z.ltb Z.compare]. f_equal.
    destruct (siblings_of db parent) as [| s rest]; [reflexivity |].
    destruct (Z.ltb_spec (-1) (Z.of_nat (List.length (s :: rest)) - 1));
      [reflexivity | cbn [List.length] in *; lia].
  - intros s Hs. apply Nat.eqb_neq. intros Heq.
    unfold siblings_of in Hs. apply in_map_iff in Hs.
    destruct Hs as [d [<- Hd]]. apply find_siblings_In in Hd.
    destruct Hd as [Hdb [_ Hdpub]].
    assert (d = this).
    { apply (NoDup_map_injective Content._id db); assumption. }
    subst d. congruence.
Qed.

Lemma order_le_total (a b : option Z) :
  Content.order_le a b = true \/ Content.order_le b a = true.
Proof.
  destruct a as [x |], b as [y |]; cbn; auto.
  destruct (Z.leb_spec x y), (Z.leb_spec y x); auto; lia.
Qed.

Lemma order_le_trans (a b c : option Z) :
  Content.order_le a b = true -> Content.order_le b c = true ->
  Content.order_le a c = true.
Proof.
  destruct a as [x |], b as [y |], c as [z |]; cbn; try congruence.
  rewrite !Z.leb_le. lia.
Qed.

Lemma insert_by_order_sorted (d : Content.ContentDoc)
  (l : list Content.ContentDoc) :
  StronglySorted in_order l ->
  StronglySorted in_order (Content.insert_by_order d l).
Proof.
  induction 1 as [| e rest Hs IH Hall]; cbn.
  - repeat constructor.
  - destruct (Content.order_le (Content.order d) (Content.order e)) eqn:Hle.
    + constructor; [now constructor |].
      constructor; [exact Hle |].
      eapply Forall_impl; [| exact Hall].
      intros x Hx. unfold in_order in *. eapply order_le_trans; eassumption.
    + constructor; [exact IH |].
      apply (Permutation_Forall (Permutation_sym (insert_by_order_perm d rest))).
      constructor; [| exact Hall].
      unfold in_order.
      destruct (order_le_total (Content.order d) (Content.order e));
        congruence.
Qed.

Lemma sort_by_order_sorted (l : list Content.ContentDoc) :
  StronglySorted in_order (Content.sort_by_order l).
Proof.
  induction l as [| d rest IH]; [constructor |].
  cbn. now apply insert_by_order_sorted.
Qed.

Lemma sorted_nth (l : list Content.ContentDoc) (i j : nat)
  (a b : Content.ContentDoc) :
  StronglySorted in_order l -> (i < j)%nat ->
  nth_error l i = Some a -> nth_error l j = Some b -> in_order a b.
Proof.
  intros Hs. revert i j. induction Hs as [| x rest Hs IH Hall];
    intros i j Hlt Hi Hj.
  - destruct i; discriminate.
  - destruct j as [| j]; [lia |]. cbn [nth_error] in Hj.
    destruct i as [| i].
    + cbn in Hi. injection Hi as ->.
      rewrite Forall_forall in Hall. apply Hall.
      eapply nth_error_In. exact Hj.
    + cbn [nth_error] in Hi. apply (IH i j); [lia | assumption | assumption].
Qed.

(** X23.  The previous and next articles of a published sub-article are other
    published documents of the same parent (sub-articles or not: the
    query does not look at the content type), the previous one not after
    it and the next one not before it in the order of the articles. *)
Theorem neighbours_follow_the_order :
  forall (db : list Content.ContentDoc) (parent : nat)
         (this : Content.ContentDoc),
    unique_ids db -> In this db -> listed_under parent this ->
    (forall s,
       Content.prev (Content.getNavigation db this) = Some s ->
       exists d, In d db /\ s = Content.select d /\
                 Content.parentId d = Some parent /\
                 Content.published d = true /\
                 Content._id d <> Content._id this /\ in_order d this) /\
    (forall s,
       Content.next (Content.getNavigation db this) = Some s ->
       exists d, In d db /\ s = Content.select d /\
                 Content.parentId d = Some parent /\
                 Content.published d = true /\
                 Content._id d <> Content._id this /\ in_order this d).
Proof.
  intros db parent this Hu Hin Hl.
  destruct (navigation_at db parent this Hu Hin Hl) as [i [Hi ->]].
  cbn [Content.prev Content.next].
  pose proof (siblings_unique db parent Hu) as Hnd.
  pose proof (sort_by_order_sorted
                (filter (fun d =>
                           match Content.parentId d with
                           | Some p => (p =? parent)%nat && Content.published d
                           | None => false
                           end) db)) as Hsorted.
  fold (Content.find_siblings db parent) in Hsorted.
  unfold siblings_of in Hi, Hnd |- *.
  assert (Hdoc : forall k s,
            nth_error (map Content.select (Content.find_siblings db parent)) k
              = Some s ->
            exists d, nth_error (Content.find_siblings db parent) k = Some d /\
                      s = Content.select d /\ In d db /\
                      Content.parentId d = Some parent /\
                      Content.published d = true).
  { intros k s Hk. rewrite nth_error_map in Hk.
    destruct (nth_error (Content.find_siblings db parent) k) as [d |] eqn:Hd;
      [| discriminate].
    injection Hk as <-. exists d. split; [reflexivity |].
    split; [reflexivity |].
    apply nth_error_In in Hd. apply find_siblings_In in Hd. tauto. }
  destruct (Hdoc i _ Hi) as [t [Ht [Hsel [Htdb _]]]].
  assert (Hthis : t = this).
  { apply (NoDup_map_injective Content._id db); try assumption.
    injection Hsel as H _ _ _. now symmetry. }
  subst t.
  assert (Hother : forall k d,
            k <> i ->
            nth_error (map Content.select (Content.find_siblings db parent)) k
              = Some (Content.select d) ->
            In d db -> Content._id d <> Content._id this).
  { intros k d Hk Hs Hdb Heq. apply Hk.
    apply (nth_error_unique
             (map Content.select (Content.find_siblings db parent))
             k i (Content.select d) Hnd Hs).
    rewrite Hi. f_equal.
    assert (d = this)
      by (apply (NoDup_map_injective Content._id db); assumption).
    now subst. }
  split; intros s Hs.
  - destruct i as [| j]; [discriminate |].
    destruct (Hdoc j s Hs) as [d [Hd [-> [Hdb [Hp Hpub]]]]].
    exists d. repeat split; try assumption.
    + apply (Hother j d); [lia | exact Hs | exact Hdb].
    + apply (sorted_nth _ j (S j) d this Hsorted); [lia | exact Hd | exact Ht].
  - destruct (Hdoc (S i) s Hs) as [d [Hd [-> [Hdb [Hp Hpub]]]]].
    exists d. repeat split; try assumption.
    + apply (Hother (S i) d); [lia | exact Hs | exact Hdb].
    + apply (sorted_nth _ i (S i) this d Hsorted); [lia | exact Ht | exact Hd].
Qed.

(** ** The word count *)

Lemma strip_outside_app (a s : string) :
  free_of "<" a ->
  Content.strip_tags_from false (a ++ s) =
    (a ++ Content.strip_tags_from false s)%string.
Proof.
  induction a as [| c rest IH]; [reflexivity |].
  intros [Hc Hrest]. cbn [append Content.strip_tags_from].
  rewrite (proj2 (Ascii.eqb_neq c "<")) by exact Hc.
  cbn [andb]. now rewrite IH.
Qed.

Lemma strip_inside_tag (tag b : string) :
  free_of ">" tag ->
  Content.strip_tags_from true (tag ++ String ">" b) =
    Content.strip_tags_from false b.
Proof.
  induction tag as [| c rest IH].
  - intros _. reflexivity.
  - intros [Hc Hrest]. cbn [append Content.strip_tags_from].
    rewrite (proj2 (Ascii.eqb_neq c ">")) by exact Hc.
    cbn [negb]. now apply IH.
Qed.

Lemma has_gt_app (tag b : string) :
  Content.has_gt (tag ++ String ">" b) = true.
Proof.
  induction tag as [| c rest IH]; cbn; [reflexivity |].
  rewrite IH. apply orb_true_r.
Qed.

Lemma strip_tags_one_tag (a tag b : string) :
  free_of "<" a -> free_of ">" tag ->
  Content.strip_tags (a ++ String "<" (tag ++ String ">" b)) =
    Content.strip_tags (a ++ b).
Proof.
  intros Ha Ht. unfold Content.strip_tags.
  rewrite !strip_outside_app by exact Ha. f_equal.
  cbn [Content.strip_tags_from]. rewrite has_gt_app.
  cbn [Ascii.eqb Bool.eqb andb]. now apply strip_inside_tag.
Qed.

Lemma strip_tags_unclosed (inside_free : string) :
  Content.has_gt inside_free = false ->
  Content.strip_tags inside_free = inside_free.
Proof.
  unfold Content.strip_tags.
  induction inside_free as [| c rest IH]; [reflexivity |].
  cbn [Content.has_gt Content.strip_tags_from]. intros H.
  apply orb_false_elim in H. destruct H as [_ Hrest].
  rewrite Hrest, andb_false_r. now rewrite IH.
Qed.

(** X24.  A tag adds nothing to the word count, not even a break between words:
    a body with a tag [<tag>] counts as many words as the body without
    it, so that two words with only a tag between them count as one.  A
    body without any [>] is counted as it stands, its [<] included. *)
Theorem tags_are_not_counted_and_do_not_separate_words :
  forall (this : Content.ContentDoc) (a tag b : string),
    free_of "<" a -> free_of ">" tag ->
    Content.wordCount
      (with_body this (a ++ String "<" (tag ++ String ">" b))) =
    Content.wordCount (with_body this (a ++ b)) /\
    (Content.has_gt (a ++ b) = false ->
     Content.wordCount (with_body this (a ++ b)) =
       List.length
         (filter (fun word => (0 <? String.length word)%nat)
            (Content.split_spaces (a ++ b)))).
Proof.
  intros this a tag b Ha Ht. unfold Content.wordCount, with_body.
  cbn [Content.body]. split.
  - now rewrite strip_tags_one_tag.
  - intros Hgt. now rewrite strip_tags_unclosed.
Qed.

(** ** The cached connection *)

Lemma uri_set_truthy (uri : option string) :
  uri_set uri ->
  negb (match uri with Some u => truthy u | None => false end) = false.
Proof.
  intros [u [-> Hu]]. unfold truthy.
  now rewrite (proj2 (String.eqb_neq u "")) by exact Hu.
Qed.

(** [connectDB] past the check of the environment variable. *)
Lemma connectDB_with_uri (uri : option string)
  (cached : Mongodb.MongooseCache) (attempt : completion nat) :
  uri_set uri ->
  Mongodb.connectDB uri cached attempt =
    match Mongodb.conn cached with
    | Some c => Mongodb.mkOutcome cached false (Normal c)
    | None =>
        let '(pending, called) :=
          match Mongodb.promise cached with
          | Some p => (p, false)
          | None => (attempt, true)
          end in
        match pending with
        | Normal c =>
            Mongodb.mkOutcome (Mongodb.mkCache (Some c) (Some pending))
              called (Normal c)
        | Throw e =>
            Mongodb.mkOutcome (Mongodb.mkCache (Mongodb.conn cached) None)
              called (Throw e)
        end
    end.
Proof.
  intros Hu. unfold Mongodb.connectDB. now rewrite (uri_set_truthy uri Hu).
Qed.

(** X25.  Once [connectDB] has returned a connection, every later call returns
    the same one without calling [mongoose.connect], whatever a new
    attempt would give, and leaves the cache as it is. *)
Theorem a_connection_is_made_once_and_reused :
  forall (uri : option string) (cached : Mongodb.MongooseCache)
         (attempt : completion nat) (c : nat),
    uri_set uri ->
    Mongodb.completion_of (Mongodb.connectDB uri cached attempt) = Normal c ->
    let cached' := Mongodb.cache_after (Mongodb.connectDB uri cached attempt) in
    Mongodb.conn cached' = Some c /\
    forall attempt',
      Mongodb.connectDB uri cached' attempt' =
        Mongodb.mkOutcome cached' false (Normal c).
Proof.
  intros uri cached attempt c Hu. cbn zeta.
  unfold Mongodb.connectDB. rewrite (uri_set_truthy uri Hu).
  destruct (Mongodb.conn cached) as [c0 |] eqn:Hc.
  - cbn. intros H. injection H as ->. split; [exact Hc |].
    intros attempt'. now rewrite Hc.
  - destruct (Mongodb.promise cached) as [[c1 | e] |];
      [| | destruct attempt as [c1 | e]]; cbn;
      intros H; try discriminate H; injection H as ->;
      (split; [reflexivity | intros attempt'; reflexivity]).
Qed.

(** X26.  A failed attempt leaves no promise behind, so that the next call
    makes a new attempt and can succeed; a call leaves the cache settled;
    and after [disconnectDB] has returned the cache is empty, so that the
    next call connects anew. *)
Theorem a_failed_connection_is_retried :
  forall (uri : option string) (cached : Mongodb.MongooseCache)
         (attempt : completion nat),
    uri_set uri -> settled cached ->
    let out := Mongodb.connectDB uri cached attempt in
    settled (Mongodb.cache_after out) /\
    (forall e,
       Mongodb.completion_of out = Throw e ->
       Mongodb.cache_after out = Mongodb.empty_cache /\
       attempt = Throw e /\ Mongodb.connect_called out = true /\
       forall c,
         Mongodb.connectDB uri (Mongodb.cache_after out) (Normal c) =
           Mongodb.mkOutcome
             (Mongodb.mkCache (Some c) (Some (Normal c))) true (Normal c)) /\
    (forall disconnected,
       settled (fst (Mongodb.disconnectDB cached disconnected)) /\
       (snd (Mongodb.disconnectDB cached disconnected) = Normal tt ->
        fst (Mongodb.disconnectDB cached disconnected) =
          Mongodb.empty_cache /\
        forall c,
          Mongodb.connectDB uri
            (fst (Mongodb.disconnectDB cached disconnected)) (Normal c) =
            Mongodb.mkOutcome
              (Mongodb.mkCache (Some c) (Some (Normal c))) true (Normal c))).
Proof.
  intros uri cached attempt Hu Hs. cbn zeta.
  assert (Hfresh : forall c,
            Mongodb.connectDB uri Mongodb.empty_cache (Normal c) =
              Mongodb.mkOutcome
                (Mongodb.mkCache (Some c) (Some (Normal c))) true (Normal c)).
  { intros c. now rewrite connectDB_with_uri by exact Hu. }
  rewrite (connectDB_with_uri uri cached attempt Hu).
  destruct Hs as [-> | [c0 ->]]; cbn.
  - split; [| split].
    + destruct attempt as [c | e]; [right; now exists c | now left].
    + intros e He. destruct attempt as [c | e']; [discriminate He |].
      cbn in *. injection He as ->. repeat split. exact Hfresh.
    + intros disconnected. split; [now left |].
      intros _. split; [reflexivity | exact Hfresh].
  - split; [| split].
    + right. now exists c0.
    + intros e He. discriminate He.
    + intros [[] | e]; cbn; split; try (now left);
        try (right; now exists c0).
      * intros _. split; [reflexivity | exact Hfresh].
      * intros H. discriminate H.
Qed.

(** ** The properties at sample data *)

Lemma sample_questions_accepted : Forall accepted sample_questions.
Proof. repeat (constructor; [reflexivity |]). constructor. Qed.

Lemma sample_answers_from_questions :
  answered_from sample_questions sample_answers.
Proof. repeat (constructor; [simpl; tauto |]). constructor. Qed.

Lemma sample_tallies_match : tallies_match sample_answers unit_counts.
Proof. intros d. destruct d; reflexivity. Qed.

Lemma sample_answers_array : js_array sample_answers.
Proof. reflexivity. Qed.

Lemma unit_counts_round : round_counts unit_counts.
Proof.
  intros d. exists 1%Z. destruct d;
    (split; [reflexivity | split; [lia | exists 100%Z; reflexivity]]).
Qed.

Lemma sample_request_well_formed (answers : list string) :
  well_formed_request sample_db (sample_body answers) 7 answers unit_counts.
Proof. repeat split. simpl. tauto. Qed.

Lemma sample_contents_unique : unique_ids sample_contents.
Proof.
  unfold unique_ids. simpl.
  repeat (constructor; [simpl; intuition discriminate |]). constructor.
Qed.

(** X4, at sample data.  The four sample questions and their answers. *)
Lemma complete_submission_matches_question_counts_witness :
  Forall accepted sample_questions /\
  answered_from sample_questions sample_answers /\
  tallies_match sample_answers
    (AssessmentSchema.getQuestionCounts sample_questions).
Proof.
  split; [exact sample_questions_accepted |].
  split; [exact sample_answers_from_questions |].
  exact (proj1 (proj2 (complete_submission_matches_question_counts
                         sample_questions sample_answers
                         sample_questions_accepted
                         sample_answers_from_questions))).
Defined.

(** X5, at sample data.  One answer in each of four dimensions of one question. *)
Lemma matching_tallies_give_whole_percentages_witness :
  js_array sample_answers /\ tallies_match sample_answers unit_counts /\
  exists r,
    Assessment.calculateResult sample_answers (Some unit_counts) = Normal r /\
    exists x y,
      whole_percent (extrovert (scores r)) x /\
      whole_percent (introvert (scores r)) y /\
      (x + y = 100 \/ x + y = 101)%Z.
Proof.
  split; [exact sample_answers_array |].
  split; [exact sample_tallies_match |].
  destruct (matching_tallies_give_whole_percentages
              sample_answers unit_counts sample_answers_array
              sample_tallies_match)
    as [r [Hr Hd]].
  exists r. split; [exact Hr |].
  apply (proj2 (Hd dimEI)). cbv. lia.
Defined.

(** X6, at sample data.  Question counts of 1 divide 100: the result is stored. *)
Lemma round_question_counts_store_the_result_witness :
  tallies_match sample_answers unit_counts /\ round_counts unit_counts /\
  exists r,
    Assessment.calculateResult sample_answers (Some unit_counts) = Normal r /\
    snd (Result.createNewResult [] 1 7 (resultData_of sample_answers r)) =
      Normal (new_document 1 7 sample_answers r).
Proof.
  split; [exact sample_tallies_match |].
  split; [exact unit_counts_round |].
  destruct (round_question_counts_store_the_result
              sample_answers unit_counts sample_tallies_match
              unit_counts_round) as [r [Hr [_ Hs]]].
  exists r. split; [exact Hr |].
  now rewrite Hs.
Defined.

(** X7, at sample data.  The EI dimension of the documented counts, with one more E. *)
Lemma more_answers_never_lower_a_percentage_witness :
  denominator documented_counts dimEI = Some 20%Z /\
  exists r r',
    Assessment.calculateResult ["E"; "I"] (Some documented_counts)
      = Normal r /\
    Assessment.calculateResult ["E"; "E"; "I"] (Some documented_counts)
      = Normal r' /\
    js_le (extrovert (scores r)) (extrovert (scores r')) = true.
Proof.
  split; [reflexivity |].
  destruct (more_answers_never_lower_a_percentage
              ["E"; "I"] ["E"; "E"; "I"] documented_counts dimEI 20
              eq_refl ltac:(lia)) as [r [r' [Hr [Hr' [Hfirst _]]]]].
  exists r, r'. split; [exact Hr |]. split; [exact Hr' |].
  apply Hfirst. cbv. lia.
Defined.

(** X8, at sample data.  Three E and two I over the documented counts: E is selected. *)
Lemma the_majority_letter_is_selected_witness :
  exists r,
    Assessment.calculateResult ["E"; "I"; "E"; "I"; "E"]
      (Some documented_counts) = Normal r /\
    letter_of (personalityType r) dimEI = "E".
Proof.
  destruct (proj1 the_majority_letter_is_selected
              ["E"; "I"; "E"; "I"; "E"] documented_counts dimEI 20%Z
              eq_refl ltac:(lia)) as [r [Hr [Hfirst _]]].
  exists r. split; [exact Hr |].
  apply Hfirst. cbv. lia.
Defined.

(** X9, at sample data.  Without the EI count, two E answers still give I. *)
Lemma degenerate_dimension_falls_to_the_second_letter_witness :
  denominator counts_without_EI dimEI = None /\
  exists r,
    Assessment.calculateResult ["E"; "E"] (Some counts_without_EI)
      = Normal r /\
    letter_of (personalityType r) dimEI = "I".
Proof.
  split; [reflexivity |].
  destruct (degenerate_dimension_falls_to_the_second_letter
              ["E"; "E"] counts_without_EI dimEI (or_introl eq_refl))
    as [r [Hr [Hnone _]]].
  exists r. split; [exact Hr |].
  exact (Hnone eq_refl).
Defined.

(** X13, at sample data.  A new guest, without points, is awarded ten. *)
Lemma methods_keep_points_and_history_in_step_witness :
  ledger (User.new_guest 1 "Guest" "INFJ") 0 /\
  safe_award (User.new_guest 1 "Guest" "INFJ") (Num 10) /\
  ledger
    (fst (User.awardPoints accept_all (User.new_guest 1 "Guest" "INFJ")
            (Num 10) "complete_test" None 1700000000000%N)) 0.
Proof.
  assert (Hl : ledger (User.new_guest 1 "Guest" "INFJ") 0)
    by (exists 0%Z, []; repeat split).
  assert (Hs : safe_award (User.new_guest 1 "Guest" "INFJ") (Num 10)).
  { exists 0%Z, 10%Z. split; [reflexivity |]. split; [reflexivity |].
    split; vm_compute; discriminate. }
  split; [exact Hl |]. split; [exact Hs |].
  exact (proj1 (methods_keep_points_and_history_in_step
                  accept_all (fun day => day) _ 0%Z Hl)
           (Num 10) "complete_test" None 1700000000000%N Hs).
Defined.

(** X12, at sample data.  Two results stored for one user, a third for another. *)
Lemma reachable_collections_have_one_active_result_witness :
  let data :=
    resultData_of sample_answers
      (result_of_scores Assessment.closeThreshold
         (scores_of sample_answers unit_counts)) in
  let db1 := fst (Result.createNewResult [] 1 7 data) in
  let db2 := fst (Result.createNewResult db1 1 7 data) in
  let db3 := fst (Result.createNewResult db2 2 7 data) in
  reachable db3 /\ List.length db3 = 3%nat /\
  (List.length (active_results 1 db3) <= 1)%nat.
Proof.
  cbn zeta.
  assert (H : reachable
                (fst (Result.createNewResult
                        (fst (Result.createNewResult
                                (fst (Result.createNewResult [] 1 7
                                        (resultData_of sample_answers
                                           (result_of_scores
                                              Assessment.closeThreshold
                                              (scores_of sample_answers
                                                 unit_counts)))))
                                1 7
                                (resultData_of sample_answers
                                   (result_of_scores
                                      Assessment.closeThreshold
                                      (scores_of sample_answers
                                         unit_counts)))))
                        2 7
                        (resultData_of sample_answers
                           (result_of_scores Assessment.closeThreshold
                              (scores_of sample_answers unit_counts)))))).
  { repeat apply reachable_create. apply reachable_empty. }
  split; [exact H |]. split.
  - reflexivity.
  - exact (reachable_collections_have_one_active_result _ H 1%nat).
Defined.

(** X19, at sample data.  A submission of the four sample answers. *)
Lemma a_stored_submission_belongs_to_a_new_guest_witness :
  well_formed_request sample_db (sample_body sample_answers) 7
    sample_answers unit_counts /\
  snd (SubmitRoute.handle accept_all sample_db (sample_body sample_answers)
         1700000000000%N) = SubmitRoute.Ok 1 "INTP".
Proof.
  split; [exact (sample_request_well_formed sample_answers) |].
  exact (proj1 (proj2 (a_stored_submission_belongs_to_a_new_guest
                         accept_all sample_db (sample_body sample_answers)
                         1700000000000%N 7 sample_answers unit_counts
                         (sample_request_well_formed sample_answers)
                         eq_refl eq_refl))).
Defined.

(** X20, at sample data.  A submission without answers: the guest is stored, the result is
    not. *)
Lemma a_failed_save_leaves_the_guest_behind_witness :
  well_formed_request sample_db (sample_body []) 7 [] unit_counts /\
  let out :=
    SubmitRoute.handle accept_all sample_db (sample_body []) 1700000000000%N in
  snd out =
    SubmitRoute.ServerError
      (ValidationError "At least one answer is required") /\
  List.length (SubmitRoute.users (fst out)) = 1%nat /\
  SubmitRoute.results (fst out) = [].
Proof.
  split; [exact (sample_request_well_formed []) |]. cbn zeta.
  destruct (a_failed_save_leaves_the_guest_behind
              accept_all sample_db (sample_body []) 1700000000000%N 7 []
              unit_counts (sample_request_well_formed []) eq_refl)
    as [Hfail Hempty].
  destruct (Hfail _ (Hempty eq_refl)) as [Hresp [Husers [Hresults _]]].
  split; [exact Hresp |]. split.
  - rewrite Husers. reflexivity.
  - rewrite Hresults. reflexivity.
Defined.

(** X21, at sample data.  The second sub-article, of order 1, comes before the first, of
    order 2. *)
Lemma next_and_previous_are_inverse_witness :
  unique_ids sample_contents /\
  Content.prev
    (Content.getNavigation sample_contents
       (sample_article 2 Content.personality_sub (Some 1%nat) (Some 2%Z) true))
  = Some (Content.select
            (sample_article 3 Content.personality_sub (Some 1%nat)
               (Some 1%Z) true)).
Proof.
  split; [exact sample_contents_unique |].
  apply (proj1 (next_and_previous_are_inverse sample_contents 1
                  (sample_article 3 Content.personality_sub (Some 1%nat)
                     (Some 1%Z) true)
                  (sample_article 2 Content.personality_sub (Some 1%nat)
                     (Some 2%Z) true)
                  sample_contents_unique
                  ltac:(simpl; tauto) ltac:(simpl; tauto)
                  ltac:(repeat split) ltac:(repeat split))).
  reflexivity.
Defined.

(** X22, at sample data.  The sub-article that is not published. *)
Lemma an_unpublished_article_points_to_the_first_sibling_witness :
  unique_ids sample_contents /\
  Content.next
    (Content.getNavigation sample_contents
       (sample_article 4 Content.personality_sub (Some 1%nat) (Some 3%Z)
          false))
  = Some (Content.mkSibling 3 "title" "slug" (Some 1%Z)).
Proof.
  split; [exact sample_contents_unique |].
  rewrite (an_unpublished_article_points_to_the_first_sibling
             sample_contents 1
             (sample_article 4 Content.personality_sub (Some 1%nat)
                (Some 3%Z) false)
             sample_contents_unique ltac:(simpl; tauto)
             eq_refl eq_refl eq_refl).
  reflexivity.
Defined.

(** X23, at sample data.  The neighbour after the sub-article of order 1. *)
Lemma neighbours_follow_the_order_witness :
  unique_ids sample_contents /\
  exists d,
    In d sample_contents /\
    Content.next
      (Content.getNavigation sample_contents
         (sample_article 3 Content.personality_sub (Some 1%nat) (Some 1%Z)
            true)) = Some (Content.select d) /\
    Content.order d = Some 2%Z.
Proof.
  split; [exact sample_contents_unique |].
  destruct (proj2 (neighbours_follow_the_order sample_contents 1
                     (sample_article 3 Content.personality_sub (Some 1%nat)
                        (Some 1%Z) true)
                     sample_contents_unique ltac:(simpl; tauto)
                     ltac:(repeat split))
              (Content.mkSibling 2 "title" "slug" (Some 2%Z)) eq_refl)
    as [d [Hin [Hsel _]]].
  exists d. split; [exact Hin |]. split.
  - rewrite <- Hsel. reflexivity.
  - change (Content.sibling_order (Content.select d) = Some 2%Z).
    rewrite <- Hsel. reflexivity.
Defined.

(** X24, at sample data.  A tag inside a word: two words with it and without it. *)
Lemma tags_are_not_counted_and_do_not_separate_words_witness :
  free_of "<" "one t" /\ free_of ">" "b" /\
  Content.wordCount
    (with_body (sample_article 1 Content.general None None true)
       "one t<b>wo") = 2%nat.
Proof.
  assert (Ha : free_of "<" "one t").
  { simpl. repeat split; discriminate. }
  assert (Ht : free_of ">" "b").
  { simpl. repeat split; discriminate. }
  split; [exact Ha |]. split; [exact Ht |].
  change "one t<b>wo"
    with ("one t" ++ String "<" ("b" ++ String ">" "wo"))%string.
  rewrite (proj1 (tags_are_not_counted_and_do_not_separate_words
                    (sample_article 1 Content.general None None true)
                    "one t" "b" "wo" Ha Ht)).
  reflexivity.
Defined.

(** X25, at sample data.  The first call of a process, with a successful attempt. *)
Lemma a_connection_is_made_once_and_reused_witness :
  uri_set (Some "mongodb://localhost/persona") /\
  Mongodb.connectDB (Some "mongodb://localhost/persona")
    (Mongodb.cache_after
       (Mongodb.connectDB (Some "mongodb://localhost/persona")
          Mongodb.empty_cache (Normal 1%nat)))
    (Throw refused)
  = Mongodb.mkOutcome
      (Mongodb.mkCache (Some 1%nat) (Some (Normal 1%nat))) false
      (Normal 1%nat).
Proof.
  assert (Hu : uri_set (Some "mongodb://localhost/persona")).
  { eexists. split; [reflexivity | discriminate]. }
  split; [exact Hu |].
  exact (proj2 (a_connection_is_made_once_and_reused
                  (Some "mongodb://localhost/persona") Mongodb.empty_cache
                  (Normal 1%nat) 1%nat Hu eq_refl)
           (Throw refused)).
Defined.

(** X26, at sample data.  The first call of a process, with a failed attempt. *)
Lemma a_failed_connection_is_retried_witness :
  uri_set (Some "mongodb://localhost/persona") /\
  settled Mongodb.empty_cache /\
  Mongodb.cache_after
    (Mongodb.connectDB (Some "mongodb://localhost/persona")
       Mongodb.empty_cache (Throw refused)) = Mongodb.empty_cache.
Proof.
  assert (Hu : uri_set (Some "mongodb://localhost/persona")).
  { eexists. split; [reflexivity | discriminate]. }
  split; [exact Hu |]. split; [now left |].
  exact (proj1 (proj1 (proj2 (a_failed_connection_is_retried
                                (Some "mongodb://localhost/persona")
                                Mongodb.empty_cache (Throw refused)
                                Hu (or_introl eq_refl)))
                  refused eq_refl)).
Defined.
